(** * Backup, export and retention engine of the POS backend

    Shallow embedding of [src/services/backupService.ts] (class
    [BackupService]) and of the handlers of [src/routes/backupRoutes.ts],
    followed by the properties that the specification states about them
    and by further properties of the same code.

    Conventions of the embedding.
    - A path is the list of its segments below [process.cwd()]; [path.join]
      appends segments.
    - Every [await]ed file-system call can reject: the environment [Env]
      carries an oracle [io_fail] that says, per operation, whether it
      rejects and with which exception.
    - JavaScript objects that the code mutates and shares (the [metadata]
      object of a run) live in a [heap]; [backupHistory] holds references.
    - A computation returns its result, the final state and the list of
      states at which it was suspended on an [await] (the states that other
      requests can observe while it runs). *)

From stdpp Require Import gmap strings list fin_maps pretty sorting.
From Stdlib Require Import ZArith String Ascii.

Set Warnings "-clear-no-such-hyp".

Open Scope Z_scope.
Open Scope string_scope.
Open Scope list_scope.

(* ================================================================= *)
(** ** JavaScript values *)

Definition dquote : ascii := "034"%char.
Definition newline : string := String "010"%char EmptyString.
Definition backslash : string := String "092"%char EmptyString.

(** [JsValue]: the values found in exported records.  Numbers are the
    integral ones; [VArr] and [VObj] are arrays and nested objects;
    [VFun] is a function of the runtime, given by its name. *)
#[warnings="-register-all"]
Inductive JsValue :=
| VUndefined
| VNull
| VBool (b : bool)
| VNum (n : Z)
| VStr (s : string)
| VArr (items : list JsValue)
| VObj (props : list (string * JsValue))
| VFun (name : string).

(** A record is an object literal or a parsed JSON object: its own keys
    in the order of [Object.keys], its prototype [Object.prototype]. *)
Abbreviation JsRecord := (list (string * JsValue)) (only parsing).

(** What a record inherits from [Object.prototype]: the methods, the
    [constructor], and the accessor [__proto__], whose getter returns the
    prototype itself, an object without enumerable keys. *)
Definition prototype_methods : list string :=
  ["__defineGetter__"; "__defineSetter__"; "__lookupGetter__"; "__lookupSetter__";
   "hasOwnProperty"; "isPrototypeOf"; "propertyIsEnumerable"; "toLocaleString";
   "toString"; "valueOf"].

Definition inherited (key : string) : JsValue :=
  if String.eqb key "__proto__" then VObj []
  else if String.eqb key "constructor" then VFun "Object"
  else if existsb (String.eqb key) prototype_methods then VFun key
  else VUndefined.

(** [item[key]]: the own property, else the inherited one. *)
Fixpoint obj_get (key : string) (r : JsRecord) : JsValue :=
  match r with
  | [] => inherited key
  | (k, v) :: r' => if String.eqb k key then v else obj_get key r'
  end.

(** An array index is the canonical decimal form of an integer below
    [2^32 - 1]. *)
Definition digit (c : ascii) : option N :=
  let n := N_of_ascii c in
  if ((48 <=? n) && (n <=? 57))%N then Some (n - 48)%N else None.

Fixpoint decimal (acc : N) (s : string) : option N :=
  match s with
  | EmptyString => Some acc
  | String c s' =>
      match digit c with
      | Some d => decimal (10 * acc + d)%N s'
      | None => None
      end
  end.

Definition array_index (key : string) : option N :=
  match decimal 0%N key with
  | Some n =>
      if (n <? 4294967295)%N && String.eqb (pretty n) key then Some n else None
  | None => None
  end.

(** The place of a new own key: array indices are listed first, in
    ascending order; the other keys follow in insertion order. *)
Definition goes_before (key k : string) : bool :=
  match array_index key, array_index k with
  | Some i, Some j => (i <? j)%N
  | Some _, None => true
  | None, _ => false
  end.

(** [obj[key] = v] for a key other than [__proto__]: an existing key
    keeps its position. *)
Fixpoint obj_set (key : string) (v : JsValue) (r : JsRecord) : JsRecord :=
  match r with
  | [] => [(key, v)]
  | (k, w) :: r' =>
      if String.eqb k key then (k, v) :: r'
      else if goes_before key k then (key, v) :: (k, w) :: r'
      else (k, w) :: obj_set key v r'
  end.

(** [Object.keys(obj)] *)
Definition obj_keys (r : JsRecord) : list string := map fst r.

(** [a === b].  Arrays and objects compare by reference; a filter value
    parsed from a request is never the stored object itself. *)
Definition strict_eq (a b : JsValue) : bool :=
  match a, b with
  | VUndefined, VUndefined => true
  | VNull, VNull => true
  | VBool x, VBool y => Bool.eqb x y
  | VNum x, VNum y => Z.eqb x y
  | VStr x, VStr y => String.eqb x y
  | _, _ => false
  end.

(** [String(value)] *)
Fixpoint toStr (v : JsValue) : string :=
  match v with
  | VUndefined => "undefined"
  | VNull => "null"
  | VBool true => "true"
  | VBool false => "false"
  | VNum n => pretty n
  | VStr s => s
  | VArr items =>
      String.concat ","
        (map (fun x => match x with
                       | VUndefined | VNull => ""
                       | _ => toStr x
                       end) items)
  | VObj _ => "[object Object]"
  | VFun name => "function " +:+ name +:+ "() { [native code] }"
  end.

(** [hay.includes(needle)] *)
Fixpoint includes (needle hay : string) : bool :=
  String.prefix needle hay ||
  match hay with
  | EmptyString => false
  | String _ hay' => includes needle hay'
  end.

(** The [replace] of [exportToCSV]: every double-quote character of the
    value is written twice. *)
Fixpoint double_quotes (s : string) : string :=
  match s with
  | EmptyString => EmptyString
  | String c s' =>
      if Ascii.eqb c dquote
      then String dquote (String dquote (double_quotes s'))
      else String c (double_quotes s')
  end.

(* ================================================================= *)
(** ** ExportEngine: the pure part of [exportData] *)

(** [ExportOptions].  A [Date] is its time value, [None] for an invalid
    date (whose comparisons are all false). *)
Record ExportOptions := {
  collection : string;
  format : string;
  dateRange : option (option Z * option Z);
  filters : option JsRecord;
  fields : option (list string)
}.

(** [Object.entries(options.filters).every(([key, value]) => item[key] === value)] *)
Definition matches_filters (flt : JsRecord) (item : JsRecord) : bool :=
  forallb (fun '(key, value) => strict_eq (obj_get key item) value) flt.

(** [filtered[field] = value].  The name [__proto__] reaches the setter
    of [Object.prototype], which adds no own key. *)
Definition assign (field : string) (value : JsValue) (filtered : JsRecord)
  : JsRecord :=
  if String.eqb field "__proto__" then filtered else obj_set field value filtered.

(** The projection callback of [getProductsData]:
    [filtered = {}; fields.forEach(f => filtered[f] = item[f])]. *)
Definition project (flds : list string) (item : JsRecord) : JsRecord :=
  fold_left (fun filtered field => assign field (obj_get field item) filtered)
            flds [].

Definition getProductsData (products : list JsRecord) (options : ExportOptions)
  : list JsRecord :=
  let data := products in
  let data := match filters options with
              | Some flt => List.filter (matches_filters flt) data
              | None => data
              end in
  let data := match fields options with
              | Some flds => map (project flds) data
              | None => data
              end in
  data.

(** [saleDate >= start && saleDate <= end] on time values. *)
Definition in_range (saleDate : option Z) (range : option Z * option Z) : bool :=
  match saleDate, range with
  | Some d, (Some s, Some e) => (s <=? d)%Z && (d <=? e)%Z
  | _, _ => false
  end.

Section SalesData.
(** [models/sale.ts] is not part of the sources: the time value of
    [new Date(sale.createdAt)] is a parameter. *)
Variable dateOf : JsValue -> option Z.

Definition getSalesData (sales : list JsRecord) (options : ExportOptions)
  : list JsRecord :=
  let data := sales in
  let data := match dateRange options with
              | Some range =>
                  List.filter
                    (fun sale => in_range (dateOf (obj_get "createdAt" sale)) range)
                    data
              | None => data
              end in
  let data := match filters options with
              | Some flt => List.filter (matches_filters flt) data
              | None => data
              end in
  data.
End SalesData.

Definition getInventoryData (products : list JsRecord) (options : ExportOptions)
  : list JsRecord :=
  map (fun product =>
         [ ("id", obj_get "id" product);
           ("name", obj_get "name" product);
           ("category", obj_get "category" product);
           ("currentStock", obj_get "quantity" product);
           ("barcode", obj_get "barcode" product);
           ("cost", obj_get "cost" product);
           ("price", obj_get "price" product);
           ("supplierId", obj_get "supplierId" product);
           ("minStockLevel", obj_get "minStockLevel" product) ])
      products.

(** One CSV cell of [exportToCSV]. *)
Definition csvCell (value : JsValue) : string :=
  match value with
  | VNull | VUndefined => ""
  | VStr s =>
      if includes "," s
      then String dquote (double_quotes s +:+ String dquote EmptyString)
      else s
  | _ => toStr value
  end.

(** The text that [exportToCSV] writes ([''] for no records). *)
Definition csvContent (data : list JsRecord) : string :=
  match data with
  | [] => ""
  | first :: _ =>
      let headers := obj_keys first in
      String.concat newline
        (String.concat "," headers ::
         map (fun row =>
                String.concat "," (map (fun header => csvCell (obj_get header row)) headers))
             data)
  end.

(* ================================================================= *)
(** ** Exceptions and results *)

(** A thrown value: an [Error] object with its message, or anything else. *)
Inductive Exn :=
| JsError (message : string)
| JsThrown (v : JsValue).

(** [error instanceof Error ? error.message : 'Unknown error'] *)
Definition exn_message (error : Exn) : string :=
  match error with
  | JsError message => message
  | JsThrown _ => "Unknown error"
  end.

Inductive Result (A : Type) :=
| Ok (a : A)
| Throw (error : Exn).
Arguments Ok {A} a.
Arguments Throw {A} error.

(* ================================================================= *)
(** ** Data model *)

Abbreviation Path := (list string) (only parsing).

(** The [timestamp] of a record is a [Date] object when the record was
    made by [createFullBackup].  [JSON.stringify] writes a [Date] as its
    ISO-8601 string and [JSON.parse] gives that string back, so a record
    read from [backup-history.json] carries [IsoString ms], the string
    that denotes the instant [ms]. *)
Inductive Timestamp :=
| DateObj (ms : Z)
| IsoString (ms : Z).

Inductive BackupType := Full | Database | Files | Export.
Inductive Status := Pending | Completed | Failed.

Module BackupMetadata.
Record t := {
  id : string;
  timestamp : Timestamp;
  type : BackupType;
  size : Z;
  path : Path;
  checksum : string;
  collections : option (list string);
  status : Status;
  error : option string
}.
End BackupMetadata.

Module BackupOptions.
Record t := {
  includeUploads : option bool;
  includeDatabase : option bool;
  includeLogs : option bool;
  format : option string;
  compression : option bool
}.
End BackupOptions.

(** File contents, kept structured: [CRecords d] is the text
    [JSON.stringify(d, null, 2)], [CHistory h] the history document,
    [CArchive] a [.tar.gz] given by its files and their relative paths. *)
#[warnings="-register-all"]
Inductive Content :=
| CText (s : string)
| CRecords (data : list JsRecord)
| CHistory (records : list BackupMetadata.t)
| CArchive (entries : list (Path * Content)).

Inductive Node :=
| File (c : Content)
| Dir.

(** A directory tree outside the backup root (uploads, logs), with the
    entries of each directory in [readdir] order. *)
#[warnings="-register-all"]
Inductive DirTree :=
| TFile (c : Content)
| TDir (entries : list (string * DirTree)).

Inductive LogEntry :=
| LogInfo (message : string)
| LogWarn (message : string)
| LogError (message : string) (error : Exn).

(** The awaited operations, as the oracle sees them. *)
Inductive FsOp :=
| OpMkdir (p : Path)
| OpAccess (p : Path)
| OpReadFile (p : Path)
| OpWriteFile (p : Path)
| OpRm (p : Path)
| OpReaddir (p : Path)
| OpCopyFile (src dest : Path)
| OpStat (p : Path)
| OpArchive (source : Path)
| OpWriteStream (p : Path)
| OpChecksum (p : Path)
| OpStringify (name : string).

(** What a call reads from outside the service object. *)
Record Env := {
  io_fail : FsOp -> option Exn;          (* which operations reject *)
  dateNow : Z;                           (* [Date.now()] *)
  newDate : Z;                           (* time value of [new Date()] *)
  products : list JsRecord;
  sales : list JsRecord;
  users : list JsRecord;
  suppliers : list JsRecord;
  purchaseOrders : list JsRecord;
  dateOf : JsValue -> option Z;          (* [new Date(v)] *)
  uploads : option DirTree;              (* [public/uploads] *)
  logFiles : option DirTree;             (* [logs] *)
  fileSize : Node -> Z;                  (* [stats.size] *)
  sha256 : Content -> string;            (* hex digest of a file *)
  pointer : Z                            (* [archive.pointer()] of an archive
                                            whose output failed *)
}.

(** The fields of the [BackupService] object, the heap of metadata
    objects, the file system below [process.cwd()] and the log. *)
Record State := {
  maxBackups : nat;
  isBackupRunning : bool;
  heap : list BackupMetadata.t;
  backupHistory : list nat;
  fs : gmap Path Node;
  logs : list LogEntry
}.

Definition backupDir : Path := ["backups"].
Definition historyPath : Path := backupDir ++ ["backup-history.json"].

Definition blank : BackupMetadata.t :=
  {| BackupMetadata.id := ""; BackupMetadata.timestamp := DateObj 0;
     BackupMetadata.type := Full; BackupMetadata.size := 0;
     BackupMetadata.path := []; BackupMetadata.checksum := "";
     BackupMetadata.collections := None;
     BackupMetadata.status := Pending; BackupMetadata.error := None |}.

(** The object a reference points to. *)
Definition deref (h : list BackupMetadata.t) (r : nat) : BackupMetadata.t :=
  default blank (h !! r).

(** The records of the history, in order. *)
Definition records (s : State) : list BackupMetadata.t :=
  map (deref (heap s)) (backupHistory s).

(* ================================================================= *)
(** ** Computations *)

(** Result, final state, and the states at the suspension points. *)
Definition M (A : Type) : Type := State -> Result A * State * list State.

Definition ret {A} (a : A) : M A := fun s => (Ok a, s, []).

Definition bind {A B} (m : M A) (f : A -> M B) : M B :=
  fun s =>
    match m s with
    | (Ok a, s1, t1) => let '(r, s2, t2) := f a s1 in (r, s2, t1 ++ t2)
    | (Throw error, s1, t1) => (Throw error, s1, t1)
    end.

Definition throw {A} (error : Exn) : M A := fun s => (Throw error, s, []).

(** [try { m } catch (error) { h error }] *)
Definition try_catch {A} (m : M A) (h : Exn -> M A) : M A :=
  fun s =>
    match m s with
    | (Ok a, s1, t1) => (Ok a, s1, t1)
    | (Throw error, s1, t1) => let '(r, s2, t2) := h error s1 in (r, s2, t1 ++ t2)
    end.

(** [try { m } finally { f }] for a block [f] that does not throw or return. *)
Definition try_finally {A} (m : M A) (f : State -> State) : M A :=
  fun s => let '(r, s1, t1) := m s in (r, f s1, t1).

Definition gets {A} (f : State -> A) : M A := fun s => (Ok (f s), s, []).
Definition modify (f : State -> State) : M unit := fun s => (Ok tt, f s, []).
Definition lift {A} (r : Result A) : M A := fun s => (r, s, []).

Declare Scope js_scope.
Delimit Scope js_scope with js.
Notation "x <- m ;; k" := (bind m (fun x => k))
  (at level 100, m at next level, right associativity) : js_scope.
Notation "m ;; k" := (bind m (fun _ => k))
  (at level 100, right associativity) : js_scope.
Open Scope js_scope.

(** State updates. *)
Definition set_running (b : bool) (s : State) : State :=
  {| maxBackups := maxBackups s; isBackupRunning := b; heap := heap s;
     backupHistory := backupHistory s; fs := fs s; logs := logs s |}.
Definition set_heap (h : list BackupMetadata.t) (s : State) : State :=
  {| maxBackups := maxBackups s; isBackupRunning := isBackupRunning s; heap := h;
     backupHistory := backupHistory s; fs := fs s; logs := logs s |}.
Definition set_history (l : list nat) (s : State) : State :=
  {| maxBackups := maxBackups s; isBackupRunning := isBackupRunning s; heap := heap s;
     backupHistory := l; fs := fs s; logs := logs s |}.
Definition set_fs (f : gmap Path Node) (s : State) : State :=
  {| maxBackups := maxBackups s; isBackupRunning := isBackupRunning s; heap := heap s;
     backupHistory := backupHistory s; fs := f; logs := logs s |}.
Definition add_log (l : LogEntry) (s : State) : State :=
  {| maxBackups := maxBackups s; isBackupRunning := isBackupRunning s; heap := heap s;
     backupHistory := backupHistory s; fs := fs s; logs := logs s ++ [l] |}.

(** [logger.info], [logger.warn], [logger.error] *)
Definition log (l : LogEntry) : M unit := modify (add_log l).

(** [const metadata = { ... }]: a new object. *)
Definition alloc (m : BackupMetadata.t) : M nat :=
  fun s => (Ok (List.length (heap s)), set_heap (heap s ++ [m]) s, []).

(** Assignments to fields of the object [r]. *)
Definition update (r : nat) (f : BackupMetadata.t -> BackupMetadata.t) : M unit :=
  modify (fun s => set_heap (<[r := f (deref (heap s) r)]> (heap s)) s).

(** [this.backupHistory.push(metadata)] *)
Definition push (r : nat) : M unit :=
  modify (fun s => set_history (backupHistory s ++ [r]) s).

(** An awaited operation: it rejects when the oracle says so, otherwise
    acts on the state; the caller is suspended once. *)
Definition await {A} (e : Env) (op : FsOp) (act : State -> Result A * State) : M A :=
  fun s =>
    match io_fail e op with
    | Some error => (Throw error, s, [s])
    | None => let '(r, s1) := act s in (r, s1, [s1])
    end.

(* ================================================================= *)
(** ** The file system *)

Definition ENOENT : Exn := JsError "ENOENT: no such file or directory".
Definition EISDIR : Exn := JsError "EISDIR: illegal operation on a directory".
Definition ENOTDIR : Exn := JsError "ENOTDIR: not a directory".

Definition show_path (p : Path) : string := String.concat "/" p.

Definition add_dir (q : Path) (f : gmap Path Node) : gmap Path Node :=
  match f !! q with
  | None => <[q := Dir]> f
  | Some _ => f
  end.

(** [mkdir(base/p, { recursive: true })]: every missing directory on the
    way is created. *)
Fixpoint mkdir_p (base p : Path) (f : gmap Path Node) : gmap Path Node :=
  match p with
  | [] => f
  | seg :: rest => mkdir_p (base ++ [seg]) rest (add_dir (base ++ [seg]) f)
  end.

(** [rm(p, { recursive: true })]: [p] and everything below it. *)
Definition rm_rf (p : Path) (f : gmap Path Node) : gmap Path Node :=
  filter (fun kv => ¬ p `prefix_of` kv.1) f.

(** The files below [source], with their paths relative to it. *)
Definition archive_entries (source : Path) (f : gmap Path Node)
  : list (Path * Content) :=
  omap (fun kv => match kv.2 with
                  | File c =>
                      if decide (source `prefix_of` kv.1)
                      then Some (drop (List.length source) kv.1, c)
                      else None
                  | Dir => None
                  end)
       (map_to_list f).

(** The names in directory [p]. *)
Definition children (p : Path) (f : gmap Path Node) : list string :=
  omap (fun kv => if decide (p `prefix_of` kv.1)
                  then match drop (List.length p) kv.1 with
                       | [name] => Some name
                       | _ => None
                       end
                  else None)
       (map_to_list f).

Definition mkdir (e : Env) (p : Path) : M unit :=
  await e (OpMkdir p) (fun s => (Ok tt, set_fs (mkdir_p [] p (fs s)) s)).

Definition access (e : Env) (p : Path) : M unit :=
  await e (OpAccess p)
    (fun s => match fs s !! p with
              | Some _ => (Ok tt, s)
              | None => (Throw ENOENT, s)
              end).

Definition readFile (e : Env) (p : Path) : M Content :=
  await e (OpReadFile p)
    (fun s => match fs s !! p with
              | Some (File c) => (Ok c, s)
              | Some Dir => (Throw EISDIR, s)
              | None => (Throw ENOENT, s)
              end).

Definition writeFile (e : Env) (p : Path) (c : Content) : M unit :=
  await e (OpWriteFile p) (fun s => (Ok tt, set_fs (<[p := File c]> (fs s)) s)).

(** [rm(p, { recursive: true, force })]: without [force] a missing path
    is an error. *)
Definition rm (e : Env) (p : Path) (force : bool) : M unit :=
  await e (OpRm p)
    (fun s => match fs s !! p with
              | None => if force then (Ok tt, set_fs (rm_rf p (fs s)) s)
                        else (Throw ENOENT, s)
              | Some _ => (Ok tt, set_fs (rm_rf p (fs s)) s)
              end).

Definition readdir (e : Env) (p : Path) : M (list string) :=
  await e (OpReaddir p)
    (fun s => match fs s !! p with
              | Some Dir => (Ok (children p (fs s)), s)
              | Some (File _) => (Throw ENOTDIR, s)
              | None => (Throw ENOENT, s)
              end).

(** [stat(p)], of which the code reads [size]. *)
Definition stat (e : Env) (p : Path) : M Z :=
  await e (OpStat p)
    (fun s => match fs s !! p with
              | Some n => (Ok (fileSize e n), s)
              | None => (Throw ENOENT, s)
              end).

Definition copyFile (e : Env) (src dest : Path) (c : Content) : M unit :=
  await e (OpCopyFile src dest)
    (fun s => (Ok tt, set_fs (<[dest := File c]> (fs s)) s)).

(** [fs.access] and [fs.readdir] on a tree outside the backup root;
    [copyDirectory] takes the entries from the tree once [readdir]
    has succeeded. *)
Definition access_tree (e : Env) (p : Path) (t : option DirTree) : M DirTree :=
  await e (OpAccess p)
    (fun s => match t with
              | Some tree => (Ok tree, s)
              | None => (Throw ENOENT, s)
              end).

Definition readdir_tree (e : Env) (p : Path) (t : DirTree) : M unit :=
  await e (OpReaddir p)
    (fun s => match t with
              | TDir _ => (Ok tt, s)
              | TFile _ => (Throw ENOTDIR, s)
              end).

(** [JSON.stringify(collection.data, null, 2)]: synchronous. *)
Definition stringify (e : Env) (name : string) (data : list JsRecord) : M Content :=
  fun s =>
    match io_fail e (OpStringify name) with
    | Some error => (Throw error, s, [])
    | None => (Ok (CRecords data), s, [])
    end.

(** [for (const x of l) { body x }] *)
Fixpoint for_each {A} (l : list A) (body : A -> M unit) : M unit :=
  match l with
  | [] => ret tt
  | x :: l' => body x ;; for_each l' body
  end.

(* ================================================================= *)
(** ** HistoryStore *)

(** What [JSON.stringify] writes for a record: the [Date] becomes its
    ISO string. *)
Definition toJSON (m : BackupMetadata.t) : BackupMetadata.t :=
  {| BackupMetadata.id := BackupMetadata.id m;
     BackupMetadata.timestamp :=
       match BackupMetadata.timestamp m with
       | DateObj ms => IsoString ms
       | IsoString ms => IsoString ms
       end;
     BackupMetadata.type := BackupMetadata.type m;
     BackupMetadata.size := BackupMetadata.size m;
     BackupMetadata.path := BackupMetadata.path m;
     BackupMetadata.checksum := BackupMetadata.checksum m;
     BackupMetadata.collections := BackupMetadata.collections m;
     BackupMetadata.status := BackupMetadata.status m;
     BackupMetadata.error := BackupMetadata.error m |}.

Definition saveBackupHistory (e : Env) : M unit :=
  try_catch
    (history <- gets records ;;
     writeFile e historyPath (CHistory (map toJSON history)))
    (fun error => log (LogError "Failed to save backup history:" error)).

(** [JSON.parse(historyData)]: the parsed records are new objects. *)
Definition parse_history (c : Content) : M (list nat) :=
  fun s =>
    match c with
    | CHistory l =>
        (Ok (seq (List.length (heap s)) (List.length l)), set_heap (heap s ++ l) s, [])
    | _ => (Throw (JsError "Unexpected token in JSON"), s, [])
    end.

Definition loadBackupHistory (e : Env) : M unit :=
  try_catch
    (historyData <- readFile e historyPath ;;
     parsed <- parse_history historyData ;;
     modify (set_history parsed))
    (fun _ => modify (set_history [])).

Definition initializeBackupDirectory (e : Env) : M unit :=
  try_catch
    (mkdir e backupDir ;;
     mkdir e (backupDir ++ ["database"]) ;;
     mkdir e (backupDir ++ ["files"]) ;;
     mkdir e (backupDir ++ ["exports"]) ;;
     log (LogInfo "Backup directories initialized"))
    (fun error =>
       log (LogError "Failed to initialize backup directories:" error) ;;
       throw error).

(* ================================================================= *)
(** ** SnapshotWriters *)

(** The body of the loop of [exportCollectionsAsJSON]. *)
Definition exportCollection (e : Env) (backupPath : Path)
    (collection : string * list JsRecord) : M unit :=
  try_catch
    (let filePath := backupPath ++ [collection.1 +:+ ".json"] in
     text <- stringify e collection.1 collection.2 ;;
     writeFile e filePath text ;;
     log (LogInfo ("Exported " +:+ collection.1 +:+ ": "
                   +:+ pretty (List.length collection.2) +:+ " documents")))
    (fun error =>
       log (LogError ("Failed to export " +:+ collection.1 +:+ ":") error)).

(** The collections that a backup snapshots. *)
Definition collectionsOf (e : Env) : list (string * list JsRecord) :=
  [ ("products", products e);
    ("sales", sales e);
    ("users", users e);
    ("suppliers", suppliers e);
    ("purchaseorders", purchaseOrders e) ].

Definition exportCollectionsAsJSON (e : Env) (backupPath : Path) : M unit :=
  let collections := collectionsOf e in
  for_each collections (exportCollection e backupPath).

Definition backupDatabase (e : Env) (backupPath : Path) : M unit :=
  try_catch
    (let dbBackupPath := backupPath ++ ["database"] in
     mkdir e dbBackupPath ;;
     exportCollectionsAsJSON e dbBackupPath ;;
     log (LogInfo "Database export as JSON completed"))
    (fun error => log (LogError "Database backup failed:" error) ;; throw error).

Fixpoint copyDirectory (e : Env) (t : DirTree) (src dest : Path) : M unit :=
  mkdir e dest ;;
  readdir_tree e src t ;;
  match t with
  | TFile _ => ret tt
  | TDir entries =>
      (fix loop (rest : list (string * DirTree)) : M unit :=
         match rest with
         | [] => ret tt
         | (name, entry) :: rest' =>
             let srcPath := src ++ [name] in
             let destPath := dest ++ [name] in
             match entry with
             | TDir _ => copyDirectory e entry srcPath destPath
             | TFile c => copyFile e srcPath destPath c
             end ;;
             loop rest'
         end) entries
  end.

Definition backupFiles (e : Env) (backupPath : Path) : M unit :=
  try_catch
    (let filesBackupPath := backupPath ++ ["files"] in
     mkdir e filesBackupPath ;;
     let uploadsPath := ["public"; "uploads"] in
     try_catch
       (tree <- access_tree e uploadsPath (uploads e) ;;
        copyDirectory e tree uploadsPath (filesBackupPath ++ ["uploads"]) ;;
        log (LogInfo "Files backup completed"))
       (fun _ => log (LogWarn "Uploads directory not found, skipping files backup")))
    (fun error => log (LogError "Files backup failed:" error) ;; throw error).

Definition backupLogs (e : Env) (backupPath : Path) : M unit :=
  try_catch
    (let logsBackupPath := backupPath ++ ["logs"] in
     mkdir e logsBackupPath ;;
     let logsPath := ["logs"] in
     try_catch
       (tree <- access_tree e logsPath (logFiles e) ;;
        copyDirectory e tree logsPath logsBackupPath ;;
        log (LogInfo "Logs backup completed"))
       (fun _ => log (LogWarn "Logs directory not found, skipping logs backup")))
    (fun error => log (LogError "Logs backup failed:" error) ;; throw error).

(* ================================================================= *)
(** ** ArchiveBuilder and ChecksumCalculator *)

(** The promise is rejected by an error of the archiver only
    ([archive.on('error', reject)]) and is resolved when the output
    stream closes.  The output stream has no [error] listener: when it
    cannot be written ([OpWriteStream]) it closes all the same, so the
    promise is resolved with [archivePath] although no archive is there.
    When both fail, the error of the archiver is taken to come first. *)
Definition createArchive (e : Env) (sourcePath : Path) (archiveName : string)
  : M Path :=
  let archivePath := backupDir ++ [archiveName] in
  await e (OpArchive sourcePath)
    (fun s =>
       let created bytes :=
         LogInfo ("Archive created: " +:+ show_path archivePath +:+ " ("
                  +:+ pretty bytes +:+ " bytes)") in
       match io_fail e (OpWriteStream archivePath) with
       | None =>
           let archive := File (CArchive (archive_entries sourcePath (fs s))) in
           (Ok archivePath,
            add_log (created (fileSize e archive))
                    (set_fs (<[archivePath := archive]> (fs s)) s))
       | Some _ => (Ok archivePath, add_log (created (pointer e)) s)
       end).

(** Reading a directory as a stream fails. *)
Definition calculateChecksum (e : Env) (filePath : Path) : M string :=
  await e (OpChecksum filePath)
    (fun s => match fs s !! filePath with
              | Some (File c) => (Ok (sha256 e c), s)
              | Some Dir => (Throw EISDIR, s)
              | None => (Throw ENOENT, s)
              end).

(* ================================================================= *)
(** ** BackupOrchestrator *)

(** [x !== false] and truthiness of an optional flag. *)
Definition not_false (o : option bool) : bool :=
  match o with
  | Some false => false
  | _ => true
  end.
Definition truthy (o : option bool) : bool :=
  match o with
  | Some true => true
  | _ => false
  end.

Definition when (b : bool) (m : M unit) : M unit := if b then m else ret tt.

(** The steps of the [try] block up to the checksum: the staging
    directory, the snapshots, the archive, size and checksum.  It yields
    [finalPath], [stats.size] and [checksum]. *)
Definition produceArtifact (e : Env) (options : BackupOptions.t) (backupId : string)
  : M (Path * Z * string) :=
  log (LogInfo ("Starting full backup: " +:+ backupId)) ;;
  let backupPath := backupDir ++ [backupId] in
  mkdir e backupPath ;;
  when (not_false (BackupOptions.includeDatabase options))
       (backupDatabase e backupPath) ;;
  when (not_false (BackupOptions.includeUploads options))
       (backupFiles e backupPath) ;;
  when (truthy (BackupOptions.includeLogs options))
       (backupLogs e backupPath) ;;
  finalPath <-
    (if not_false (BackupOptions.compression options)
     then (archivePath <- createArchive e backupPath (backupId +:+ ".tar.gz") ;;
           rm e backupPath false ;;
           ret archivePath)
     else ret backupPath) ;;
  size <- stat e finalPath ;;
  checksum <- calculateChecksum e finalPath ;;
  ret (finalPath, size, checksum).

(** The assignments that follow the checksum. *)
Definition complete (finalPath : Path) (size : Z) (checksum : string)
    (m : BackupMetadata.t) : BackupMetadata.t :=
  {| BackupMetadata.id := BackupMetadata.id m;
     BackupMetadata.timestamp := BackupMetadata.timestamp m;
     BackupMetadata.type := BackupMetadata.type m;
     BackupMetadata.size := size;
     BackupMetadata.path := finalPath;
     BackupMetadata.checksum := checksum;
     BackupMetadata.collections := BackupMetadata.collections m;
     BackupMetadata.status := Completed;
     BackupMetadata.error := BackupMetadata.error m |}.

(** The assignments of the [catch] block. *)
Definition fail (error : Exn) (m : BackupMetadata.t) : BackupMetadata.t :=
  {| BackupMetadata.id := BackupMetadata.id m;
     BackupMetadata.timestamp := BackupMetadata.timestamp m;
     BackupMetadata.type := BackupMetadata.type m;
     BackupMetadata.size := BackupMetadata.size m;
     BackupMetadata.path := BackupMetadata.path m;
     BackupMetadata.checksum := BackupMetadata.checksum m;
     BackupMetadata.collections := BackupMetadata.collections m;
     BackupMetadata.status := Failed;
     BackupMetadata.error := Some (exn_message error) |}.

Definition backupInProgress : Exn := JsError "Backup is already in progress".

Definition createFullBackup (e : Env) (options : BackupOptions.t) : M nat :=
  running <- gets isBackupRunning ;;
  if running : bool then throw backupInProgress
  else
    modify (set_running true) ;;
    let backupId := "backup_" +:+ pretty (dateNow e) in
    let timestamp := DateObj (newDate e) in
    metadata <- alloc {| BackupMetadata.id := backupId;
                         BackupMetadata.timestamp := timestamp;
                         BackupMetadata.type := Full;
                         BackupMetadata.size := 0;
                         BackupMetadata.path := [];
                         BackupMetadata.checksum := "";
                         BackupMetadata.collections := None;
                         BackupMetadata.status := Pending;
                         BackupMetadata.error := None |} ;;
    try_finally
      (try_catch
         (artifact <- produceArtifact e options backupId ;;
          update metadata (complete artifact.1.1 artifact.1.2 artifact.2) ;;
          push metadata ;;
          saveBackupHistory e ;;
          log (LogInfo ("Full backup completed: " +:+ backupId)) ;;
          ret metadata)
         (fun error =>
            update metadata (fail error) ;;
            push metadata ;;
            saveBackupHistory e ;;
            log (LogError ("Full backup failed: " +:+ backupId) error) ;;
            throw error))
      (set_running false).

(* ================================================================= *)
(** ** ExportEngine *)

(** [exportToCSV]: both branches write [csvContent data]. *)
Definition exportToCSV (e : Env) (data : list JsRecord) (filePath : Path) : M unit :=
  writeFile e filePath (CText (csvContent data)).

Definition exportData (e : Env) (options : ExportOptions) : M Path :=
  try_catch
    (log (LogInfo ("Starting data export: " +:+ collection options)) ;;
     let exportId :=
       "export_" +:+ collection options +:+ "_" +:+ pretty (dateNow e) in
     let exportPath := backupDir ++ ["exports"; exportId] in
     mkdir e exportPath ;;
     selected <-
       (if String.eqb (collection options) "products"
        then ret (getProductsData (products e) options, "products")
        else if String.eqb (collection options) "sales"
        then ret (getSalesData (dateOf e) (sales e) options, "sales")
        else if String.eqb (collection options) "inventory"
        then ret (getInventoryData (products e) options, "inventory")
        else throw (JsError ("Unsupported collection: " +:+ collection options))) ;;
     let data : list JsRecord := selected.1 in
     let fileName : string := selected.2 in
     filePath <-
       (if String.eqb (format options) "json"
        then (let filePath := exportPath ++ [fileName +:+ ".json"] in
              writeFile e filePath (CRecords data) ;;
              ret filePath)
        else if String.eqb (format options) "csv"
        then (let filePath := exportPath ++ [fileName +:+ ".csv"] in
              exportToCSV e data filePath ;;
              ret filePath)
        else throw (JsError ("Unsupported format: " +:+ format options))) ;;
     log (LogInfo ("Data export completed: " +:+ show_path filePath)) ;;
     ret filePath)
    (fun error => log (LogError "Data export failed:" error) ;; throw error).

(* ================================================================= *)
(** ** Sorting and retention *)

Definition rbind {A B} (r : Result A) (f : A -> Result B) : Result B :=
  match r with
  | Ok a => f a
  | Throw error => Throw error
  end.

(** [Array.prototype.sort(cmp)]: a stable sort; [cmp] can throw.  An
    element goes before the first sorted element that does not have to
    precede it. *)
Fixpoint sort_insert {A} (cmp : A -> A -> Result Z) (x : A) (l : list A)
  : Result (list A) :=
  match l with
  | [] => Ok [x]
  | y :: l' =>
      rbind (cmp x y) (fun c =>
        if (c <=? 0)%Z then Ok (x :: y :: l')
        else rbind (sort_insert cmp x l') (fun r => Ok (y :: r)))
  end.

Fixpoint array_sort {A} (cmp : A -> A -> Result Z) (l : list A) : Result (list A) :=
  match l with
  | [] => Ok []
  | x :: l' => rbind (array_sort cmp l') (sort_insert cmp x)
  end.

(** [timestamp.getTime()]: a string has no such method. *)
Definition getTime (t : Timestamp) : Result Z :=
  match t with
  | DateObj ms => Ok ms
  | IsoString _ => Throw (JsError "timestamp.getTime is not a function")
  end.

(** [(a, b) => a.timestamp.getTime() - b.timestamp.getTime()] *)
Definition oldest_first (h : list BackupMetadata.t) (a b : nat) : Result Z :=
  rbind (getTime (BackupMetadata.timestamp (deref h a))) (fun ta =>
  rbind (getTime (BackupMetadata.timestamp (deref h b))) (fun tb =>
  Ok (ta - tb))).

(** [(a, b) => b.timestamp.getTime() - a.timestamp.getTime()] *)
Definition newest_first (h : list BackupMetadata.t) (a b : nat) : Result Z :=
  rbind (getTime (BackupMetadata.timestamp (deref h b))) (fun tb =>
  rbind (getTime (BackupMetadata.timestamp (deref h a))) (fun ta =>
  Ok (tb - ta))).

#[global] Instance Status_eq_dec : EqDecision Status.
Proof. solve_decision. Defined.

Definition completed (h : list BackupMetadata.t) (b : nat) : Prop :=
  BackupMetadata.status (deref h b) = Completed.

#[global] Instance completed_dec h b : Decision (completed h b).
Proof. unfold completed. apply _. Defined.

(** The body of the loop of [cleanupOldBackups]. *)
Definition deleteBackup (e : Env) (backup : nat) : M unit :=
  try_catch
    (b <- gets (fun s => deref (heap s) backup) ;;
     rm e (BackupMetadata.path b) true ;;
     modify (fun s =>
               set_history
                 (filter (fun r => BackupMetadata.id (deref (heap s) r)
                                   ≠ BackupMetadata.id b)
                         (backupHistory s)) s) ;;
     log (LogInfo ("Deleted old backup: " +:+ BackupMetadata.id b)))
    (fun error =>
       b <- gets (fun s => deref (heap s) backup) ;;
       log (LogError ("Failed to delete backup " +:+ BackupMetadata.id b +:+ ":") error)).

Definition cleanupOldBackups (e : Env) : M unit :=
  try_catch
    (log (LogInfo "Starting backup cleanup") ;;
     h <- gets heap ;;
     history <- gets backupHistory ;;
     sortedBackups <- lift (array_sort (oldest_first h) (filter (completed h) history)) ;;
     max <- gets maxBackups ;;
     if (List.length sortedBackups <=? max)%nat
     then log (LogInfo "No backups to cleanup")
     else
       let backupsToDelete :=
         take (List.length sortedBackups - max) sortedBackups in
       for_each backupsToDelete (deleteBackup e) ;;
       saveBackupHistory e ;;
       log (LogInfo ("Cleanup completed: "
                     +:+ pretty (List.length backupsToDelete) +:+ " backups removed")))
    (fun error => log (LogError "Backup cleanup failed:" error)).

(** [getBackupHistory]: a sorted copy of the array of references. *)
Definition getBackupHistory (s : State) : Result (list nat) :=
  array_sort (newest_first (heap s)) (backupHistory s).

Definition getBackupStatus (s : State) : Result (bool * option nat) :=
  rbind (array_sort (newest_first (heap s))
                    (filter (completed (heap s)) (backupHistory s)))
        (fun sorted => Ok (isBackupRunning s, head sorted)).

(** [new BackupService()].  The constructor starts the two asynchronous
    initialisations without awaiting them (a rejection is not handled
    there); they are run here one after the other. *)
Definition newService (f : gmap Path Node) : State :=
  {| maxBackups := 30; isBackupRunning := false; heap := [];
     backupHistory := []; fs := f; logs := [] |}.

Definition startService (e : Env) : M unit :=
  try_catch (initializeBackupDirectory e) (fun _ => ret tt) ;;
  loadBackupHistory e ;;
  log (LogInfo "Backup schedules initialized").

(* ================================================================= *)
(** ** DownloadResolver: [router.get('/download/:filename')] *)

Inductive Response :=
| JsonResponse (status : nat) (success : bool) (message : string)
| FileResponse (contentType : string) (contentLength : Z) (filePath : Path).

(** The suffix that starts at the last dot, if there is a dot. *)
Fixpoint last_dot_suffix (s : string) : option string :=
  match s with
  | EmptyString => None
  | String c s' =>
      match last_dot_suffix s' with
      | Some r => Some r
      | None => if Ascii.eqb c "."%char then Some (String c s') else None
      end
  end.

(** [path.extname] of a name without separators: a leading dot does not
    start an extension. *)
Definition extname (filename : string) : string :=
  match filename with
  | EmptyString => ""
  | String _ rest => default "" (last_dot_suffix rest)
  end.

Definition lower (c : ascii) : ascii :=
  let n := nat_of_ascii c in
  if ((65 <=? n) && (n <=? 90))%nat then ascii_of_nat (n + 32) else c.

Fixpoint toLowerCase (s : string) : string :=
  match s with
  | EmptyString => EmptyString
  | String c s' => String (lower c) (toLowerCase s')
  end.

Definition contentTypeOf (ext : string) : string :=
  if String.eqb ext ".json" then "application/json"
  else if String.eqb ext ".csv" then "text/csv"
  else if String.eqb ext ".gz" then "application/gzip"
  else "application/octet-stream".

(** The loop over [exportDirs]. *)
Fixpoint searchExports (e : Env) (filename : string) (exportDirs : list string)
  : M (option Path) :=
  match exportDirs with
  | [] => ret None
  | dir :: rest =>
      let exportFilePath := ["backups"; "exports"; dir; filename] in
      found <- try_catch (access e exportFilePath ;; ret true) (fun _ => ret false) ;;
      if found : bool then ret (Some exportFilePath)
      else searchExports e filename rest
  end.

(** Lines 114-152: the security check and the search. *)
Definition resolveDownload (e : Env) (filename : string) : M (Response + Path) :=
  if includes ".." filename || includes "/" filename || includes backslash filename
  then ret (inl (JsonResponse 400 false "Invalid filename"))
  else
    let filePath := ["backups"; filename] in
    try_catch
      (access e filePath ;; ret (inr filePath))
      (fun _ =>
         exportDirs <- readdir e ["backups"; "exports"] ;;
         found <- searchExports e filename exportDirs ;;
         match found with
         | Some exportFilePath => ret (inr exportFilePath)
         | None => ret (inl (JsonResponse 404 false "File not found"))
         end).

Definition download (e : Env) (filename : string) : M Response :=
  try_catch
    (resolved <- resolveDownload e filename ;;
     match resolved with
     | inl response => ret response
     | inr filePath =>
         size <- stat e filePath ;;
         let ext := toLowerCase (extname filename) in
         ret (FileResponse (contentTypeOf ext) size filePath)
     end)
    (fun error =>
       log (LogError "Failed to download file:" error) ;;
       ret (JsonResponse 500 false "Failed to download file")).

(* ================================================================= *)
(** ** The routes of [backupRoutes.ts] *)

(** What a handler sends as [data].  [res.json] serialises the records
    when the response is written. *)
Inductive Payload :=
| StatusData (isRunning : bool) (lastBackup : option BackupMetadata.t)
| HistoryData (history : list BackupMetadata.t)
| BackupData (backup : BackupMetadata.t)
| ExportedData (filePath : Path) (downloadUrl : string).

(** [res.json({ success: true, message, data })] and
    [res.status(status).json({ success: false, message })]. *)
Inductive Reply :=
| Success (message : option string) (data : option Payload)
| Failure (status : nat) (message : string).

(** A synchronous call of a method of the service. *)
Definition call {A} (f : State -> Result A) : M A := fun s => (f s, s, []).

(** [error instanceof Error ? error.message : fallback] *)
Definition message_or (fallback : string) (error : Exn) : string :=
  match error with
  | JsError message => message
  | JsThrown _ => fallback
  end.

(** [router.get('/status')] *)
Definition statusRoute : M Reply :=
  try_catch
    (status <- call getBackupStatus ;;
     h <- gets heap ;;
     ret (Success None
            (Some (StatusData status.1
                     (option_map (fun r => toJSON (deref h r)) status.2)))))
    (fun error =>
       log (LogError "Failed to get backup status:" error) ;;
       ret (Failure 500 "Failed to get backup status")).

(** [router.get('/history')] *)
Definition historyRoute : M Reply :=
  try_catch
    (history <- call getBackupHistory ;;
     h <- gets heap ;;
     ret (Success None
            (Some (HistoryData (map (fun r => toJSON (deref h r)) history)))))
    (fun error =>
       log (LogError "Failed to get backup history:" error) ;;
       ret (Failure 500 "Failed to get backup history")).

(** [v !== false] and the truthiness of a value of the request body. *)
Definition is_not_false (v : JsValue) : bool :=
  match v with
  | VBool false => false
  | _ => true
  end.

Definition js_truthy (v : JsValue) : bool :=
  match v with
  | VUndefined | VNull | VBool false | VNum 0 | VStr EmptyString => false
  | _ => true
  end.

(** The [options] that [router.post('/create')] builds from [req.body]. *)
Definition createOptions (body : JsRecord) : BackupOptions.t :=
  {| BackupOptions.includeUploads := Some (is_not_false (obj_get "includeUploads" body));
     BackupOptions.includeDatabase := Some (is_not_false (obj_get "includeDatabase" body));
     BackupOptions.includeLogs := Some (js_truthy (obj_get "includeLogs" body));
     BackupOptions.format := None;
     BackupOptions.compression := Some (is_not_false (obj_get "compression" body)) |}.

(** [router.post('/create')] *)
Definition createRoute (e : Env) (body : JsRecord) : M Reply :=
  try_catch
    (let options := createOptions body in
     backup <- createFullBackup e options ;;
     h <- gets heap ;;
     ret (Success (Some "Backup created successfully")
            (Some (BackupData (toJSON (deref h backup))))))
    (fun error =>
       log (LogError "Failed to create backup:" error) ;;
       ret (Failure 500 (message_or "Failed to create backup" error))).

(** The body of an export request whose fields, when present, have the
    types of [ExportOptions]; [dateRange] holds the two values that the
    handler passes to [new Date]. *)
Record ExportRequest := {
  req_collection : option string;
  req_format : option string;
  req_dateRange : option (JsValue * JsValue);
  req_filters : option JsRecord;
  req_fields : option (list string)
}.

(** [!x] for an optional string: absent or empty. *)
Definition missing (x : option string) : bool :=
  match x with
  | None | Some EmptyString => true
  | Some _ => false
  end.

(** [path.basename] of a path given by its segments. *)
Definition basename (p : Path) : string := default "" (last p).

(** The [options] that [router.post('/export')] builds from [req.body]. *)
Definition exportOptionsOf (e : Env) (body : ExportRequest) : ExportOptions :=
  {| collection := default "" (req_collection body);
     format := default "" (req_format body);
     dateRange := option_map (fun range => (dateOf e range.1, dateOf e range.2))
                             (req_dateRange body);
     filters := req_filters body;
     fields := req_fields body |}.

(** [router.post('/export')] *)
Definition exportRoute (e : Env) (body : ExportRequest) : M Reply :=
  try_catch
    (if missing (req_collection body) || missing (req_format body)
     then ret (Failure 400 "Collection and format are required")
     else
       let options := exportOptionsOf e body in
       filePath <- exportData e options ;;
       ret (Success (Some "Data exported successfully")
              (Some (ExportedData filePath
                       ("/api/backup/download/" +:+ basename filePath)))))
    (fun error =>
       log (LogError "Failed to export data:" error) ;;
       ret (Failure 500 (message_or "Failed to export data" error))).

(** [router.post('/cleanup')] *)
Definition cleanupRoute (e : Env) : M Reply :=
  try_catch
    (cleanupOldBackups e ;;
     ret (Success (Some "Backup cleanup completed successfully") None))
    (fun error =>
       log (LogError "Failed to cleanup backups:" error) ;;
       ret (Failure 500 "Failed to cleanup backups")).

(** The [name]s that [router.get('/collections')] offers and the [value]s
    that [router.get('/formats')] offers. *)
Definition offeredCollections : list string := ["products"; "sales"; "inventory"].
Definition offeredFormats : list string := ["json"; "csv"].

(* ################################################################# *)
(** * Vocabulary of the specification, and sample data *)

(* ================================================================= *)
(** ** Results, frames and regions *)

(** Result and final state of a computation. *)
Definition res {A} (m : M A) (s : State) : Result A := (m s).1.1.
Definition post {A} (m : M A) (s : State) : State := (m s).1.2.

Definition run_ok {A} (m : M A) (s : State) (a : A) (s' : State) : Prop :=
  res m s = Ok a /\ post m s = s'.

(** [respects R m]: the final state and every suspension state of [m]
    are related by [R] to the state [m] starts from. *)
Definition respects (R : State -> State -> Prop) {A} (m : M A) : Prop :=
  forall s, R s (m s).1.2 /\ Forall (R s) (m s).2.

(** The service object is untouched. *)
Definition mem_eq (s s' : State) : Prop :=
  maxBackups s' = maxBackups s /\
  isBackupRunning s' = isBackupRunning s /\
  heap s' = heap s /\
  backupHistory s' = backupHistory s.

(** Outside the region [W] a path is unchanged or is a directory that was
    missing before. *)
Definition fs_grow (W : Path -> Prop) (f f' : gmap Path Node) : Prop :=
  forall p, f' !! p = f !! p \/ (f !! p = None /\ f' !! p = Some Dir) \/ W p.

Definition fs_step (W : Path -> Prop) (s s' : State) : Prop :=
  mem_eq s s' /\ fs_grow W (fs s) (fs s') /\ logs s `prefix_of` logs s'.

Definition below (D : Path) : Path -> Prop := fun p => D `prefix_of` p.

(** A run writes below its staging directory and to its archive. *)
Definition run_region (backupId : string) : Path -> Prop :=
  fun p => below (backupDir ++ [backupId]) p \/
           p = backupDir ++ [backupId +:+ ".tar.gz"].

(** The files that the loop over [l] can write. *)
Definition snapshot_files (backupPath : Path) (l : list (string * list JsRecord))
  : Path -> Prop :=
  fun p => exists c, c ∈ l /\ p = backupPath ++ [c.1 +:+ ".json"].

(* ================================================================= *)
(** ** A backup run *)

(** The object that a run creates, and the state once the guard is taken. *)
Definition backupIdOf (e : Env) : string := "backup_" +:+ pretty (dateNow e).

Definition pendingRecord (e : Env) : BackupMetadata.t :=
  {| BackupMetadata.id := backupIdOf e;
     BackupMetadata.timestamp := DateObj (newDate e);
     BackupMetadata.type := Full;
     BackupMetadata.size := 0;
     BackupMetadata.path := [];
     BackupMetadata.checksum := "";
     BackupMetadata.collections := None;
     BackupMetadata.status := Pending;
     BackupMetadata.error := None |}.

Definition acquired (e : Env) (s : State) : State :=
  set_heap (heap s ++ [pendingRecord e]) (set_running true s).

(** The state after the assignments to [metadata] and the [push]. *)
Definition recorded (ref : nat) (f : BackupMetadata.t -> BackupMetadata.t)
    (s : State) : State :=
  set_history (backupHistory s ++ [ref])
              (set_heap (<[ref := f (deref (heap s) ref)]> (heap s)) s).

(** Staging directory, archive and snapshot files of a run. *)
Definition stagingOf (e : Env) : Path := backupDir ++ [backupIdOf e].
Definition archiveOf (e : Env) : Path := backupDir ++ [backupIdOf e +:+ ".tar.gz"].
Definition snapshotOf (e : Env) (name : string) : Path :=
  (stagingOf e ++ ["database"]) ++ [name +:+ ".json"].

(** Nothing fails but the serialisation or the write of snapshot files. *)
Definition only_snapshots_fail (e : Env) : Prop :=
  forall op error, io_fail e op = Some error ->
    exists name, op = OpStringify name \/ op = OpWriteFile (snapshotOf e name).

(* ================================================================= *)
(** ** Terminal records and observable states *)

Definition terminal (m : BackupMetadata.t) : Prop :=
  BackupMetadata.status m <> Pending.

(** Every reference of the history points to a terminal record. *)
Definition history_ok (s : State) : Prop :=
  forall r, r ∈ backupHistory s ->
    exists m, heap s !! r = Some m /\ terminal m.

(** The history document on disk holds terminal records only. *)
Definition doc_ok (f : gmap Path Node) : Prop :=
  forall l, f !! historyPath = Some (File (CHistory l)) -> Forall terminal l.

Definition Inv (s : State) : Prop := history_ok s /\ doc_ok (fs s).

Definition keeps (s s' : State) : Prop := Inv s -> Inv s'.

(** The calls that reach the service, one after the other; [Start] is a
    new process on the same disk. *)
Inductive Action :=
| Start
| Backup (options : BackupOptions.t)
| Cleanup
| ExportData (options : ExportOptions)
| Download (filename : string)
| ListHistory.

Definition outcome {A} (x : Result A * State * list State) : State * list State :=
  (x.1.2, x.2).

Definition run (e : Env) (a : Action) (s : State) : State * list State :=
  match a with
  | Start => outcome (startService e (newService (fs s)))
  | Backup options => outcome (createFullBackup e options s)
  | Cleanup => outcome (cleanupOldBackups e s)
  | ExportData options => outcome (exportData e options s)
  | Download filename => outcome (download e filename s)
  | ListHistory => (s, [])
  end.

(** The states that a request can find: the state of a new service on a
    disk without history document, the state after a call, and the states
    at which a call is suspended. *)
Inductive observable : State -> Prop :=
| obs_new f : f !! historyPath = None -> observable (newService f)
| obs_done e a s : observable s -> observable (run e a s).1
| obs_suspended e a s x : observable s -> x ∈ (run e a s).2 -> observable x.

(* ================================================================= *)
(** ** Timestamps and order *)

(** Order by key. *)
Definition key_le {A} (key : A -> Z) (a b : A) : Prop := (key a <= key b)%Z.

(** The instant of a timestamp, and the records whose timestamp is a
    [Date] object. *)
Definition instant (t : Timestamp) : Z :=
  match t with
  | DateObj ms => ms
  | IsoString ms => ms
  end.

Definition time_of (h : list BackupMetadata.t) (r : nat) : Z :=
  instant (BackupMetadata.timestamp (deref h r)).

Definition is_date (h : list BackupMetadata.t) (r : nat) : Prop :=
  exists ms, BackupMetadata.timestamp (deref h r) = DateObj ms.

#[global] Instance is_date_dec h r : Decision (is_date h r).
Proof.
  unfold is_date. destruct (BackupMetadata.timestamp (deref h r)) as [ms|ms].
  - left. by exists ms.
  - right. by intros [ms' ?].
Defined.

(* ================================================================= *)
(** ** Retention *)

(** [fs.rm] of the artifact of [v] is not rejected. *)
Definition deleted (e : Env) (h : list BackupMetadata.t) (v : nat) : Prop :=
  io_fail e (OpRm (BackupMetadata.path (deref h v))) = None.

#[global] Instance deleted_dec e h v : Decision (deleted e h v).
Proof. unfold deleted. apply _. Defined.

(** The loop removes the records that carry the id of a deleted victim,
    and erases what lies below the path of a deleted victim. *)
Definition removed (e : Env) (h : list BackupMetadata.t) (victims : list nat)
    (r : nat) : Prop :=
  Exists (fun v => deleted e h v /\
                   BackupMetadata.id (deref h v) = BackupMetadata.id (deref h r))
         victims.

Definition erased (e : Env) (h : list BackupMetadata.t) (victims : list nat)
    (p : Path) : Prop :=
  Exists (fun v => deleted e h v /\ BackupMetadata.path (deref h v) `prefix_of` p)
         victims.

#[global] Instance removed_dec e h victims r : Decision (removed e h victims r).
Proof. unfold removed. apply _. Defined.

#[global] Instance erased_dec e h victims p : Decision (erased e h victims p).
Proof. unfold erased. apply _. Defined.

(** Completed records of the history whose artifact is on disk. *)
Definition kept_on_disk (s : State) : list nat :=
  filter (fun r => completed (heap s) r /\
                   is_Some (fs s !! BackupMetadata.path (deref (heap s) r)))
         (backupHistory s).

(* ================================================================= *)
(** ** Export and download *)

(** Where [exportData] writes. *)
Definition exportDirOf (e : Env) (options : ExportOptions) : Path :=
  backupDir ++ ["exports";
                "export_" +:+ collection options +:+ "_" +:+ pretty (dateNow e)].

(** The security check of the handler. *)
Definition rejected (filename : string) : bool :=
  includes ".." filename || includes "/" filename || includes backslash filename.

(** [fs.access(p)] resolves. *)
Definition accessible (e : Env) (s : State) (p : Path) : bool :=
  match io_fail e (OpAccess p), fs s !! p with
  | None, Some _ => true
  | _, _ => false
  end.

Definition exportsDir : Path := ["backups"; "exports"].

(** The search as the specification words it: the backups root, then
    the subdirectories of the exports root in order, first match. *)
Definition first_match (e : Env) (s : State) (filename : string) : option Path :=
  if accessible e s ["backups"; filename] then Some ["backups"; filename]
  else head (filter (fun p => accessible e s p = true)
                    (map (fun dir => ["backups"; "exports"; dir; filename])
                         (children exportsDir (fs s)))).

(* ================================================================= *)
(** ** Sample data *)

#[global] Instance FsOp_eq_dec : EqDecision FsOp.
Proof. solve_decision. Defined.

Definition defaultOptions : BackupOptions.t :=
  {| BackupOptions.includeUploads := None;
     BackupOptions.includeDatabase := None;
     BackupOptions.includeLogs := None;
     BackupOptions.format := None;
     BackupOptions.compression := None |}.

Definition coffeeAndTea : list JsRecord :=
  [ [("id", VNum 1); ("name", VStr "Coffee")];
    [("id", VNum 2); ("name", VStr "Tea")] ].

(** No operation fails; one operation fails. *)
Definition quiet : FsOp -> option Exn := fun _ => None.
Definition only (op : FsOp) (error : Exn) : FsOp -> option Exn :=
  fun o => if decide (o = op) then Some error else None.

(** A shop with two products and one sale, at clock reading [now]. *)
Definition shop (fails : FsOp -> option Exn) (now : Z) : Env :=
  {| io_fail := fails;
     dateNow := now;
     newDate := now;
     products := coffeeAndTea;
     sales := [ [("id", VNum 7); ("total", VNum 5)] ];
     users := [];
     suppliers := [];
     purchaseOrders := [];
     dateOf := fun _ => None;
     uploads := Some (TDir [("logo.png", TFile (CText "png"))]);
     logFiles := None;
     fileSize := fun _ => 42;
     sha256 := fun _ => "c0ffee";
     pointer := 0 |}.

Definition EACCES : Exn := JsError "EACCES: permission denied".

(** Two backups, then a new process on the same disk. *)
Definition afterTwoBackups : State :=
  (run (shop quiet 2000) (Backup defaultOptions)
     (run (shop quiet 1000) (Backup defaultOptions) (newService ∅)).1).1.

Definition restarted : State := (run (shop quiet 3000) Start afterTwoBackups).1.

(** A run that is suspended on its first operation. *)
Definition midBackup : State :=
  default (newService ∅)
          (head (createFullBackup (shop quiet 1000) defaultOptions (newService ∅)).2).

Definition csvProducts : ExportOptions :=
  {| collection := "products"; format := "csv";
     dateRange := None; filters := None; fields := None |}.

Definition salesById : ExportOptions :=
  {| collection := "sales"; format := "json";
     dateRange := None; filters := None; fields := Some ["id"] |}.

Definition inventoryOfCoffee : ExportOptions :=
  {| collection := "inventory"; format := "json";
     dateRange := None;
     filters := Some [("name", VStr "Coffee")];
     fields := Some ["id"] |}.

(** Thirty-one daily backups, none cleaned up yet. *)
Definition fullShelf : State :=
  foldl (fun s day => (run (shop quiet (Z.of_nat day)) (Backup defaultOptions) s).1)
        (newService ∅) (seq 1 31).


(* ================================================================= *)
(** ** Results of computations, disks and trees *)

(** [m] started in [s] ends with a result and a state that satisfy [Q]. *)
Definition ensures {A} (m : M A) (s : State) (Q : Result A -> State -> Prop) : Prop :=
  Q (res m s) (post m s).

(** No operation is rejected. *)
Definition all_quiet (e : Env) : Prop := forall op, io_fail e op = None.

(** A path that is not a regular file. *)
Definition not_a_file (f : gmap Path Node) (p : Path) : Prop :=
  forall c, f !! p <> Some (File c).

(** The directories that [initializeBackupDirectory] creates. *)
Definition backupDirectories : list Path :=
  [ backupDir; backupDir ++ ["database"]; backupDir ++ ["files"];
    backupDir ++ ["exports"] ].

(** The files of a tree, with their paths relative to its root. *)
Fixpoint tree_files (t : DirTree) : list (Path * Content) :=
  match t with
  | TFile c => [([], c)]
  | TDir entries =>
      (fix files_of (rest : list (string * DirTree)) : list (Path * Content) :=
         match rest with
         | [] => []
         | (name, sub) :: rest' =>
             map (fun x => (name :: x.1, x.2)) (tree_files sub) ++ files_of rest'
         end) entries
  end.

(** The names of the entries of every directory of the tree are distinct,
    as those that [readdir] returns are. *)
Fixpoint distinct_names (t : DirTree) : Prop :=
  match t with
  | TFile _ => True
  | TDir entries =>
      NoDup (map fst entries) /\
      (fix all_distinct (rest : list (string * DirTree)) : Prop :=
         match rest with
         | [] => True
         | (_, sub) :: rest' => distinct_names sub /\ all_distinct rest'
         end) entries
  end.

(** One round of the loop of [copyDirectory], and the loop. *)
Definition copyEntry (e : Env) (src dest : Path) (entry : string * DirTree) : M unit :=
  match entry.2 with
  | TDir _ => copyDirectory e entry.2 (src ++ [entry.1]) (dest ++ [entry.1])
  | TFile c => copyFile e (src ++ [entry.1]) (dest ++ [entry.1]) c
  end.

Definition copyEntries (e : Env) (src dest : Path) (entries : list (string * DirTree))
  : M unit :=
  for_each entries (copyEntry e src dest).

(** What a copy of [t] leaves below [dest]. *)
Definition copied (e : Env) (t : DirTree) : Prop :=
  forall src dest s,
    distinct_names t ->
    res (copyDirectory e t src dest) s = Ok tt /\
    forall rel c, (rel, c) ∈ tree_files t ->
      fs (post (copyDirectory e t src dest) s) !! (dest ++ rel) = Some (File c).

(* ================================================================= *)
(** ** Names, exports and processes *)

(** Every character of [s] passes the test [ok]. *)
Fixpoint all_chars (ok : ascii -> bool) (s : string) : bool :=
  match s with
  | EmptyString => true
  | String c s' => ok c && all_chars ok s'
  end.

(** The characters of a printed integer. *)
Definition numeric (c : ascii) : bool :=
  let n := nat_of_ascii c in
  ((48 <=? n) && (n <=? 57))%nat || Ascii.eqb c "-".

(** The name under which the archive of a run can be downloaded. *)
Definition archiveNameOf (e : Env) : string := backupIdOf e +:+ ".tar.gz".

(** The records that an export of a supported collection selects, the
    content of the file it writes, and the path of that file. *)
Definition selection (e : Env) (options : ExportOptions) : list JsRecord :=
  if String.eqb (collection options) "products"
  then getProductsData (products e) options
  else if String.eqb (collection options) "sales"
  then getSalesData (dateOf e) (sales e) options
  else getInventoryData (products e) options.

Definition exportedContent (e : Env) (options : ExportOptions) : Content :=
  if String.eqb (format options) "json"
  then CRecords (selection e options)
  else CText (csvContent (selection e options)).

Definition exportFileName (options : ExportOptions) : string :=
  collection options +:+ "." +:+ format options.

Definition exportFileOf (e : Env) (options : ExportOptions) : Path :=
  exportDirOf e options ++ [exportFileName options].

(** The content type that goes with a format. *)
Definition contentTypeFor (format : string) : string :=
  if String.eqb format "json" then "application/json" else "text/csv".


(** The order of two array indices. *)
Definition index_lt (a b : string) : Prop :=
  match array_index a, array_index b with
  | Some i, Some j => (i < j)%N
  | _, _ => False
  end.

(** A requested field that is neither an array index nor [__proto__]. *)
Definition plain_field (key : string) : Prop :=
  array_index key = None /\ key <> "__proto__".

(** The elements of a list, each once, at its first occurrence. *)
Fixpoint first_occurrences (l : list string) : list string :=
  match l with
  | [] => []
  | x :: l' => x :: filter (fun y => y <> x) (first_occurrences l')
  end.

(** A sale made within the date range, bounds included; a record that
    passes the filters, if there are any. *)
Definition sold_within (dateOf : JsValue -> option Z) (range : option Z * option Z)
    (sale : JsRecord) : Prop :=
  exists d lo hi,
    dateOf (obj_get "createdAt" sale) = Some d /\ range = (Some lo, Some hi) /\
    (lo <= d <= hi)%Z.

Definition passes (flt : option JsRecord) (item : JsRecord) : Prop :=
  match flt with
  | Some entries =>
      forall key value, (key, value) ∈ entries -> strict_eq (obj_get key item) value = true
  | None => True
  end.

#[global] Instance plain_field_dec key : Decision (plain_field key).
Proof. unfold plain_field. apply _. Defined.

(** A value that [===] compares by reference. *)
Definition by_reference (v : JsValue) : Prop :=
  match v with
  | VArr _ | VObj _ => True
  | _ => False
  end.

(** The timestamp is a string. *)
Definition is_string (t : Timestamp) : Prop :=
  match t with
  | DateObj _ => False
  | IsoString _ => True
  end.

(** The error of [getTime] on a timestamp that is a string. *)
Definition noGetTime : Exn := JsError "timestamp.getTime is not a function".

(** The process that starts on the disk that [s] leaves once its history
    is saved. *)
Definition reloaded (e e' : Env) (s : State) : State :=
  post (loadBackupHistory e') (newService (fs (post (saveBackupHistory e) s))).

(* ================================================================= *)
(** ** More sample data *)

(** Options of a backup without compression, and the body of a request
    for one. *)
Definition uncompressed : BackupOptions.t :=
  {| BackupOptions.includeUploads := None;
     BackupOptions.includeDatabase := None;
     BackupOptions.includeLogs := None;
     BackupOptions.format := None;
     BackupOptions.compression := Some false |}.

Definition uncompressedBody : JsRecord := [("compression", VBool false)].

(** A tree of uploads with a subdirectory. *)
Definition uploadsTree : list (string * DirTree) :=
  [ ("logo.png", TFile (CText "png"));
    ("receipts", TDir [ ("r1.pdf", TFile (CText "pdf")) ]) ].

(** An export of suppliers, which backups snapshot but exports do not
    offer; a request for the products as CSV. *)
Definition jsonSuppliers : ExportOptions :=
  {| collection := "suppliers"; format := "json";
     dateRange := None; filters := None; fields := None |}.

Definition csvProductsRequest : ExportRequest :=
  {| req_collection := Some "products"; req_format := Some "csv";
     req_dateRange := None; req_filters := None; req_fields := None |}.

(** Exports with a projection, with a filter on an array, and with a
    date range whose start is not a date. *)
Definition mixedFields : ExportOptions :=
  {| collection := "products"; format := "json";
     dateRange := None;
     filters := Some [("name", VStr "Tea")];
     fields := Some ["price"; "10"; "__proto__"; "2"; "name"; "price"; "toString"] |}.

Definition taggedCoffee : ExportOptions :=
  {| collection := "products"; format := "csv";
     dateRange := None;
     filters := Some [("tags", VArr [VStr "hot"])];
     fields := None |}.

Definition brokenRange : ExportOptions :=
  {| collection := "sales"; format := "json";
     dateRange := Some (None, Some 5%Z); filters := None; fields := None |}.

(** Sales by the day of their creation, and an export of the days 2 to 5. *)
Definition dayOf (v : JsValue) : option Z :=
  match v with
  | VNum n => Some n
  | _ => None
  end.

Definition salesByDay : list JsRecord :=
  [ [("createdAt", VNum 3)]; [("createdAt", VNum 9)];
    [("createdAt", VNum 4)]; [("createdAt", VNum 3)] ].

Definition daysTwoToFive : ExportOptions :=
  {| collection := "sales"; format := "json";
     dateRange := Some (Some 2%Z, Some 5%Z); filters := None; fields := Some ["id"] |}.

(** Records of which only the second has a note. *)
Definition withNote : list JsRecord :=
  [ [("id", VNum 1)]; [("id", VNum 2); ("note", VStr "fragile")] ].

Definition withoutNote : list JsRecord :=
  [ [("id", VNum 1)]; [("id", VNum 2)] ].

(* ################################################################# *)
(** * Properties *)

(* ================================================================= *)
(** ** Reasoning about computations *)

Section Respects.
Context (R : State -> State -> Prop) `{!PreOrder R}.

Lemma respects_ret {A} (a : A) : respects R (ret a).
Proof. intros s. simpl. split; [reflexivity | constructor]. Qed.

Lemma respects_throw {A} error : respects R (@throw A error).
Proof. intros s. simpl. split; [reflexivity | constructor]. Qed.

Lemma respects_gets {A} (f : State -> A) : respects R (gets f).
Proof. intros s. simpl. split; [reflexivity | constructor]. Qed.

Lemma respects_lift {A} (r : Result A) : respects R (lift r).
Proof. intros s. simpl. split; [reflexivity | constructor]. Qed.

Lemma respects_modify f : (forall s, R s (f s)) -> respects R (modify f).
Proof. intros H s. simpl. split; [apply H | constructor]. Qed.

Lemma respects_bind {A B} (m : M A) (f : A -> M B) :
  respects R m -> (forall a, respects R (f a)) -> respects R (bind m f).
Proof.
  intros Hm Hf s. unfold bind.
  destruct (Hm s) as [H1 H2].
  destruct (m s) as [[[a|error] s1] t1]; simpl in *; [|done].
  destruct (Hf a s1) as [H3 H4].
  destruct (f a s1) as [[r s2] t2]; simpl in *.
  split; [by etransitivity|].
  apply Forall_app. split; [done|].
  eapply Forall_impl; [exact H4|]. intros x Hx. by etransitivity.
Qed.

Lemma respects_try_catch {A} (m : M A) h :
  respects R m -> (forall error, respects R (h error)) -> respects R (try_catch m h).
Proof.
  intros Hm Hh s. unfold try_catch.
  destruct (Hm s) as [H1 H2].
  destruct (m s) as [[[a|error] s1] t1]; simpl in *; [done|].
  destruct (Hh error s1) as [H3 H4].
  destruct (h error s1) as [[r s2] t2]; simpl in *.
  split; [by etransitivity|].
  apply Forall_app. split; [done|].
  eapply Forall_impl; [exact H4|]. intros x Hx. by etransitivity.
Qed.

Lemma respects_when b m : respects R m -> respects R (when b m).
Proof. destruct b; simpl; [done|]. intros _. apply respects_ret. Qed.

Lemma respects_for_each {A} (l : list A) body :
  (forall x, x ∈ l -> respects R (body x)) -> respects R (for_each l body).
Proof.
  induction l as [|x l IH]; intros H; simpl; [apply respects_ret|].
  apply respects_bind; [apply H; left|].
  intros _. apply IH. intros y Hy. apply H. by right.
Qed.

Lemma respects_await {A} e op (act : State -> Result A * State) :
  (forall s, R s (act s).2) -> respects R (await e op act).
Proof.
  intros H s. unfold await. destruct (io_fail e op).
  - simpl. split; [reflexivity|]. constructor; [reflexivity | constructor].
  - specialize (H s). destruct (act s) as [r s1]. simpl in *.
    split; [done|]. by constructor.
Qed.

Lemma respects_stringify e name data : respects R (stringify e name data).
Proof.
  intros s. unfold stringify. destruct (io_fail e _); simpl;
    (split; [reflexivity | constructor]).
Qed.
End Respects.

(* ================================================================= *)
(** ** What file-system work can change *)

#[global] Instance mem_eq_preorder : PreOrder mem_eq.
Proof.
  split.
  - by intros s.
  - intros s1 s2 s3 (?&?&?&?) (?&?&?&?). unfold mem_eq. repeat split; congruence.
Qed.

#[global] Instance fs_grow_preorder W : PreOrder (fs_grow W).
Proof.
  split.
  - intros f p. by left.
  - intros f1 f2 f3 H12 H23 p.
    destruct (H12 p) as [E1|[[E1 E1']|?]], (H23 p) as [E2|[[E2 E2']|?]];
      try (by right; right);
      first [ left; congruence | right; left; split; congruence | congruence ].
Qed.

#[global] Instance fs_step_preorder W : PreOrder (fs_step W).
Proof.
  split.
  - intros s. repeat split; reflexivity.
  - intros s1 s2 s3 (A1&B1&C1) (A2&B2&C2).
    split; [by etransitivity|]. split; by etransitivity.
Qed.

Lemma fs_grow_mono (W W' : Path -> Prop) f f' :
  (forall p, W p -> W' p) -> fs_grow W f f' -> fs_grow W' f f'.
Proof. intros HW H p. destruct (H p) as [?|[?|?]]; auto. Qed.

Lemma respects_fs_step_mono {A} (W W' : Path -> Prop) (m : M A) :
  (forall p, W p -> W' p) -> respects (fs_step W) m -> respects (fs_step W') m.
Proof.
  intros HW H s. destruct (H s) as [(H1&H2&H2') H3]. split.
  - split; [done|]. split; [|done]. by eapply fs_grow_mono.
  - eapply Forall_impl; [exact H3|]. intros x (?&?&?). split; [done|].
    split; [|done]. by eapply fs_grow_mono.
Qed.

Lemma add_dir_grow W q f : fs_grow W f (add_dir q f).
Proof.
  intros p. unfold add_dir. destruct (f !! q) eqn:E; [by left|].
  destruct (decide (q = p)) as [->|Hne].
  - right. left. by rewrite lookup_insert_eq.
  - left. by rewrite lookup_insert_ne.
Qed.

Lemma mkdir_p_grow W p : forall base f, fs_grow W f (mkdir_p base p f).
Proof.
  induction p as [|seg rest IH]; intros base f; simpl; [reflexivity|].
  etransitivity; [apply add_dir_grow | apply IH].
Qed.

Lemma insert_grow (W : Path -> Prop) p n f : W p -> fs_grow W f (<[p := n]> f).
Proof.
  intros HW q. destruct (decide (p = q)) as [->|Hne]; [by right; right|].
  left. by rewrite lookup_insert_ne.
Qed.

Lemma rm_rf_lookup p f q :
  rm_rf p f !! q = if decide (p `prefix_of` q) then None else f !! q.
Proof.
  unfold rm_rf. destruct (decide (p `prefix_of` q)) as [Hp|Hp].
  - apply map_lookup_filter_None. right. intros x _. simpl. tauto.
  - destruct (f !! q) as [x|] eqn:E.
    + apply map_lookup_filter_Some. split; [done|]. simpl. done.
    + apply map_lookup_filter_None. by left.
Qed.

Lemma rm_rf_grow (W : Path -> Prop) p f :
  (forall q, p `prefix_of` q -> W q) -> fs_grow W f (rm_rf p f).
Proof.
  intros HW q. rewrite rm_rf_lookup. case_decide; [right; right; auto | by left].
Qed.

Lemma fs_step_log W l s : fs_step W s (add_log l s).
Proof. split; [done|]. split; [reflexivity | by apply prefix_app_r]. Qed.

Lemma fs_step_set_fs W f s : fs_grow W (fs s) f -> fs_step W s (set_fs f s).
Proof. intros H. split; [done|]. split; [exact H | reflexivity]. Qed.

Section FsOnly.
Context (W : Path -> Prop) (e : Env).

Lemma log_fs_only l : respects (fs_step W) (log l).
Proof. apply respects_modify; try exact _. intros s. apply fs_step_log. Qed.

Lemma mkdir_fs_only p : respects (fs_step W) (mkdir e p).
Proof.
  apply respects_await; try exact _. intros s. simpl.
  apply fs_step_set_fs, mkdir_p_grow.
Qed.

Lemma access_fs_only p : respects (fs_step W) (access e p).
Proof.
  apply respects_await; try exact _. intros s.
  destruct (fs s !! p); simpl; reflexivity.
Qed.

Lemma readFile_fs_only p : respects (fs_step W) (readFile e p).
Proof.
  apply respects_await; try exact _. intros s.
  destruct (fs s !! p) as [[]|]; simpl; reflexivity.
Qed.

Lemma readdir_fs_only p : respects (fs_step W) (readdir e p).
Proof.
  apply respects_await; try exact _. intros s.
  destruct (fs s !! p) as [[]|]; simpl; reflexivity.
Qed.

Lemma stat_fs_only p : respects (fs_step W) (stat e p).
Proof.
  apply respects_await; try exact _. intros s.
  destruct (fs s !! p); simpl; reflexivity.
Qed.

Lemma calculateChecksum_fs_only p : respects (fs_step W) (calculateChecksum e p).
Proof.
  apply respects_await; try exact _. intros s.
  destruct (fs s !! p) as [[]|]; simpl; reflexivity.
Qed.

Lemma access_tree_fs_only p t : respects (fs_step W) (access_tree e p t).
Proof.
  apply respects_await; try exact _. intros s. destruct t; simpl; reflexivity.
Qed.

Lemma readdir_tree_fs_only p t : respects (fs_step W) (readdir_tree e p t).
Proof.
  apply respects_await; try exact _. intros s. destruct t; simpl; reflexivity.
Qed.

Lemma writeFile_fs_only p c : W p -> respects (fs_step W) (writeFile e p c).
Proof.
  intros HW. apply respects_await; try exact _. intros s. simpl.
  by apply fs_step_set_fs, insert_grow.
Qed.

Lemma copyFile_fs_only src dest c :
  W dest -> respects (fs_step W) (copyFile e src dest c).
Proof.
  intros HW. apply respects_await; try exact _. intros s. simpl.
  by apply fs_step_set_fs, insert_grow.
Qed.

Lemma rm_fs_only p force :
  (forall q, p `prefix_of` q -> W q) -> respects (fs_step W) (rm e p force).
Proof.
  intros HW. apply respects_await; try exact _. intros s. cbn beta.
  destruct (fs s !! p); [|destruct force]; simpl;
    try reflexivity; by apply fs_step_set_fs, rm_rf_grow.
Qed.

Lemma createArchive_fs_only source name :
  W (backupDir ++ [name]) -> respects (fs_step W) (createArchive e source name).
Proof.
  intros HW. apply respects_await; try exact _. intros s. cbn beta zeta.
  destruct (io_fail e (OpWriteStream _)); simpl; [apply fs_step_log|].
  etransitivity; [|apply fs_step_log].
  by apply fs_step_set_fs, insert_grow.
Qed.
End FsOnly.

(** Induction on a directory tree and on the trees of its entries. *)
Lemma DirTree_nested_ind (P : DirTree -> Prop) :
  (forall c, P (TFile c)) ->
  (forall entries, Forall (fun x => P x.2) entries -> P (TDir entries)) ->
  forall t, P t.
Proof.
  intros Hfile Hdir. fix IH 1. intros [c|entries]; [apply Hfile|].
  apply Hdir. induction entries as [|[name t] rest IHrest]; constructor.
  - apply IH.
  - apply IHrest.
Qed.

Lemma below_app D k : below D (D ++ k).
Proof. by apply prefix_app_r. Qed.

Lemma below_trans D D' p : below D D' -> below D' p -> below D p.
Proof. unfold below. by etransitivity. Qed.

Ltac fs_only_step :=
  cbv zeta;
  lazymatch goal with
  | |- respects _ (bind _ _) => apply respects_bind; try exact _; [| intros ?]
  | |- respects _ (try_catch _ _) => apply respects_try_catch; try exact _; [| intros ?]
  | |- respects _ (ret _) => apply respects_ret; exact _
  | |- respects _ (throw _) => apply respects_throw; exact _
  | |- respects _ (gets _) => apply respects_gets; exact _
  | |- respects _ (lift _) => apply respects_lift; exact _
  | |- respects _ (stringify _ _ _) => apply respects_stringify; exact _
  | |- respects _ (when _ _) => apply respects_when; try exact _
  | |- respects _ (log _) => apply log_fs_only
  | |- respects _ (mkdir _ _) => apply mkdir_fs_only
  | |- respects _ (access _ _) => apply access_fs_only
  | |- respects _ (readFile _ _) => apply readFile_fs_only
  | |- respects _ (readdir _ _) => apply readdir_fs_only
  | |- respects _ (stat _ _) => apply stat_fs_only
  | |- respects _ (calculateChecksum _ _) => apply calculateChecksum_fs_only
  | |- respects _ (access_tree _ _ _) => apply access_tree_fs_only
  | |- respects _ (readdir_tree _ _ _) => apply readdir_tree_fs_only
  | |- respects _ (writeFile _ _ _) => apply writeFile_fs_only
  | |- respects _ (copyFile _ _ _ _) => apply copyFile_fs_only
  | |- respects _ (rm _ _ _) => apply rm_fs_only
  | |- respects _ (createArchive _ _ _) => apply createArchive_fs_only
  end.

Ltac fs_only := repeat fs_only_step.

Section FsOnlyComposite.
Context (e : Env).

Lemma saveBackupHistory_fs_only :
  respects (fs_step (eq historyPath)) (saveBackupHistory e).
Proof. unfold saveBackupHistory. fs_only. done. Qed.

Lemma exportCollectionsAsJSON_fs_only backupPath :
  respects (fs_step (below backupPath)) (exportCollectionsAsJSON e backupPath).
Proof.
  unfold exportCollectionsAsJSON. apply respects_for_each; [exact _|].
  intros collection _. unfold exportCollection. fs_only. apply below_app.
Qed.

Lemma backupDatabase_fs_only backupPath :
  respects (fs_step (below (backupPath ++ ["database"])))
           (backupDatabase e backupPath).
Proof.
  unfold backupDatabase. fs_only. apply exportCollectionsAsJSON_fs_only.
Qed.

Lemma copyDirectory_fs_only t :
  forall src dest, respects (fs_step (below dest)) (copyDirectory e t src dest).
Proof.
  induction t as [c|entries IH] using DirTree_nested_ind; intros src dest; simpl.
  - fs_only.
  - fs_only. clear a a0.
    induction IH as [|[name entry] rest Hentry _ IHrest]; [fs_only|].
    apply respects_bind; [exact _| |intros _; exact IHrest].
    destruct entry as [c|sub].
    + fs_only. apply below_app.
    + eapply respects_fs_step_mono; [|apply Hentry].
      intros p. apply below_trans, below_app.
Qed.

Lemma backupFiles_fs_only backupPath :
  respects (fs_step (below (backupPath ++ ["files"])))
           (backupFiles e backupPath).
Proof.
  unfold backupFiles. fs_only.
  eapply respects_fs_step_mono; [|apply copyDirectory_fs_only].
  intros p. apply below_trans, below_app.
Qed.

Lemma backupLogs_fs_only backupPath :
  respects (fs_step (below (backupPath ++ ["logs"])))
           (backupLogs e backupPath).
Proof. unfold backupLogs. fs_only. apply copyDirectory_fs_only. Qed.

Lemma produceArtifact_fs_only options backupId :
  respects (fs_step (run_region backupId)) (produceArtifact e options backupId).
Proof.
  unfold produceArtifact. fs_only.
  - eapply respects_fs_step_mono; [|apply backupDatabase_fs_only].
    intros p Hp. left. eapply below_trans; [apply below_app|exact Hp].
  - eapply respects_fs_step_mono; [|apply backupFiles_fs_only].
    intros p Hp. left. eapply below_trans; [apply below_app|exact Hp].
  - eapply respects_fs_step_mono; [|apply backupLogs_fs_only].
    intros p Hp. left. eapply below_trans; [apply below_app|exact Hp].
  - destruct (not_false _); fs_only.
    + by right.
    + intros q Hq. by left.
Qed.

Lemma exportData_fs_only options :
  respects (fs_step (below (backupDir ++ ["exports"])))
           (exportData e options).
Proof.
  unfold exportData, exportToCSV. fs_only.
  - repeat (case_match; fs_only).
  - repeat (case_match; fs_only); by eexists [_; _].
Qed.

Lemma searchExports_fs_only filename exportDirs :
  respects (fs_step (fun _ => False)) (searchExports e filename exportDirs).
Proof.
  induction exportDirs as [|dir rest IH]; simpl; fs_only.
  by destruct a.
Qed.

Lemma resolveDownload_fs_only filename :
  respects (fs_step (fun _ => False)) (resolveDownload e filename).
Proof.
  unfold resolveDownload. case_match; fs_only.
  - apply searchExports_fs_only.
  - case_match; fs_only.
Qed.

Lemma download_fs_only filename :
  respects (fs_step (fun _ => False)) (download e filename).
Proof.
  unfold download. fs_only.
  - apply resolveDownload_fs_only.
  - case_match; fs_only.
Qed.
End FsOnlyComposite.

(* ================================================================= *)
(** ** The shape of a backup run *)

Lemma saveBackupHistory_eq e s :
  saveBackupHistory e s =
    match io_fail e (OpWriteFile historyPath) with
    | None =>
        let s' := set_fs (<[historyPath := File (CHistory (map toJSON (records s)))]>
                            (fs s)) s in
        (Ok tt, s', [s'])
    | Some error =>
        (Ok tt, add_log (LogError "Failed to save backup history:" error) s, [s])
    end.
Proof.
  unfold saveBackupHistory, try_catch, bind, gets, writeFile, await, log, modify.
  by destruct (io_fail e (OpWriteFile historyPath)).
Qed.

(** [saveBackupHistory] never throws. *)
Lemma saveBackupHistory_ok e s :
  saveBackupHistory e s =
    (Ok tt, (saveBackupHistory e s).1.2, (saveBackupHistory e s).2).
Proof. rewrite saveBackupHistory_eq. by destruct (io_fail e _). Qed.

Lemma saveBackupHistory_mem_eq e s :
  mem_eq s (saveBackupHistory e s).1.2 /\
  Forall (mem_eq s) (saveBackupHistory e s).2.
Proof.
  destruct (saveBackupHistory_fs_only e s) as [[H1 _] H2]. split; [done|].
  eapply Forall_impl; [exact H2|]. by intros x [??].
Qed.

(** A run that finds the guard free is [produceArtifact] on the acquired
    state, then the record, its append, [saveBackupHistory], one log line
    and the release of the guard. *)
Lemma createFullBackup_run e options s :
  isBackupRunning s = false ->
  let ref := List.length (heap s) in
  createFullBackup e options s =
    match produceArtifact e options (backupIdOf e) (acquired e s) with
    | (Ok a, s1, t1) =>
        let s2 := recorded ref (complete a.1.1 a.1.2 a.2) s1 in
        (Ok ref,
         set_running false
           (add_log (LogInfo ("Full backup completed: " +:+ backupIdOf e))
                    (saveBackupHistory e s2).1.2),
         t1 ++ (saveBackupHistory e s2).2)
    | (Throw error, s1, t1) =>
        let s2 := recorded ref (fail error) s1 in
        (Throw error,
         set_running false
           (add_log (LogError ("Full backup failed: " +:+ backupIdOf e) error)
                    (saveBackupHistory e s2).1.2),
         t1 ++ (saveBackupHistory e s2).2)
    end.
Proof.
  intros Hfree ref. unfold createFullBackup.
  unfold bind at 1. unfold gets at 1. rewrite Hfree.
  unfold bind at 1. unfold modify at 1.
  unfold bind at 1. unfold alloc at 1.
  unfold try_finally, try_catch.
  change (set_heap _ (set_running true s)) with (acquired e s).
  change ("backup_" +:+ pretty (dateNow e)) with (backupIdOf e).
  change (List.length (heap (set_running true s))) with ref.
  unfold bind at 1.
  destruct (produceArtifact e options (backupIdOf e) (acquired e s))
    as [[[a|error] s1] t1].
  - unfold bind at 1. unfold update at 1, modify at 1.
    unfold bind at 1. unfold push at 1, modify at 1.
    unfold bind at 1.
    change (set_history _ (set_heap _ s1))
      with (recorded ref (complete a.1.1 a.1.2 a.2) s1).
    pose proof (saveBackupHistory_ok e (recorded ref (complete a.1.1 a.1.2 a.2) s1)) as Hs.
    destruct (saveBackupHistory e _) as [[r3 s3] t3]. simpl in Hs.
    injection Hs as ->. simpl. by rewrite !app_nil_r.
  - unfold bind at 1. unfold update at 1, modify at 1.
    unfold bind at 1. unfold push at 1, modify at 1.
    unfold bind at 1.
    change (set_history _ (set_heap _ s1)) with (recorded ref (fail error) s1).
    pose proof (saveBackupHistory_ok e (recorded ref (fail error) s1)) as Hs.
    destruct (saveBackupHistory e _) as [[r3 s3] t3]. simpl in Hs.
    injection Hs as ->. simpl. by rewrite !app_nil_r.
Qed.

Lemma produceArtifact_mem_eq e options backupId s :
  mem_eq s (produceArtifact e options backupId s).1.2 /\
  Forall (mem_eq s) (produceArtifact e options backupId s).2.
Proof.
  destruct (produceArtifact_fs_only e options backupId s) as [[H1 _] H2].
  split; [done|]. eapply Forall_impl; [exact H2|]. by intros x [??].
Qed.

Lemma deref_fresh h m : deref (h ++ [m]) (List.length h) = m.
Proof. unfold deref. by rewrite list_lookup_middle. Qed.

Lemma insert_fresh (h : list BackupMetadata.t) m m' :
  <[List.length h := m']> (h ++ [m]) = h ++ [m'].
Proof. rewrite insert_app_r_alt; [|done]. by rewrite Nat.sub_diag. Qed.

(** While a run is suspended, the guard is set. *)
Lemma createFullBackup_guard_held e options s :
  isBackupRunning s = false ->
  Forall (fun x => isBackupRunning x = true) (createFullBackup e options s).2.
Proof.
  intros Hfree. rewrite createFullBackup_run by done.
  destruct (produceArtifact_mem_eq e options (backupIdOf e) (acquired e s))
    as [(_&H1&_&_) H2].
  destruct (produceArtifact e options (backupIdOf e) (acquired e s))
    as [[[a|error] s1] t1]; simpl in *.
  - apply Forall_app. split.
    + eapply Forall_impl; [exact H2|]. by intros x (_&->&_&_).
    + destruct (saveBackupHistory_mem_eq e
                  (recorded (List.length (heap s)) (complete a.1.1 a.1.2 a.2) s1))
        as [_ H3].
      eapply Forall_impl; [exact H3|]. intros x (_&->&_&_). exact H1.
  - apply Forall_app. split.
    + eapply Forall_impl; [exact H2|]. by intros x (_&->&_&_).
    + destruct (saveBackupHistory_mem_eq e
                  (recorded (List.length (heap s)) (fail error) s1))
        as [_ H3].
      eapply Forall_impl; [exact H3|]. intros x (_&->&_&_). exact H1.
Qed.

Lemma busy_guard_rejects e options s :
  isBackupRunning s = true ->
  createFullBackup e options s = (Throw backupInProgress, s, []).
Proof.
  intros Hbusy. unfold createFullBackup.
  unfold bind at 1. unfold gets at 1. by rewrite Hbusy.
Qed.

(** C1.  A call to [createFullBackup] that finds a run in progress
    ([isBackupRunning] is set, as it is at every suspension point of a run,
    see [createFullBackup_guard_held]) throws the error "Backup is already
    in progress" at once: it is never suspended, and it leaves the whole
    state as it was - guard, heap, history, file system (no staging
    directory, no write of the history document) and log. *)
Theorem createFullBackup_in_progress e options s :
  isBackupRunning s = true ->
  createFullBackup e options s = (Throw backupInProgress, s, []).
Proof. apply busy_guard_rejects. Qed.


(* ================================================================= *)
(** ** Terminal records *)

#[global] Instance keeps_preorder : PreOrder keeps.
Proof. split; unfold keeps; [intros s | intros s1 s2 s3]; tauto. Qed.

Lemma terminal_toJSON m : terminal m -> terminal (toJSON m).
Proof. by destruct m. Qed.

Lemma history_ok_records s : history_ok s -> Forall terminal (records s).
Proof.
  intros H. unfold records. apply Forall_map, Forall_forall. intros r Hr.
  destruct (H r Hr) as (m & Hm & Ht). unfold deref. by rewrite Hm.
Qed.

Lemma doc_ok_grow (W : Path -> Prop) f f' :
  ~ W historyPath -> fs_grow W f f' -> doc_ok f -> doc_ok f'.
Proof.
  intros HW Hg Hf l Hl. destruct (Hg historyPath) as [E|[[_ E]|?]]; [| |done].
  - apply Hf. by rewrite <- E.
  - congruence.
Qed.

Lemma keeps_fs_step (W : Path -> Prop) s s' :
  ~ W historyPath -> fs_step W s s' -> keeps s s'.
Proof.
  intros HW [(_&_&Hh&Hl) [Hg _]] [H1 H2]. split.
  - intros r Hr. rewrite Hh. apply H1. by rewrite <- Hl.
  - by eapply doc_ok_grow.
Qed.

Lemma respects_keeps_fs_only {A} (W : Path -> Prop) (m : M A) :
  ~ W historyPath -> respects (fs_step W) m -> respects keeps m.
Proof.
  intros HW H s. destruct (H s) as [H1 H2]. split.
  - by eapply keeps_fs_step.
  - eapply Forall_impl; [exact H2|]. intros x Hx. by eapply keeps_fs_step.
Qed.

Lemma run_region_history e : ~ run_region (backupIdOf e) historyPath.
Proof.
  intros [[k Hk]|H].
  - unfold historyPath, backupDir, backupIdOf in Hk. simpl in Hk.
    injection Hk as Hk _. discriminate.
  - unfold historyPath, backupDir, backupIdOf in H. simpl in H.
    injection H as H. discriminate.
Qed.

Lemma exports_history : ~ below (backupDir ++ ["exports"]) historyPath.
Proof. intros [k Hk]. unfold historyPath, backupDir in Hk. simpl in Hk. discriminate. Qed.

Lemma keeps_log l s : keeps s (add_log l s).
Proof. by intros [??]. Qed.

Lemma keeps_set_running b s : keeps s (set_running b s).
Proof. by intros [??]. Qed.

Lemma saveBackupHistory_keeps e : respects keeps (saveBackupHistory e).
Proof.
  intros s. rewrite saveBackupHistory_eq.
  destruct (io_fail e (OpWriteFile historyPath)); simpl.
  - split; [apply keeps_log|]. constructor; [reflexivity|constructor].
  - assert (keeps s (set_fs (<[historyPath:=File (CHistory (map toJSON (records s)))]>
                               (fs s)) s)) as Hk.
    { intros [H1 H2]. split; [done|]. intros l Hl. simpl in Hl.
      rewrite lookup_insert_eq in Hl. injection Hl as <-.
      apply Forall_map. eapply Forall_impl; [by apply history_ok_records|].
      intros m. apply terminal_toJSON. }
    split; [done|]. by constructor.
Qed.

(** After the assignments and the [push] the new record is terminal. *)
Lemma recorded_history_ok e s s1 f :
  history_ok s ->
  heap s1 = heap s ++ [pendingRecord e] ->
  backupHistory s1 = backupHistory s ->
  terminal (f (pendingRecord e)) ->
  history_ok (recorded (List.length (heap s)) f s1).
Proof.
  intros Hs Hh Hl Hf r Hr. simpl in *. rewrite Hh, Hl in *.
  rewrite deref_fresh, insert_fresh.
  apply elem_of_app in Hr as [Hr|Hr].
  - destruct (Hs r Hr) as (m & Hm & Ht). exists m. split; [|done].
    by apply lookup_app_l_Some.
  - apply list_elem_of_singleton in Hr as ->. exists (f (pendingRecord e)).
    split; [|done]. by rewrite list_lookup_middle.
Qed.

Lemma acquired_history_ok e s x :
  history_ok s -> mem_eq (acquired e s) x -> history_ok x.
Proof.
  intros Hs (_&_&Hh&Hl) r Hr. rewrite Hh, Hl in *. simpl in *.
  destruct (Hs r Hr) as (m & Hm & Ht). exists m. split; [|done].
  by apply lookup_app_l_Some.
Qed.

Lemma createFullBackup_keeps e options : respects keeps (createFullBackup e options).
Proof.
  intros s. destruct (isBackupRunning s) eqn:Hflag.
  { rewrite busy_guard_rejects by done. simpl.
    split; [reflexivity | constructor]. }
  rewrite createFullBackup_run by done.
  pose proof (produceArtifact_fs_only e options (backupIdOf e) (acquired e s))
    as [[Hm1 [Hg1 _]] Ht1].
  assert (forall x, fs_step (run_region (backupIdOf e)) (acquired e s) x ->
                    Inv s -> Inv x) as Hstep.
  { intros x [Hm [Hg _]] [H1 H2]. split; [by eapply acquired_history_ok|].
    eapply doc_ok_grow; [apply run_region_history|exact Hg|exact H2]. }
  destruct Hm1 as (Hmax&Hrun&Hheap&Hhist).
  destruct (produceArtifact e options (backupIdOf e) (acquired e s))
    as [[[a|error] s1] t1]; simpl in *.
  - set (s2 := recorded _ _ s1).
    assert (Inv s -> Inv s2) as H2.
    { intros HI. split.
      - apply (recorded_history_ok e s s1); [apply HI|done|done|done].
      - simpl. eapply doc_ok_grow; [apply run_region_history|exact Hg1|apply HI]. }
    destruct (saveBackupHistory_keeps e s2) as [H3 H4].
    split.
    + intros HI. apply keeps_set_running, keeps_log, H3, H2, HI.
    + apply Forall_app. split.
      * eapply Forall_impl; [exact Ht1|]. intros x Hx HI. by apply Hstep.
      * eapply Forall_impl; [exact H4|]. intros x Hx HI. apply Hx, H2, HI.
  - set (s2 := recorded _ _ s1).
    assert (Inv s -> Inv s2) as H2.
    { intros HI. split.
      - apply (recorded_history_ok e s s1); [apply HI|done|done|done].
      - simpl. eapply doc_ok_grow; [apply run_region_history|exact Hg1|apply HI]. }
    destruct (saveBackupHistory_keeps e s2) as [H3 H4].
    split.
    + intros HI. apply keeps_set_running, keeps_log, H3, H2, HI.
    + apply Forall_app. split.
      * eapply Forall_impl; [exact Ht1|]. intros x Hx HI. by apply Hstep.
      * eapply Forall_impl; [exact H4|]. intros x Hx HI. apply Hx, H2, HI.
Qed.

Lemma log_keeps l : respects keeps (log l).
Proof. apply respects_modify; try exact _. intros s. apply keeps_log. Qed.

Lemma doc_ok_rm_rf p f : doc_ok f -> doc_ok (rm_rf p f).
Proof.
  intros H l Hl. rewrite rm_rf_lookup in Hl. case_decide; [done|]. by apply H.
Qed.

Lemma rm_keeps e p force : respects keeps (rm e p force).
Proof.
  apply respects_await; try exact _. intros s. cbn beta.
  assert (keeps s (set_fs (rm_rf p (fs s)) s)) as Hk.
  { intros [H1 H2]. split; [done|]. by apply doc_ok_rm_rf. }
  destruct (fs s !! p); [|destruct force]; simpl; done.
Qed.

Lemma filter_history_keeps (P : State -> nat -> Prop) `{!forall s r, Decision (P s r)} :
  respects keeps
    (modify (fun s => set_history (filter (P s) (backupHistory s)) s)).
Proof.
  apply respects_modify; try exact _. intros s [H1 H2]. split; [|done].
  intros r Hr. simpl in Hr. apply list_elem_of_filter in Hr as [_ Hr]. by apply H1.
Qed.

Lemma deleteBackup_keeps e backup : respects keeps (deleteBackup e backup).
Proof.
  unfold deleteBackup.
  apply respects_try_catch; try exact _.
  - apply respects_bind; try exact _; [apply respects_gets; exact _|]. intros b.
    apply respects_bind; try exact _; [apply rm_keeps|]. intros _.
    apply respects_bind; try exact _; [|intros _; apply log_keeps].
    apply (filter_history_keeps
             (fun s r => BackupMetadata.id (deref (heap s) r) <> BackupMetadata.id b)).
  - intros error. apply respects_bind; try exact _; [apply respects_gets; exact _|].
    intros b. apply log_keeps.
Qed.

Lemma cleanupOldBackups_keeps e : respects keeps (cleanupOldBackups e).
Proof.
  unfold cleanupOldBackups.
  apply respects_try_catch; try exact _; [|intros error; apply log_keeps].
  apply respects_bind; try exact _; [apply log_keeps|]. intros _.
  apply respects_bind; try exact _; [apply respects_gets; exact _|]. intros h.
  apply respects_bind; try exact _; [apply respects_gets; exact _|]. intros history.
  apply respects_bind; try exact _; [apply respects_lift; exact _|]. intros sorted.
  apply respects_bind; try exact _; [apply respects_gets; exact _|]. intros max.
  case_match; [apply log_keeps|].
  apply respects_bind; try exact _.
  { apply respects_for_each; try exact _. intros x _. apply deleteBackup_keeps. }
  intros _. apply respects_bind; try exact _; [apply saveBackupHistory_keeps|].
  intros _. apply log_keeps.
Qed.

Lemma exportData_keeps e options : respects keeps (exportData e options).
Proof.
  eapply respects_keeps_fs_only; [apply exports_history|apply exportData_fs_only].
Qed.

Lemma download_keeps e filename : respects keeps (download e filename).
Proof.
  eapply respects_keeps_fs_only; [|apply download_fs_only]. tauto.
Qed.

Lemma initializeBackupDirectory_fs_only e :
  respects (fs_step (fun _ => False)) (initializeBackupDirectory e).
Proof. unfold initializeBackupDirectory. fs_only. Qed.

Lemma loadBackupHistory_eq e s :
  loadBackupHistory e s =
    match io_fail e (OpReadFile historyPath) with
    | Some _ => (Ok tt, set_history [] s, [s])
    | None =>
        match fs s !! historyPath with
        | Some (File (CHistory l)) =>
            (Ok tt,
             set_history (seq (List.length (heap s)) (List.length l))
                         (set_heap (heap s ++ l) s),
             [s])
        | _ => (Ok tt, set_history [] s, [s])
        end
    end.
Proof.
  unfold loadBackupHistory, try_catch, bind, readFile, await, parse_history, modify.
  destruct (io_fail e (OpReadFile historyPath)); [done|].
  destruct (fs s !! historyPath) as [[[]|]|]; done.
Qed.

Lemma loadBackupHistory_keeps e : respects keeps (loadBackupHistory e).
Proof.
  intros s. rewrite loadBackupHistory_eq.
  assert (keeps s (set_history [] s)) as Hempty.
  { intros [H1 H2]. split; [|done]. intros r Hr. simpl in Hr. by apply elem_of_nil in Hr. }
  assert (Forall (keeps s) [s]) as Hs by (constructor; [reflexivity|constructor]).
  destruct (io_fail e (OpReadFile historyPath)); [done|].
  destruct (fs s !! historyPath) as [[[text|data|l|entries]|]|] eqn:Hdoc; try done.
  split; [|done]. simpl. intros [H1 H2]. split; [|done].
  intros r Hr. simpl in *. apply elem_of_seq in Hr as [Hr1 Hr2].
  pose proof (H2 _ Hdoc) as Hterm.
  destruct (l !! (r - List.length (heap s))%nat) as [m|] eqn:Hm.
  - exists m. split.
    + rewrite lookup_app_r by lia. done.
    + eapply Forall_lookup_1; eauto.
  - apply lookup_ge_None in Hm. lia.
Qed.

Lemma startService_keeps e : respects keeps (startService e).
Proof.
  unfold startService.
  apply respects_bind; try exact _.
  - apply respects_try_catch; try exact _; [|intros _; apply respects_ret; exact _].
    eapply respects_keeps_fs_only; [|apply initializeBackupDirectory_fs_only]. tauto.
  - intros _. apply respects_bind; try exact _; [apply loadBackupHistory_keeps|].
    intros _. apply log_keeps.
Qed.

Lemma newService_Inv f : doc_ok f -> Inv (newService f).
Proof. intros H. split; [|done]. intros r Hr. simpl in Hr. by apply elem_of_nil in Hr. Qed.

Lemma run_keeps e a s :
  keeps s (run e a s).1 /\ Forall (keeps s) (run e a s).2.
Proof.
  destruct a as [|options| |options|filename|]; simpl.
  - destruct (startService_keeps e (newService (fs s))) as [H1 H2]. split.
    + intros HI. apply H1, newService_Inv, HI.
    + eapply Forall_impl; [exact H2|]. intros x Hx HI.
      apply Hx, newService_Inv, HI.
  - apply createFullBackup_keeps.
  - apply cleanupOldBackups_keeps.
  - apply exportData_keeps.
  - apply download_keeps.
  - split; [reflexivity|constructor].
Qed.

Lemma observable_Inv s : observable s -> Inv s.
Proof.
  induction 1 as [f Hf|e a s _ IH|e a s x _ IH Hx].
  - apply newService_Inv. intros l Hl. congruence.
  - by apply (run_keeps e a s).
  - destruct (run_keeps e a s) as [_ H]. rewrite Forall_forall in H. by apply (H x).
Qed.

(* ================================================================= *)
(** ** Sorting *)

Lemma sort_insert_perm {A} (cmp : A -> A -> Result Z) x l r :
  sort_insert cmp x l = Ok r -> r ≡ₚ x :: l.
Proof.
  revert r. induction l as [|y l IH]; intros r; simpl.
  - by intros [= <-].
  - destruct (cmp x y) as [c|]; simpl; [|done].
    destruct (c <=? 0)%Z; [by intros [= <-]|].
    destruct (sort_insert cmp x l) as [r'|]; simpl; [|done].
    intros [= <-]. rewrite (IH r' eq_refl). apply Permutation_swap.
Qed.

Lemma array_sort_perm {A} (cmp : A -> A -> Result Z) l r :
  array_sort cmp l = Ok r -> r ≡ₚ l.
Proof.
  revert r. induction l as [|x l IH]; intros r; simpl.
  - by intros [= <-].
  - destruct (array_sort cmp l) as [r'|]; simpl; [|done].
    intros H. rewrite (sort_insert_perm _ _ _ _ H). by rewrite (IH r' eq_refl).
Qed.

Lemma StronglySorted_mono {A} (R R' : A -> A -> Prop) l :
  (forall a b, R a b -> R' a b) -> StronglySorted R l -> StronglySorted R' l.
Proof.
  intros HR. induction 1 as [|x l _ IH Hx]; constructor; [done|].
  eapply Forall_impl; [exact Hx|]. intros b. apply HR.
Qed.

Section SortByKey.
Context {A : Type} (cmp : A -> A -> Result Z) (key : A -> Z) (P : A -> Prop).
Hypothesis cmp_key : forall a b, P a -> P b -> cmp a b = Ok (key a - key b).

Lemma sort_insert_sorted x l :
  P x -> Forall P l -> StronglySorted (key_le key) l ->
  exists r, sort_insert cmp x l = Ok r /\ StronglySorted (key_le key) r.
Proof.
  intros Hx. induction l as [|y l IH]; intros HP Hs; simpl.
  - exists [x]. split; [done|]. repeat constructor.
  - apply Forall_cons in HP as [Hy HP].
    apply StronglySorted_inv in Hs as [Hs Hyl].
    rewrite cmp_key by done. simpl.
    destruct (key x - key y <=? 0)%Z eqn:Hc.
    + exists (x :: y :: l). split; [done|].
      apply Z.leb_le in Hc.
      constructor; [by constructor|]. constructor; [unfold key_le; lia|].
      eapply Forall_impl; [exact Hyl|]. unfold key_le. intros z. lia.
    + apply Z.leb_gt in Hc.
      destruct (IH HP Hs) as (r & Hr & Hsr). rewrite Hr. simpl.
      exists (y :: r). split; [done|]. constructor; [done|].
      rewrite (sort_insert_perm _ _ _ _ Hr).
      constructor; [unfold key_le; lia | done].
Qed.

Lemma array_sort_sorted l :
  Forall P l ->
  exists r, array_sort cmp l = Ok r /\ StronglySorted (key_le key) r /\ r ≡ₚ l.
Proof.
  induction l as [|x l IH]; intros HP; simpl.
  - exists []. repeat split; constructor.
  - apply Forall_cons in HP as [Hx HP].
    destruct (IH HP) as (r' & Hr' & Hs' & Hp'). rewrite Hr'. simpl.
    destruct (sort_insert_sorted x r' Hx) as (r & Hr & Hs); [by rewrite Hp'|done|].
    exists r. split; [done|]. split; [done|].
    rewrite (sort_insert_perm _ _ _ _ Hr). by rewrite Hp'.
Qed.
End SortByKey.

Lemma oldest_first_dates h a b :
  is_date h a -> is_date h b -> oldest_first h a b = Ok (time_of h a - time_of h b).
Proof.
  intros [ta Ha] [tb Hb]. unfold oldest_first, time_of. by rewrite Ha, Hb.
Qed.

Lemma newest_first_dates h a b :
  is_date h a -> is_date h b ->
  newest_first h a b = Ok ((- time_of h a) - (- time_of h b)).
Proof.
  intros [ta Ha] [tb Hb]. unfold newest_first, time_of. rewrite Ha, Hb. simpl.
  f_equal. lia.
Qed.

(** With [Date] timestamps [getBackupHistory] returns the references of
    the history, newest first. *)
Lemma getBackupHistory_newest_first s :
  Forall (is_date (heap s)) (backupHistory s) ->
  exists l, getBackupHistory s = Ok l /\
            l ≡ₚ backupHistory s /\
            StronglySorted (fun a b => (time_of (heap s) b <= time_of (heap s) a)%Z) l.
Proof.
  intros Hd. unfold getBackupHistory.
  destruct (array_sort_sorted (newest_first (heap s))
              (fun r => - time_of (heap s) r) (is_date (heap s))
              (newest_first_dates (heap s)) _ Hd) as (l & Hl & Hs & Hp).
  exists l. split; [done|]. split; [done|].
  eapply StronglySorted_mono; [|exact Hs]. unfold key_le. intros a b. lia.
Qed.

(* ================================================================= *)
(** ** History: terminal records, append-only, listing *)

(** C10.  In every state that a request can find - after any sequence of
    calls and restarts, and at every suspension point of a call - each
    reference of the history points to a record whose status is not
    [Pending]; so does every record of the history document on disk, and
    every reference that [getBackupHistory] returns.  The pending
    [metadata] object of a run is in the heap only. *)
Theorem history_records_terminal s :
  observable s ->
  (forall r, r ∈ backupHistory s ->
     exists m, heap s !! r = Some m /\ BackupMetadata.status m <> Pending) /\
  (forall l, fs s !! historyPath = Some (File (CHistory l)) ->
     forall m, m ∈ l -> BackupMetadata.status m <> Pending) /\
  (forall l, getBackupHistory s = Ok l ->
     forall r, r ∈ l -> BackupMetadata.status (deref (heap s) r) <> Pending).
Proof.
  intros Hobs. destruct (observable_Inv s Hobs) as [H1 H2].
  split; [exact H1|]. split.
  - intros l Hl m Hm. specialize (H2 l Hl). rewrite Forall_forall in H2. by apply H2.
  - intros l Hl r Hr. apply array_sort_perm in Hl. rewrite Hl in Hr.
    destruct (H1 r Hr) as (m & Hm & Ht). unfold deref. by rewrite Hm.
Qed.

Lemma history_records_terminal_witness :
  observable afterTwoBackups /\
  (forall r, r ∈ backupHistory afterTwoBackups ->
     exists m, heap afterTwoBackups !! r = Some m /\
               BackupMetadata.status m <> Pending).
Proof.
  assert (observable afterTwoBackups) as Hobs.
  { unfold afterTwoBackups. apply obs_done, obs_done, obs_new. reflexivity. }
  split; [exact Hobs|]. apply (history_records_terminal afterTwoBackups Hobs).
Defined.

(** The records of the history before a run are the same objects, with
    the same contents, after it: a run only adds one reference, to its own
    new object. *)
Lemma createFullBackup_append_only e options s :
  isBackupRunning s = false ->
  let s' := (createFullBackup e options s).1.2 in
  backupHistory s' = backupHistory s ++ [List.length (heap s)] /\
  (forall r, (r < List.length (heap s))%nat -> heap s' !! r = heap s !! r).
Proof.
  intros Hfree. simpl. rewrite createFullBackup_run by done.
  pose proof (produceArtifact_mem_eq e options (backupIdOf e) (acquired e s))
    as [(_&_&Hheap&Hhist) _].
  destruct (produceArtifact e options (backupIdOf e) (acquired e s))
    as [[[a|error] s1] t1]; simpl in *.
  - destruct (saveBackupHistory_mem_eq e
                (recorded (List.length (heap s)) (complete a.1.1 a.1.2 a.2) s1))
      as [(_&_&Hh&Hl) _].
    rewrite Hh, Hl. simpl. rewrite Hheap, Hhist. simpl.
    rewrite deref_fresh, insert_fresh. split; [done|].
    intros r Hr. by rewrite lookup_app_l.
  - destruct (saveBackupHistory_mem_eq e
                (recorded (List.length (heap s)) (fail error) s1))
      as [(_&_&Hh&Hl) _].
    rewrite Hh, Hl. simpl. rewrite Hheap, Hhist. simpl.
    rewrite deref_fresh, insert_fresh. split; [done|].
    intros r Hr. by rewrite lookup_app_l.
Qed.

(** C8.  After two backups and a restart the history holds the two
    records read back from [backup-history.json]; their timestamps are
    strings, the comparator of [getBackupHistory] calls [getTime] on them,
    and the call throws instead of returning the records newest first. *)
Theorem getBackupHistory_after_restart :
  map BackupMetadata.timestamp (records restarted) = [IsoString 1000; IsoString 2000] /\
  getBackupHistory restarted = Throw (JsError "timestamp.getTime is not a function").
Proof. split; vm_compute; reflexivity. Qed.

(* ================================================================= *)
(** ** A failed write of the history document *)

(** C5, as stated, fails: the write of [backup-history.json] is rejected,
    yet the run returns its record, with status [Completed], and the
    caller gets no error. *)
Lemma history_write_failure_counterexample :
  let e := shop (only (OpWriteFile historyPath) EACCES) 1000 in
  let run := createFullBackup e defaultOptions (newService ∅) in
  io_fail e (OpWriteFile historyPath) = Some EACCES /\
  run.1.1 = Ok 0%nat /\
  map BackupMetadata.status (records run.1.2) = [Completed] /\
  fs run.1.2 !! historyPath = None.
Proof. repeat split; vm_compute; reflexivity. Qed.

(** C5, amended.  When the write of the history document is rejected,
    [saveBackupHistory] logs the error and the run goes on as if it had
    been written: a run whose steps succeed returns its record, completed
    and appended to the in-memory history; the only error a run throws is
    the one of a step of its [try] block; and no history document is
    written. *)
Theorem history_write_failure_swallowed e options s error :
  isBackupRunning s = false ->
  io_fail e (OpWriteFile historyPath) = Some error ->
  let run := createFullBackup e options s in
  (forall a s1 t1,
     produceArtifact e options (backupIdOf e) (acquired e s) = (Ok a, s1, t1) ->
     run.1.1 = Ok (List.length (heap s)) /\
     heap run.1.2 = heap s ++ [complete a.1.1 a.1.2 a.2 (pendingRecord e)] /\
     backupHistory run.1.2 = backupHistory s ++ [List.length (heap s)]) /\
  (forall error', run.1.1 = Throw error' ->
     exists s1 t1,
       produceArtifact e options (backupIdOf e) (acquired e s) = (Throw error', s1, t1)) /\
  LogError "Failed to save backup history:" error ∈ logs run.1.2 /\
  (forall c, fs run.1.2 !! historyPath = Some (File c) ->
             fs s !! historyPath = Some (File c)).
Proof.
  intros Hfree Hfail run. subst run. rewrite createFullBackup_run by done.
  pose proof (produceArtifact_fs_only e options (backupIdOf e) (acquired e s))
    as [[(_&_&Hheap&Hhist) [Hg _]] _].
  assert (forall s1 c, fs_grow (run_region (backupIdOf e)) (fs s) (fs s1) ->
            fs s1 !! historyPath = Some (File c) ->
            fs s !! historyPath = Some (File c)) as Hdoc.
  { intros s1 c Hgrow Hc. destruct (Hgrow historyPath) as [E|[[_ E]|HW]].
    - by rewrite <- E.
    - congruence.
    - by apply run_region_history in HW. }
  destruct (produceArtifact e options (backupIdOf e) (acquired e s))
    as [[[a|err] s1] t1]; simpl in *;
    rewrite saveBackupHistory_eq, Hfail; simpl;
    rewrite Hheap, Hhist; simpl; rewrite deref_fresh, insert_fresh.
  - split; [by intros a' s1' t1' [= <- <- <-]|].
    split; [by intros error' [=]|].
    split; [set_solver|]. intros c. by apply Hdoc.
  - split; [by intros a' s1' t1' [=]|].
    split; [intros error' [= <-]; eauto|].
    split; [set_solver|]. intros c. by apply Hdoc.
Qed.

Lemma history_write_failure_swallowed_witness :
  let e := shop (only (OpWriteFile historyPath) EACCES) 1000 in
  isBackupRunning (newService ∅) = false /\
  io_fail e (OpWriteFile historyPath) = Some EACCES /\
  LogError "Failed to save backup history:" EACCES
    ∈ logs (createFullBackup e defaultOptions (newService ∅)).1.2.
Proof.
  split; [reflexivity|]. split; [reflexivity|].
  apply (history_write_failure_swallowed
           (shop (only (OpWriteFile historyPath) EACCES) 1000)
           defaultOptions (newService ∅) EACCES eq_refl eq_refl).
Defined.

Lemma createFullBackup_in_progress_witness :
  isBackupRunning midBackup = true /\
  createFullBackup (shop quiet 2000) defaultOptions midBackup
    = (Throw backupInProgress, midBackup, []).
Proof.
  split; [reflexivity|].
  apply (createFullBackup_in_progress (shop quiet 2000) defaultOptions midBackup eq_refl).
Defined.


(* ================================================================= *)
(** ** ExportEngine *)

(** Use a hypothesis [H : io_fail e op = None] on the oracle call of the
    goal, whatever the shape in which the operation is written there. *)
Ltac oracle_quiet H :=
  match goal with
  | |- context [io_fail ?e ?op] =>
      let E := fresh "E" in
      destruct (io_fail e op) eqn:E;
      [ exfalso; pose proof (eq_trans (eq_sym E) H) as E'; discriminate E' | clear E ]
  end.

(** C9, as stated, fails: the file written for the two products does not
    end with a newline. *)
Lemma csv_trailing_newline_counterexample :
  let e := shop quiet 1000 in
  let run := exportData e csvProducts (newService ∅) in
  let filePath := exportDirOf e csvProducts ++ ["products.csv"] in
  products e = coffeeAndTea /\
  run.1.1 = Ok filePath /\
  exists text,
    fs run.1.2 !! filePath = Some (File (CText text)) /\
    text <> "id,name" +:+ newline +:+ "1,Coffee" +:+ newline +:+ "2,Tea" +:+ newline.
Proof.
  split; [reflexivity|]. split; [vm_compute; reflexivity|].
  exists ("id,name" +:+ newline +:+ "1,Coffee" +:+ newline +:+ "2,Tea").
  split; [vm_compute; reflexivity|]. vm_compute. discriminate.
Qed.

(** C9, amended.  With the products [{id:1,name:Coffee}] and
    [{id:2,name:Tea}], a CSV export of [products] whose directory and file
    can be written returns the path of [products.csv] in the new export
    directory, and that file holds the header [id,name] and the rows
    [1,Coffee] and [2,Tea], in storage order, separated by newlines, with
    no newline after the last row. *)
Theorem csv_scenario e s :
  products e = coffeeAndTea ->
  io_fail e (OpMkdir (exportDirOf e csvProducts)) = None ->
  io_fail e (OpWriteFile (exportDirOf e csvProducts ++ ["products.csv"])) = None ->
  let run := exportData e csvProducts s in
  run.1.1 = Ok (exportDirOf e csvProducts ++ ["products.csv"]) /\
  fs run.1.2 !! (exportDirOf e csvProducts ++ ["products.csv"])
    = Some (File (CText ("id,name" +:+ newline +:+ "1,Coffee" +:+ newline +:+ "2,Tea"))).
Proof.
  intros Hproducts Hmkdir Hwrite.
  unfold exportData, exportToCSV, try_catch, bind, log, modify, mkdir, writeFile,
    await, ret.
  simpl. oracle_quiet Hmkdir. simpl. oracle_quiet Hwrite. simpl.
  split; [done|]. unfold exportDirOf. simpl.
  rewrite lookup_insert_eq. by rewrite Hproducts.
Qed.

Lemma csv_scenario_witness :
  let e := shop quiet 1000 in
  products e = coffeeAndTea /\
  (exportData e csvProducts (newService ∅)).1.1
    = Ok ["backups"; "exports"; "export_products_1000"; "products.csv"].
Proof.
  split; [reflexivity|].
  apply (csv_scenario (shop quiet 1000) (newService ∅) eq_refl eq_refl eq_refl).
Defined.

(** [getProductsData] filters on exact matches, then projects. *)
Lemma getProductsData_pipeline products options :
  getProductsData products options =
    let kept := match filters options with
                | Some flt => List.filter (matches_filters flt) products
                | None => products
                end in
    match fields options with
    | Some flds => map (project flds) kept
    | None => kept
    end.
Proof. reflexivity. Qed.

Lemma matches_filters_spec flt item :
  matches_filters flt item = true <->
  forall key value, (key, value) ∈ flt -> strict_eq (obj_get key item) value = true.
Proof.
  unfold matches_filters. rewrite forallb_forall. split.
  - intros H key value Hin. apply (H (key, value)). by apply list_elem_of_In.
  - intros H [key value] Hin. apply H. by apply list_elem_of_In.
Qed.

Lemma obj_set_keys key v r k :
  k ∈ obj_keys (obj_set key v r) <-> k ∈ obj_keys r \/ k = key.
Proof.
  unfold obj_keys. induction r as [|[k' w] r IH]; simpl.
  - set_solver.
  - destruct (String.eqb_spec k' key) as [->|Hne]; simpl.
    + set_solver.
    + destruct (goes_before key k'); simpl.
      * rewrite !elem_of_cons. tauto.
      * rewrite !elem_of_cons, IH. tauto.
Qed.

(** The keys of a projected record are the requested fields, except
    [__proto__], which is never an own key. *)
Lemma project_keys flds item k :
  k ∈ obj_keys (project flds item) <-> k ∈ flds /\ k <> "__proto__".
Proof.
  unfold project.
  assert (forall acc,
            k ∈ obj_keys (fold_left
                            (fun filtered field =>
                               assign field (obj_get field item) filtered) flds acc)
            <-> k ∈ obj_keys acc \/ (k ∈ flds /\ k <> "__proto__")) as H.
  { induction flds as [|f flds IH]; intros acc; cbn [fold_left].
    - set_solver.
    - rewrite IH. unfold assign.
      destruct (String.eqb_spec f "__proto__") as [->|Hne].
      + rewrite elem_of_cons. split; [tauto|]. intros [?|[[Heq|?] ?]]; [tauto|congruence|tauto].
      + rewrite obj_set_keys, elem_of_cons. split; [|tauto].
        intros [[?|Heq]|?]; [tauto| |tauto]. subst k. tauto. }
  rewrite H. unfold obj_keys. simpl. set_solver.
Qed.

(** For [products] the projection holds: every exported record has the
    requested fields as its keys ([__proto__] apart). *)
Lemma getProductsData_projection products options flds item k :
  fields options = Some flds ->
  item ∈ getProductsData products options ->
  k ∈ obj_keys item <-> k ∈ flds /\ k <> "__proto__".
Proof.
  intros Hf Hitem. rewrite getProductsData_pipeline, Hf in Hitem. simpl in Hitem.
  apply list_elem_of_fmap in Hitem as (item0 & -> & _). apply project_keys.
Qed.

(** C6.  [fields = ["id"]] is given, yet the record exported for [sales]
    keeps its key [total]: [getSalesData] has no projection step.  And
    [getInventoryData] reads no option at all: with the filter
    [name = Coffee] and [fields = ["id"]] it still returns one nine-key
    record per product, Tea included. *)
Theorem export_ignores_fields :
  let e := shop quiet 1000 in
  let run := exportData e salesById (newService ∅) in
  getSalesData (dateOf e) (sales e) salesById = [ [("id", VNum 7); ("total", VNum 5)] ] /\
  fs run.1.2 !! (exportDirOf e salesById ++ ["sales.json"])
    = Some (File (CRecords [ [("id", VNum 7); ("total", VNum 5)] ])) /\
  map obj_keys (getInventoryData (products e) inventoryOfCoffee)
    = [ ["id"; "name"; "category"; "currentStock"; "barcode"; "cost"; "price";
         "supplierId"; "minStockLevel"];
        ["id"; "name"; "category"; "currentStock"; "barcode"; "cost"; "price";
         "supplierId"; "minStockLevel"] ] /\
  map (obj_get "name") (getInventoryData (products e) inventoryOfCoffee)
    = [VStr "Coffee"; VStr "Tea"].
Proof. repeat split; vm_compute; reflexivity. Qed.

(* ================================================================= *)
(** ** DownloadResolver: the check of the name and the loop *)

Lemma prefix_spec n h : String.prefix n h = true <-> exists b, h = n +:+ b.
Proof.
  revert h. induction n as [|c n IH]; intros h; simpl.
  - split; [intros _; by exists h | by destruct h].
  - destruct h as [|c' h].
    { split; [done|]. intros [b Hb]. discriminate Hb. }
    simpl. destruct (ascii_dec c c') as [->|Hne].
    + rewrite IH. split; intros [b Hb]; exists b.
      * by rewrite Hb.
      * change (String c' h = String c' (n +:+ b)) in Hb. congruence.
    + split; [done|]. intros [b Hb].
      change (String c' h = String c (n +:+ b)) in Hb. congruence.
Qed.

(** [includes needle hay] holds exactly when [needle] occurs in [hay]. *)
Lemma includes_spec n h :
  includes n h = true <-> exists a b, h = a +:+ n +:+ b.
Proof.
  induction h as [|c h IH].
  - change (includes n "") with (String.prefix n "" || false).
    rewrite orb_false_r, prefix_spec. split.
    + intros [b Hb]. by exists "", b.
    + intros ([|c a] & b & Hb); [by exists b|discriminate Hb].
  - change (includes n (String c h)) with (String.prefix n (String c h) || includes n h).
    rewrite orb_true_iff, prefix_spec, IH. split.
    + intros [[b Hb]|(a & b & Hab)].
      * by exists "", b.
      * exists (String c a), b. by rewrite Hab.
    + intros ([|c' a] & b & Hab).
      * left. by exists b.
      * right. change (String c h = String c' (a +:+ n +:+ b)) in Hab.
        injection Hab as -> ->. by exists a, b.
Qed.

Lemma access_result e p s :
  (access e p s).1.2 = s /\
  ((access e p s).1.1 = Ok tt <-> accessible e s p = true) /\
  (accessible e s p = false -> exists error, (access e p s).1.1 = Throw error).
Proof.
  unfold access, await, accessible.
  destruct (io_fail e (OpAccess p)) as [error|]; simpl.
  - split; [done|]. split; [done|]. eauto.
  - destruct (fs s !! p); simpl; split; try done; split; try done; eauto.
Qed.

Lemma searchExports_result e filename dirs s :
  exists t,
    searchExports e filename dirs s
      = (Ok (head (filter (fun p => accessible e s p = true)
                          (map (fun dir => ["backups"; "exports"; dir; filename]) dirs))),
         s, t).
Proof.
  induction dirs as [|dir rest IH]; simpl; [by exists []|].
  destruct (access_result e ["backups"; "exports"; dir; filename] s) as (Hs & Hok & Hno).
  unfold bind at 1, try_catch at 1, bind at 1.
  destruct (access e ["backups"; "exports"; dir; filename] s) as [[[[]|error] s1] t1];
    simpl in *; subst s1.
  - rewrite filter_cons_True by (by apply Hok). eauto.
  - rewrite filter_cons_False.
    + destruct IH as [t IH]. rewrite IH. eauto.
    + intros Hacc. apply Hok in Hacc. done.
Qed.

(* ================================================================= *)
(** ** Partial snapshots *)

Lemma res_bind {A B} (m : M A) (f : A -> M B) s a :
  res m s = Ok a -> res (bind m f) s = res (f a) (post m s).
Proof.
  unfold res, post, bind. destruct (m s) as [[[a'|error] s1] t1]; simpl; [|done].
  intros [= ->]. by destruct (f a s1) as [[??]?].
Qed.

Lemma post_bind {A B} (m : M A) (f : A -> M B) s a :
  res m s = Ok a -> post (bind m f) s = post (f a) (post m s).
Proof.
  unfold res, post, bind. destruct (m s) as [[[a'|error] s1] t1]; simpl; [|done].
  intros [= ->]. by destruct (f a s1) as [[??]?].
Qed.

Lemma res_try_catch {A} (m : M A) h s a :
  res m s = Ok a -> res (try_catch m h) s = Ok a.
Proof.
  unfold res, try_catch. destruct (m s) as [[[a'|error] s1] t1]; simpl; [|done].
  by intros [= ->].
Qed.

Lemma post_try_catch {A} (m : M A) h s a :
  res m s = Ok a -> post (try_catch m h) s = post m s.
Proof.
  unfold res, post, try_catch. by destruct (m s) as [[[a'|error] s1] t1].
Qed.

(** A handler that only logs makes the block succeed. *)
Lemma res_swallow (m : M unit) (h : Exn -> LogEntry) s :
  res (try_catch m (fun error => log (h error))) s = Ok tt.
Proof.
  unfold res, try_catch. by destruct (m s) as [[[[]|error] s1] t1].
Qed.

Lemma post_respects {A} R (m : M A) s : respects R m -> R s (post m s).
Proof. intros H. apply H. Qed.

Lemma fs_grow_keep (W : Path -> Prop) f f' p n :
  fs_grow W f f' -> ~ W p -> f !! p = Some n -> f' !! p = Some n.
Proof.
  intros Hg HW Hp. destruct (Hg p) as [E|[[E _]|?]]; [congruence|congruence|done].
Qed.

Lemma elem_of_prefix {A} (l1 l2 : list A) x : l1 `prefix_of` l2 -> x ∈ l1 -> x ∈ l2.
Proof. intros [k ->] Hx. apply elem_of_app. by left. Qed.

Lemma mkdir_p_creates p : forall base f,
  p <> [] -> is_Some (mkdir_p base p f !! (base ++ p)).
Proof.
  induction p as [|seg rest IH]; intros base f Hp; [done|]. simpl.
  destruct rest as [|seg' rest'].
  - simpl. unfold add_dir. destruct (f !! (base ++ [seg])) eqn:E; [by rewrite E|].
    by rewrite lookup_insert_eq.
  - specialize (IH (base ++ [seg]) (add_dir (base ++ [seg]) f)).
    rewrite <- app_assoc in IH. by apply IH.
Qed.

Lemma archive_entries_elem source f rel c :
  f !! (source ++ rel) = Some (File c) -> (rel, c) ∈ archive_entries source f.
Proof.
  intros H. unfold archive_entries. apply list_elem_of_omap.
  exists (source ++ rel, File c). split; [by apply elem_of_map_to_list|].
  simpl. rewrite decide_True by (by apply prefix_app_r).
  by rewrite drop_app_length.
Qed.

Section Quiet.
Context (e : Env).

Lemma mkdir_quiet p s :
  io_fail e (OpMkdir p) = None ->
  res (mkdir e p) s = Ok tt /\
  post (mkdir e p) s = set_fs (mkdir_p [] p (fs s)) s.
Proof. intros H. unfold res, post, mkdir, await. by rewrite H. Qed.

Lemma createArchive_quiet source name s :
  io_fail e (OpArchive source) = None ->
  io_fail e (OpWriteStream (backupDir ++ [name])) = None ->
  res (createArchive e source name) s = Ok (backupDir ++ [name]) /\
  fs (post (createArchive e source name) s)
    = <[backupDir ++ [name] := File (CArchive (archive_entries source (fs s)))]> (fs s) /\
  logs s `prefix_of` logs (post (createArchive e source name) s).
Proof.
  intros H Hout. unfold res, post, createArchive, await. rewrite H. cbn beta zeta.
  rewrite Hout. simpl. repeat split. by apply prefix_app_r.
Qed.

Lemma rm_quiet p force s n :
  io_fail e (OpRm p) = None -> fs s !! p = Some n ->
  res (rm e p force) s = Ok tt /\
  post (rm e p force) s = set_fs (rm_rf p (fs s)) s.
Proof. intros H Hp. unfold res, post, rm, await. by rewrite H, Hp. Qed.

Lemma stat_quiet p s n :
  io_fail e (OpStat p) = None -> fs s !! p = Some n ->
  res (stat e p) s = Ok (fileSize e n) /\ post (stat e p) s = s.
Proof. intros H Hp. unfold res, post, stat, await. by rewrite H, Hp. Qed.

Lemma calculateChecksum_quiet p s c :
  io_fail e (OpChecksum p) = None -> fs s !! p = Some (File c) ->
  res (calculateChecksum e p) s = Ok (sha256 e c) /\
  post (calculateChecksum e p) s = s.
Proof. intros H Hp. unfold res, post, calculateChecksum, await. by rewrite H, Hp. Qed.

(** One collection: written, or logged and skipped. *)
Lemma exportCollection_eq backupPath name data s :
  exportCollection e backupPath (name, data) s =
    match io_fail e (OpStringify name) with
    | Some error =>
        (Ok tt, add_log (LogError ("Failed to export " +:+ name +:+ ":") error) s, [])
    | None =>
        match io_fail e (OpWriteFile (backupPath ++ [name +:+ ".json"])) with
        | Some error =>
            (Ok tt, add_log (LogError ("Failed to export " +:+ name +:+ ":") error) s,
             [s])
        | None =>
            let s1 := set_fs (<[backupPath ++ [name +:+ ".json"] := File (CRecords data)]>
                                (fs s)) s in
            (Ok tt,
             add_log (LogInfo ("Exported " +:+ name +:+ ": "
                               +:+ pretty (List.length data) +:+ " documents")) s1,
             [s1])
        end
    end.
Proof.
  unfold exportCollection, try_catch, bind, stringify, writeFile, await, log, modify.
  simpl. destruct (io_fail e (OpStringify name)); [done|].
  by destruct (io_fail e (OpWriteFile _)).
Qed.

Lemma exportCollection_fs_only backupPath collection :
  respects (fs_step (eq (backupPath ++ [collection.1 +:+ ".json"])))
           (exportCollection e backupPath collection).
Proof. unfold exportCollection. fs_only. done. Qed.

Lemma export_loop_fs_only backupPath l :
  respects (fs_step (snapshot_files backupPath l))
           (for_each l (exportCollection e backupPath)).
Proof.
  apply respects_for_each; [exact _|]. intros c Hc.
  eapply respects_fs_step_mono; [|apply exportCollection_fs_only].
  intros p <-. by exists c.
Qed.

Lemma export_loop backupPath l : forall s,
  NoDup (map (fun c => c.1 +:+ ".json") l) ->
  let s' := post (for_each l (exportCollection e backupPath)) s in
  res (for_each l (exportCollection e backupPath)) s = Ok tt /\
  (forall name data,
     (name, data) ∈ l ->
     io_fail e (OpStringify name) = None ->
     io_fail e (OpWriteFile (backupPath ++ [name +:+ ".json"])) = None ->
     fs s' !! (backupPath ++ [name +:+ ".json"]) = Some (File (CRecords data))) /\
  (forall name data error,
     (name, data) ∈ l ->
     io_fail e (OpStringify name) = Some error \/
     (io_fail e (OpStringify name) = None /\
      io_fail e (OpWriteFile (backupPath ++ [name +:+ ".json"])) = Some error) ->
     LogError ("Failed to export " +:+ name +:+ ":") error ∈ logs s').
Proof.
  induction l as [|[name0 data0] l IH]; intros s Hnd; simpl.
  { split; [done|]. split; intros; by match goal with H : _ ∈ [] |- _ =>
      apply elem_of_nil in H end. }
  apply NoDup_cons in Hnd as [Hfresh Hnd].
  assert (res (exportCollection e backupPath (name0, data0)) s = Ok tt) as Hres.
  { unfold res. rewrite exportCollection_eq.
    destruct (io_fail e (OpStringify name0)); [done|].
    by destruct (io_fail e (OpWriteFile _)). }
  rewrite (res_bind _ _ _ tt Hres), (post_bind _ _ _ tt Hres).
  set (s1 := post (exportCollection e backupPath (name0, data0)) s).
  destruct (IH s1 Hnd) as (IH1 & IH2 & IH3).
  pose proof (post_respects _ _ s1 (export_loop_fs_only backupPath l))
    as (_ & Hgrow & Hlogs).
  split; [done|]. split.
  - intros name data Hin Hs Hw. apply elem_of_cons in Hin as [[= -> ->]|Hin].
    + eapply fs_grow_keep; [exact Hgrow| |].
      * intros (c & Hc & Hp). apply app_inv_head in Hp. injection Hp as Hp.
        apply Hfresh. apply list_elem_of_fmap. exists c. by split.
      * subst s1. unfold post. rewrite exportCollection_eq, Hs, Hw. simpl.
        by rewrite lookup_insert_eq.
    + by apply (IH2 name data).
  - intros name data error Hin Hfail. apply elem_of_cons in Hin as [[= -> ->]|Hin].
    + eapply elem_of_prefix; [exact Hlogs|].
      subst s1. unfold post. rewrite exportCollection_eq.
      destruct Hfail as [->|[-> ->]]; simpl.
      * apply elem_of_app. right. by left.
      * apply elem_of_app. right. by left.
    + by apply (IH3 name data).
Qed.
End Quiet.

Lemma run_ok_bind {A B} (m : M A) (f : A -> M B) s a s1 b s2 :
  run_ok m s a s1 -> run_ok (f a) s1 b s2 -> run_ok (bind m f) s b s2.
Proof.
  intros [H1 <-] [H2 <-]. split.
  - by rewrite (res_bind _ _ _ a).
  - by rewrite (post_bind _ _ _ a).
Qed.

Lemma run_ok_ret {A} (a : A) s : run_ok (ret a) s a s.
Proof. done. Qed.

Lemma run_ok_try_catch {A} (m : M A) h s a s1 :
  run_ok m s a s1 -> run_ok (try_catch m h) s a s1.
Proof.
  intros [H1 <-]. split; [by apply res_try_catch|by apply (post_try_catch _ _ _ a)].
Qed.

Lemma not_below_longer (D : Path) x : ~ below (D ++ [x]) D.
Proof.
  intros H. apply prefix_length in H. rewrite length_app in H. simpl in H. lia.
Qed.

Lemma not_below_sibling (D : Path) a b k : a <> b -> ~ below (D ++ [a]) ((D ++ [b]) ++ k).
Proof.
  intros Hne H. unfold below in H. rewrite <- app_assoc in H.
  apply prefix_app_inv in H. destruct H as [k' Hk]. simpl in Hk. congruence.
Qed.

Lemma string_length_app a b :
  String.length (a +:+ b) = (String.length a + String.length b)%nat.
Proof.
  induction a as [|c a IH]; [done|].
  change (S (String.length (a +:+ b)) = S (String.length a + String.length b)).
  by rewrite IH.
Qed.

Lemma archive_not_staging e : archiveOf e <> stagingOf e.
Proof.
  unfold archiveOf, stagingOf. intros H. apply app_inv_head in H.
  injection H as H. apply (f_equal String.length) in H.
  rewrite string_length_app in H. simpl in H. lia.
Qed.

Lemma archive_not_below_staging e : ~ below (stagingOf e) (archiveOf e).
Proof.
  intros H. apply (archive_not_staging e). symmetry.
  apply prefix_length_eq; [exact H|]. done.
Qed.

Lemma archive_not_history e : archiveOf e <> historyPath.
Proof.
  unfold archiveOf, historyPath, backupDir, backupIdOf. simpl.
  intros H. injection H as H. discriminate.
Qed.

Section PartialSnapshot.
Context (e : Env) (Hquiet : only_snapshots_fail e).

Lemma quiet_op op :
  (forall name, op <> OpStringify name) ->
  (forall p, op <> OpWriteFile p) ->
  io_fail e op = None.
Proof.
  intros H1 H2. destruct (io_fail e op) as [error|] eqn:E; [|done].
  destruct (Hquiet op error E) as [name [->| ->]]; [by destruct (H1 name)|].
  by destruct (H2 (snapshotOf e name)).
Qed.

Lemma snapshot_names_NoDup : NoDup (map (fun c => c.1 +:+ ".json") (collectionsOf e)).
Proof. apply (bool_decide_unpack _). by vm_compute. Qed.

Lemma backupDatabase_result s :
  let s' := post (backupDatabase e (stagingOf e)) s in
  res (backupDatabase e (stagingOf e)) s = Ok tt /\
  (forall name data,
     (name, data) ∈ collectionsOf e ->
     io_fail e (OpStringify name) = None ->
     io_fail e (OpWriteFile (snapshotOf e name)) = None ->
     fs s' !! snapshotOf e name = Some (File (CRecords data))) /\
  (forall name data error,
     (name, data) ∈ collectionsOf e ->
     io_fail e (OpStringify name) = Some error \/
     (io_fail e (OpStringify name) = None /\
      io_fail e (OpWriteFile (snapshotOf e name)) = Some error) ->
     LogError ("Failed to export " +:+ name +:+ ":") error ∈ logs s').
Proof.
  destruct (mkdir_quiet e (stagingOf e ++ ["database"]) s) as [Hm1 Hm2].
  { by apply quiet_op. }
  set (sM := post (mkdir e (stagingOf e ++ ["database"])) s) in *.
  destruct (export_loop e (stagingOf e ++ ["database"]) (collectionsOf e) sM
              snapshot_names_NoDup) as (Hl1 & Hl2 & Hl3).
  set (sL := post (for_each (collectionsOf e)
                     (exportCollection e (stagingOf e ++ ["database"]))) sM) in *.
  assert (run_ok (backupDatabase e (stagingOf e)) s tt
            (add_log (LogInfo "Database export as JSON completed") sL)) as [Hr Hp].
  { unfold backupDatabase. apply run_ok_try_catch.
    eapply run_ok_bind; [split; [exact Hm1|reflexivity]|].
    eapply run_ok_bind.
    { unfold exportCollectionsAsJSON. cbv zeta. split; [exact Hl1|reflexivity]. }
    done. }
  simpl. rewrite Hp. split; [done|]. split.
  - intros name data Hin Hs Hw. simpl. by apply (Hl2 name data).
  - intros name data error Hin Hfail. simpl. apply elem_of_app. left.
    by apply (Hl3 name data).
Qed.

Lemma backupFiles_ok s : res (backupFiles e (stagingOf e)) s = Ok tt.
Proof.
  unfold backupFiles. apply res_try_catch.
  destruct (mkdir_quiet e (stagingOf e ++ ["files"]) s) as [Hm1 Hm2].
  { by apply quiet_op. }
  rewrite (res_bind _ _ _ tt Hm1). apply res_swallow.
Qed.

Lemma backupLogs_ok s : res (backupLogs e (stagingOf e)) s = Ok tt.
Proof.
  unfold backupLogs. apply res_try_catch.
  destruct (mkdir_quiet e (stagingOf e ++ ["logs"]) s) as [Hm1 Hm2].
  { by apply quiet_op. }
  rewrite (res_bind _ _ _ tt Hm1). apply res_swallow.
Qed.

Lemma when_ok b (m : M unit) s :
  (forall s, res m s = Ok tt) -> res (when b m) s = Ok tt.
Proof. intros H. destruct b; simpl; [apply H|done]. Qed.

(** With the database included and compression on, the steps of the
    [try] block succeed and leave an archive that holds the snapshot of
    every collection that could be written. *)
Lemma produceArtifact_partial options s :
  not_false (BackupOptions.includeDatabase options) = true ->
  not_false (BackupOptions.compression options) = true ->
  exists entries size checksum s1,
    run_ok (produceArtifact e options (backupIdOf e)) s
           (archiveOf e, size, checksum) s1 /\
    fs s1 !! archiveOf e = Some (File (CArchive entries)) /\
    (forall name data,
       (name, data) ∈ collectionsOf e ->
       io_fail e (OpStringify name) = None ->
       io_fail e (OpWriteFile (snapshotOf e name)) = None ->
       (["database"; name +:+ ".json"], CRecords data) ∈ entries) /\
    (forall name data error,
       (name, data) ∈ collectionsOf e ->
       io_fail e (OpStringify name) = Some error \/
       (io_fail e (OpStringify name) = None /\
        io_fail e (OpWriteFile (snapshotOf e name)) = Some error) ->
       LogError ("Failed to export " +:+ name +:+ ":") error ∈ logs s1).
Proof.
  intros Hdb Hzip.
  set (sA := add_log (LogInfo ("Starting full backup: " +:+ backupIdOf e)) s).
  destruct (mkdir_quiet e (stagingOf e) sA) as [HB1 HB2]; [by apply quiet_op|].
  set (sB := post (mkdir e (stagingOf e)) sA) in *.
  assert (is_Some (fs sB !! stagingOf e)) as [n0 Hstaging].
  { rewrite HB2. simpl. apply (mkdir_p_creates (stagingOf e) [] (fs s)). done. }
  (* database *)
  destruct (backupDatabase_result sB) as (HC1 & HC2 & HC3).
  set (sC := post (backupDatabase e (stagingOf e)) sB) in *.
  pose proof (post_respects _ _ sB (backupDatabase_fs_only e (stagingOf e)))
    as (_ & HCg & _). fold sC in HCg.
  (* files *)
  set (mD := when (not_false (BackupOptions.includeUploads options))
                  (backupFiles e (stagingOf e))).
  assert (res mD sC = Ok tt) as HD1 by (apply when_ok, backupFiles_ok).
  pose proof (post_respects _ mD sC
                (respects_when _ _ _ (backupFiles_fs_only e (stagingOf e))))
    as (_ & HDg & HDl).
  set (sD := post mD sC) in *.
  (* logs *)
  set (mE := when (truthy (BackupOptions.includeLogs options))
                  (backupLogs e (stagingOf e))).
  assert (res mE sD = Ok tt) as HE1 by (apply when_ok, backupLogs_ok).
  pose proof (post_respects _ mE sD
                (respects_when _ _ _ (backupLogs_fs_only e (stagingOf e))))
    as (_ & HEg & HEl).
  set (sE := post mE sD) in *.
  (* what the staging directory holds before the archive is built *)
  assert (fs sE !! stagingOf e = Some n0) as HstagingE.
  { eapply fs_grow_keep; [exact HEg|apply not_below_longer|].
    eapply fs_grow_keep; [exact HDg|apply not_below_longer|].
    eapply fs_grow_keep; [exact HCg|apply not_below_longer|]. done. }
  assert (forall name data,
            (name, data) ∈ collectionsOf e ->
            io_fail e (OpStringify name) = None ->
            io_fail e (OpWriteFile (snapshotOf e name)) = None ->
            fs sE !! snapshotOf e name = Some (File (CRecords data))) as Hfiles.
  { intros name data Hin Hs Hw.
    eapply fs_grow_keep; [exact HEg|by apply not_below_sibling|].
    eapply fs_grow_keep; [exact HDg|by apply not_below_sibling|].
    by apply (HC2 name data). }
  (* archive, removal of the staging directory, size, checksum *)
  destruct (createArchive_quiet e (stagingOf e) (backupIdOf e +:+ ".tar.gz") sE)
    as (HF1 & HF2 & HF3); [by apply quiet_op|by apply quiet_op|].
  set (sF := post (createArchive e (stagingOf e) (backupIdOf e +:+ ".tar.gz")) sE) in *.
  set (entries := archive_entries (stagingOf e) (fs sE)) in *.
  destruct (rm_quiet e (stagingOf e) false sF n0) as [HG1 HG2]; [by apply quiet_op| |].
  { rewrite HF2. rewrite lookup_insert_ne; [done|]. apply archive_not_staging. }
  set (sG := post (rm e (stagingOf e) false) sF) in *.
  assert (fs sG !! archiveOf e = Some (File (CArchive entries))) as Harchive.
  { rewrite HG2. simpl. rewrite rm_rf_lookup.
    rewrite decide_False by apply archive_not_below_staging.
    rewrite HF2. apply lookup_insert_eq. }
  assert (io_fail e (OpStat (archiveOf e)) = None) as Hqs by (by apply quiet_op).
  assert (io_fail e (OpChecksum (archiveOf e)) = None) as Hqc by (by apply quiet_op).
  destruct (stat_quiet e (archiveOf e) sG _ Hqs Harchive) as [HH1 HH2].
  destruct (calculateChecksum_quiet e (archiveOf e) sG _ Hqc Harchive) as [HI1 HI2].
  exists entries, (fileSize e (File (CArchive entries))), (sha256 e (CArchive entries)), sG.
  split; [|split; [exact Harchive|split]].
  - unfold produceArtifact. rewrite Hdb, Hzip.
    eapply (run_ok_bind _ _ _ tt sA); [split; reflexivity|].
    eapply run_ok_bind; [split; [exact HB1|reflexivity]|].
    eapply run_ok_bind; [split; [exact HC1|reflexivity]|].
    eapply run_ok_bind; [split; [exact HD1|reflexivity]|].
    eapply run_ok_bind; [split; [exact HE1|reflexivity]|].
    eapply run_ok_bind.
    { eapply run_ok_bind; [split; [exact HF1|reflexivity]|].
      eapply run_ok_bind; [split; [exact HG1|reflexivity]|]. apply run_ok_ret. }
    eapply run_ok_bind; [split; [exact HH1|exact HH2]|].
    eapply run_ok_bind; [split; [exact HI1|exact HI2]|]. apply run_ok_ret.
  - intros name data Hin Hs Hw. apply archive_entries_elem.
    specialize (Hfiles name data Hin Hs Hw). unfold snapshotOf in Hfiles.
    by rewrite <- app_assoc in Hfiles.
  - intros name data error Hin Hfail.
    assert (logs sF `prefix_of` logs sG) as HGl by (by rewrite HG2).
    eapply elem_of_prefix; [exact HGl|].
    eapply elem_of_prefix; [exact HF3|].
    eapply elem_of_prefix; [exact HEl|].
    eapply elem_of_prefix; [exact HDl|].
    by apply (HC3 name data).
Qed.
End PartialSnapshot.

(** C3, with compression.  Take a run that acquires the guard, with the
    database included and compression on, in which nothing fails except
    the serialisation or the write of some collections' snapshot files.
    The run returns
    its record with status [Completed]; the record is in the history and
    its [path] is the archive; the archive on disk holds
    [database/<name>.json], with the records of the collection, for every
    collection that could be written; and every collection that could not
    be written has its error in the log ([Failed to export <name>:]). *)
Theorem partial_snapshot_resilience e options s :
  isBackupRunning s = false ->
  not_false (BackupOptions.includeDatabase options) = true ->
  not_false (BackupOptions.compression options) = true ->
  only_snapshots_fail e ->
  let run := createFullBackup e options s in
  exists entries m,
    run.1.1 = Ok (List.length (heap s)) /\
    heap run.1.2 !! List.length (heap s) = Some m /\
    BackupMetadata.status m = Completed /\
    BackupMetadata.path m = archiveOf e /\
    List.length (heap s) ∈ backupHistory run.1.2 /\
    fs run.1.2 !! archiveOf e = Some (File (CArchive entries)) /\
    (forall name data,
       (name, data) ∈ collectionsOf e ->
       io_fail e (OpStringify name) = None ->
       io_fail e (OpWriteFile (snapshotOf e name)) = None ->
       (["database"; name +:+ ".json"], CRecords data) ∈ entries) /\
    (forall name data error,
       (name, data) ∈ collectionsOf e ->
       io_fail e (OpStringify name) = Some error \/
       (io_fail e (OpStringify name) = None /\
        io_fail e (OpWriteFile (snapshotOf e name)) = Some error) ->
       LogError ("Failed to export " +:+ name +:+ ":") error ∈ logs run.1.2).
Proof.
  intros Hfree Hdb Hzip Hquiet run. subst run.
  rewrite createFullBackup_run by done.
  destruct (produceArtifact_partial e Hquiet options (acquired e s) Hdb Hzip)
    as (entries & size & checksum & s1 & [Hres Hpost] & Harchive & Hfiles & Hlogs).
  pose proof (produceArtifact_mem_eq e options (backupIdOf e) (acquired e s))
    as [(_&_&Hheap&Hhist) _].
  unfold res, post in Hres, Hpost.
  destruct (produceArtifact e options (backupIdOf e) (acquired e s))
    as [[r s1'] t1]. simpl in *. subst r s1'. cbn [fst snd].
  set (s2 := recorded (List.length (heap s)) (complete (archiveOf e) size checksum) s1).
  pose proof (post_respects _ _ s2 (saveBackupHistory_fs_only e))
    as ((_&_&Hh&Hl) & Hg & Hlg). unfold post in *.
  exists entries, (complete (archiveOf e) size checksum (pendingRecord e)).
  simpl. rewrite Hh, Hl. simpl. rewrite Hheap, Hhist. simpl.
  rewrite deref_fresh, insert_fresh.
  split; [done|]. split; [by rewrite list_lookup_middle|].
  split; [done|]. split; [done|]. split; [set_solver|]. split.
  - eapply fs_grow_keep; [exact Hg| |exact Harchive].
    intros H. by apply (archive_not_history e).
  - split; [exact Hfiles|]. intros name data error Hin Hfail.
    apply elem_of_app. left. eapply elem_of_prefix; [exact Hlg|].
    simpl. by apply (Hlogs name data).
Qed.

Lemma partial_snapshot_resilience_witness :
  let e := shop (only (OpWriteFile (snapshotOf (shop quiet 1000) "sales")) EACCES) 1000 in
  isBackupRunning (newService ∅) = false /\
  io_fail e (OpWriteFile (snapshotOf e "sales")) = Some EACCES /\
  exists entries m,
    (createFullBackup e defaultOptions (newService ∅)).1.1 = Ok 0%nat /\
    heap (createFullBackup e defaultOptions (newService ∅)).1.2 !! 0%nat = Some m /\
    BackupMetadata.status m = Completed /\
    fs (createFullBackup e defaultOptions (newService ∅)).1.2 !! archiveOf e
      = Some (File (CArchive entries)) /\
    (["database"; "products.json"], CRecords coffeeAndTea) ∈ entries.
Proof.
  split; [reflexivity|]. split; [reflexivity|].
  destruct (partial_snapshot_resilience
              (shop (only (OpWriteFile (snapshotOf (shop quiet 1000) "sales")) EACCES) 1000)
              defaultOptions (newService ∅) eq_refl eq_refl eq_refl)
    as (entries & m & H1 & H2 & H3 & _ & _ & H6 & H7 & _).
  - intros op error Hop. unfold shop, only in Hop. simpl in Hop.
    destruct (decide _) as [->|]; [|done]. exists "sales". by right.
  - exists entries, m. split; [exact H1|]. split; [exact H2|]. split; [exact H3|].
    split; [exact H6|]. apply (H7 "products" coffeeAndTea); [|reflexivity|reflexivity].
    left.
Defined.

(** C3, without compression.  The same failure in a run with
    [compression: false].  The snapshot step logs the failure, skips the
    collection and goes on, and the staging directory, which is now the
    artifact, holds the files of the other collections.  But the checksum
    reads the artifact as a stream, which fails on a directory: the run
    throws and is recorded as [Failed], with an empty path. *)
Theorem partial_snapshot_uncompressed :
  let e := shop (only (OpWriteFile (snapshotOf (shop quiet 1000) "sales")) EACCES) 1000 in
  let run := createFullBackup e uncompressed (newService ∅) in
  run.1.1 = Throw EISDIR /\
  map BackupMetadata.status (records run.1.2) = [Failed] /\
  map BackupMetadata.path (records run.1.2) = [[]] /\
  List.filter (fun l => match l with LogError _ _ => true | _ => false end)
              (logs run.1.2)
    = [ LogError "Failed to export sales:" EACCES;
        LogError "Full backup failed: backup_1000" EISDIR ] /\
  fs run.1.2 !! stagingOf e = Some Dir /\
  fs run.1.2 !! snapshotOf e "products" = Some (File (CRecords coffeeAndTea)) /\
  fs run.1.2 !! snapshotOf e "sales" = None.
Proof. repeat split; vm_compute; reflexivity. Qed.

(* ================================================================= *)
(** ** Retention cleanup *)

Lemma filter_ext_in {A} (P Q : A -> Prop) `{!forall x, Decision (P x)}
    `{!forall x, Decision (Q x)} (l : list A) :
  (forall x, x ∈ l -> P x <-> Q x) -> filter P l = filter Q l.
Proof.
  induction l as [|x l IH]; intros Hiff; [done|].
  rewrite !filter_cons. rewrite IH by (intros y Hy; apply Hiff; by right).
  destruct (decide (P x)) as [HP|HP], (decide (Q x)) as [HQ|HQ]; try done.
  - destruct HQ. apply Hiff; [by left|done].
  - destruct HP. apply Hiff; [by left|done].
Qed.

Lemma filter_all {A} (P : A -> Prop) `{!forall x, Decision (P x)} (l : list A) :
  (forall x, x ∈ l -> P x) -> filter P l = l.
Proof.
  induction l as [|x l IH]; intros Hall; [done|].
  rewrite filter_cons_True by (apply Hall; by left).
  rewrite IH; [done|]. intros y Hy. apply Hall. by right.
Qed.

Lemma filter_none {A} (P : A -> Prop) `{!forall x, Decision (P x)} (l : list A) :
  (forall x, x ∈ l -> ~ P x) -> filter P l = [].
Proof.
  induction l as [|x l IH]; intros Hnone; [done|].
  rewrite filter_cons_False by (apply Hnone; by left).
  apply IH. intros y Hy. apply Hnone. by right.
Qed.

Lemma deleteBackup_eq e v s :
  deleteBackup e v s =
    let b := deref (heap s) v in
    match io_fail e (OpRm (BackupMetadata.path b)) with
    | Some error =>
        (Ok tt,
         add_log (LogError ("Failed to delete backup " +:+ BackupMetadata.id b +:+ ":")
                           error) s,
         [s])
    | None =>
        let s1 := set_fs (rm_rf (BackupMetadata.path b) (fs s)) s in
        (Ok tt,
         add_log (LogInfo ("Deleted old backup: " +:+ BackupMetadata.id b))
           (set_history
              (filter (fun r => BackupMetadata.id (deref (heap s) r)
                                <> BackupMetadata.id b)
                      (backupHistory s)) s1),
         [s1])
    end.
Proof.
  unfold deleteBackup, try_catch, bind, gets, rm, await, modify, log. simpl.
  destruct (io_fail e (OpRm _)); [done|].
  by destruct (fs s !! BackupMetadata.path (deref (heap s) v)).
Qed.

Lemma delete_loop e victims : forall s,
  let s' := post (for_each victims (deleteBackup e)) s in
  res (for_each victims (deleteBackup e)) s = Ok tt /\
  heap s' = heap s /\
  maxBackups s' = maxBackups s /\
  isBackupRunning s' = isBackupRunning s /\
  backupHistory s' = filter (fun r => ~ removed e (heap s) victims r) (backupHistory s) /\
  (forall p, fs s' !! p = if decide (erased e (heap s) victims p) then None
                          else fs s !! p).
Proof.
  induction victims as [|v victims IH]; intros s; simpl.
  { do 4 (split; [done|]). split.
    - symmetry. apply filter_all. intros r _ H. by apply Exists_nil in H.
    - intros p. by destruct (decide (erased e (heap s) [] p)) as [H|]; [apply Exists_nil in H|]. }
  assert (res (deleteBackup e v) s = Ok tt) as Hres.
  { unfold res. rewrite deleteBackup_eq. simpl. by destruct (io_fail e _). }
  rewrite (res_bind _ _ _ tt Hres), (post_bind _ _ _ tt Hres).
  set (s1 := post (deleteBackup e v) s).
  destruct (IH s1) as (IH1 & IH2 & IH3 & IH4 & IH5 & IH6).
  assert (heap s1 = heap s /\ maxBackups s1 = maxBackups s /\
          isBackupRunning s1 = isBackupRunning s /\
          backupHistory s1
            = filter (fun r => ~ (deleted e (heap s) v /\
                                  BackupMetadata.id (deref (heap s) v)
                                  = BackupMetadata.id (deref (heap s) r)))
                     (backupHistory s) /\
          (forall p, fs s1 !! p
                     = if decide (deleted e (heap s) v /\
                                  BackupMetadata.path (deref (heap s) v) `prefix_of` p)
                       then None else fs s !! p)) as (H1 & H2 & H3 & H4 & H5).
  { subst s1. unfold post. rewrite deleteBackup_eq. cbv zeta.
    destruct (decide (deleted e (heap s) v)) as [Hd|Hd].
    - pose proof Hd as Hd'. unfold deleted in Hd'. rewrite Hd'. simpl.
      do 3 (split; [done|]). split.
      + apply filter_ext_in. intros r _. split.
        * intros Hne [_ Heq]. by apply Hne.
        * intros Hn Heq. apply Hn. by split.
      + intros p. rewrite rm_rf_lookup.
        destruct (decide (_ `prefix_of` p)) as [Hp|Hp].
        * by rewrite decide_True.
        * rewrite decide_False; [done|]. by intros [_ ?].
    - destruct (io_fail e (OpRm _)) as [error|] eqn:E; [|by destruct Hd]. simpl.
      do 3 (split; [done|]). split.
      + symmetry. apply filter_all. intros r _ [? _]. done.
      + intros p. rewrite decide_False; [done|]. by intros [? _]. }
  split; [done|]. rewrite IH2, IH3, IH4, IH5, H1, H2, H3, H4.
  do 3 (split; [done|]). split.
  - rewrite list_filter_filter. apply filter_ext_in. intros r _.
    unfold removed. rewrite Exists_cons. tauto.
  - intros p. rewrite IH6, H1, H5. unfold erased.
    destruct (decide (Exists _ victims)) as [Hex|Hex].
    + rewrite decide_True; [done|]. by apply Exists_cons_tl.
    + destruct (decide (deleted e (heap s) v /\ _ `prefix_of` p)) as [Hv|Hv].
      * rewrite decide_True; [done|]. by apply Exists_cons_hd.
      * rewrite decide_False; [done|]. rewrite Exists_cons. tauto.
Qed.

(** [cleanupOldBackups] never throws. *)
Lemma cleanupOldBackups_never_throws e s : res (cleanupOldBackups e) s = Ok tt.
Proof.
  unfold cleanupOldBackups. apply (res_swallow _ (LogError "Backup cleanup failed:")).
Qed.

Lemma run_ok_gets {A} (f : State -> A) s : run_ok (gets f) s (f s) s.
Proof. done. Qed.

Lemma cleanupOldBackups_post e s sorted :
  array_sort (oldest_first (heap s)) (filter (completed (heap s)) (backupHistory s))
    = Ok sorted ->
  let s0 := add_log (LogInfo "Starting backup cleanup") s in
  post (cleanupOldBackups e) s =
    if (List.length sorted <=? maxBackups s)%nat
    then add_log (LogInfo "No backups to cleanup") s0
    else
      let victims := take (List.length sorted - maxBackups s) sorted in
      add_log (LogInfo ("Cleanup completed: " +:+ pretty (List.length victims)
                        +:+ " backups removed"))
        (post (saveBackupHistory e) (post (for_each victims (deleteBackup e)) s0)).
Proof.
  intros Hsort s0.
  assert (exists a, run_ok (cleanupOldBackups e) s a
            (if (List.length sorted <=? maxBackups s)%nat
             then add_log (LogInfo "No backups to cleanup") s0
             else
               let victims := take (List.length sorted - maxBackups s) sorted in
               add_log (LogInfo ("Cleanup completed: " +:+ pretty (List.length victims)
                                 +:+ " backups removed"))
                 (post (saveBackupHistory e)
                       (post (for_each victims (deleteBackup e)) s0))))
    as [a [_ H]]; [|exact H].
  exists tt. unfold cleanupOldBackups. apply run_ok_try_catch.
  eapply (run_ok_bind _ _ _ tt s0); [done|].
  eapply run_ok_bind; [apply run_ok_gets|].
  eapply run_ok_bind; [apply run_ok_gets|].
  eapply (run_ok_bind _ _ _ sorted s0); [split; [exact Hsort|reflexivity]|].
  eapply run_ok_bind; [apply run_ok_gets|].
  change (maxBackups s0) with (maxBackups s).
  destruct (List.length sorted <=? maxBackups s)%nat; [done|].
  cbv zeta.
  destruct (delete_loop e (take (List.length sorted - maxBackups s) sorted) s0)
    as (Hloop & _).
  eapply run_ok_bind; [split; [exact Hloop|reflexivity]|].
  eapply run_ok_bind.
  { split; [|reflexivity]. unfold res. by rewrite saveBackupHistory_ok. }
  done.
Qed.

Lemma NoDup_fmap_inj_on {A B} (f : A -> B) (l : list A) x y :
  NoDup (f <$> l) -> x ∈ l -> y ∈ l -> f x = f y -> x = y.
Proof.
  induction l as [|z l IH]; intros Hnd Hx Hy Hf; [by apply elem_of_nil in Hx|].
  rewrite fmap_cons in Hnd. apply NoDup_cons in Hnd as [Hz Hnd].
  apply elem_of_cons in Hx as [->|Hx], Hy as [->|Hy]; [done| | |by apply IH].
  - destruct Hz. rewrite Hf. by apply list_elem_of_fmap_2.
  - destruct Hz. rewrite <- Hf. by apply list_elem_of_fmap_2.
Qed.

Lemma Forall_filter_1 {A} (P Q : A -> Prop) `{!forall x, Decision (Q x)} (l : list A) :
  Forall P l -> Forall P (filter Q l).
Proof.
  rewrite !Forall_forall. intros Hall x Hx. apply list_elem_of_filter in Hx as [_ Hx].
  by apply Hall.
Qed.

(** C4, amended.  [cleanupOldBackups] never throws.  On a history whose
    timestamps are [Date] objects and whose ids are distinct it sorts the
    completed records, oldest first; with at most [maxBackups] of them it
    changes neither history nor disk; otherwise the victims are the
    [count - maxBackups] oldest, and afterwards the history is the old one
    without the victims whose artifact could be deleted - a victim whose
    deletion failed is retained -, the artifact of every deleted victim is
    gone from disk, and when no deletion fails exactly [maxBackups]
    completed records remain. *)
Theorem cleanupOldBackups_retention e s :
  Forall (is_date (heap s)) (backupHistory s) ->
  NoDup (map BackupMetadata.id (records s)) ->
  let s' := (cleanupOldBackups e s).1.2 in
  exists sorted,
    (cleanupOldBackups e s).1.1 = Ok tt /\
    sorted ≡ₚ filter (completed (heap s)) (backupHistory s) /\
    StronglySorted (fun a b => (time_of (heap s) a <= time_of (heap s) b)%Z) sorted /\
    heap s' = heap s /\
    ((List.length sorted <= maxBackups s)%nat ->
       backupHistory s' = backupHistory s /\ fs s' = fs s) /\
    ((maxBackups s < List.length sorted)%nat ->
       let victims := take (List.length sorted - maxBackups s) sorted in
       backupHistory s'
         = filter (fun r => ~ (r ∈ victims /\ deleted e (heap s) r)) (backupHistory s) /\
       (forall r, r ∈ victims -> ~ deleted e (heap s) r -> r ∈ backupHistory s') /\
       (forall r p, r ∈ victims -> deleted e (heap s) r ->
          BackupMetadata.path (deref (heap s) r) `prefix_of` p ->
          p <> historyPath -> fs s' !! p = None) /\
       (Forall (deleted e (heap s)) victims ->
          List.length (filter (completed (heap s')) (backupHistory s')) = maxBackups s)).
Proof.
  intros Hdates Hids s'.
  destruct (array_sort_sorted (oldest_first (heap s)) (time_of (heap s))
              (is_date (heap s)) (oldest_first_dates (heap s))
              (filter (completed (heap s)) (backupHistory s)))
    as (sorted & Hsort & Hsorted & Hperm); [by apply Forall_filter_1|].
  exists sorted. split; [apply cleanupOldBackups_never_throws|].
  split; [done|]. split; [done|].
  assert (s' = post (cleanupOldBackups e) s) as -> by done.
  rewrite (cleanupOldBackups_post e s sorted Hsort).
  destruct (List.length sorted <=? maxBackups s)%nat eqn:Hcount.
  { apply Nat.leb_le in Hcount. split; [done|]. split; [done|]. lia. }
  apply Nat.leb_gt in Hcount. cbv zeta.
  set (victims := take (List.length sorted - maxBackups s) sorted).
  set (s0 := add_log (LogInfo "Starting backup cleanup") s).
  destruct (delete_loop e victims s0) as (_ & Hheap & _ & _ & Hhist & Hfs).
  set (sL := post (for_each victims (deleteBackup e)) s0) in *.
  change (heap s0) with (heap s) in *. change (backupHistory s0) with (backupHistory s) in *.
  change (fs s0) with (fs s) in *.
  destruct (saveBackupHistory_mem_eq e sL) as [(_ & _ & Hh & Hl) _].
  fold (post (saveBackupHistory e) sL) in Hh, Hl.
  assert (forall p, p <> historyPath ->
            fs (post (saveBackupHistory e) sL) !! p = fs sL !! p) as Hsave.
  { intros p Hp. unfold post. rewrite saveBackupHistory_eq.
    destruct (io_fail e (OpWriteFile historyPath)); simpl; [done|].
    by rewrite lookup_insert_ne. }
  (* the victims are records of the history *)
  assert (forall r, r ∈ victims -> r ∈ backupHistory s) as Hvict.
  { intros r Hr. apply (list_elem_of_filter (completed (heap s))).
    rewrite <- Hperm. by apply (subseteq_take (List.length sorted - maxBackups s) sorted). }
  assert (forall r, r ∈ backupHistory s ->
            removed e (heap s) victims r <-> r ∈ victims /\ deleted e (heap s) r) as Hrem.
  { intros r Hr. unfold removed. rewrite Exists_exists. split.
    - intros (v & Hv & Hd & Hid).
      assert (v = r) as ->; [|done].
      apply (NoDup_fmap_inj_on (fun x => BackupMetadata.id (deref (heap s) x))
               (backupHistory s)); [|by apply Hvict|done|done].
      unfold records in Hids. by rewrite <- list_fmap_compose in Hids.
    - intros [Hv Hd]. by exists r. }
  simpl. rewrite Hh, Hl, Hheap, Hhist. split; [done|].
  split; [intros; lia|]. intros _.
  assert (filter (fun r => ~ removed e (heap s) victims r) (backupHistory s)
          = filter (fun r => ~ (r ∈ victims /\ deleted e (heap s) r)) (backupHistory s))
    as Hfilter.
  { apply filter_ext_in. intros r Hr. by rewrite (Hrem r Hr). }
  rewrite Hfilter. split; [done|]. split; [|split].
  - intros r Hr Hnd. apply list_elem_of_filter. split; [tauto|by apply Hvict].
  - intros r p Hr Hd Hpre Hp. rewrite Hsave by done. rewrite Hfs.
    rewrite decide_True; [done|]. apply Exists_exists. by exists r.
  - intros Hall.
    assert (NoDup sorted) as Hnd.
    { rewrite Hperm. apply NoDup_filter. eapply NoDup_fmap_1.
      unfold records in Hids. rewrite <- list_fmap_compose in Hids. exact Hids. }
    rewrite list_filter_filter.
    rewrite (filter_ext_in _ (fun r => (r ∉ victims) /\ completed (heap s) r)).
    2:{ intros r _. rewrite Forall_forall in Hall. split.
        - intros [Hc Hn]. split; [|done]. intros Hv. apply Hn. split; [done|by apply Hall].
        - intros [Hn Hc]. split; [done|]. tauto. }
    rewrite <- list_filter_filter, <- Hperm.
    rewrite <- (take_drop (List.length sorted - maxBackups s) sorted) at 1.
    fold victims. rewrite <- (take_drop (List.length sorted - maxBackups s) sorted) in Hnd.
    fold victims in Hnd. apply NoDup_app in Hnd as (_ & Hdisj & _).
    rewrite filter_app.
    rewrite (filter_none _ victims) by (intros r Hr Hn; by apply Hn).
    rewrite filter_all by (intros r Hr Hv; by apply (Hdisj r)).
    simpl. rewrite length_drop. lia.
Qed.

(** C4, as stated, fails: with 31 completed backups, [maxBackups = 30]
    and the deletion of the oldest archive rejected, the cleanup leaves 31
    completed records whose artifact is on disk. *)
Lemma retention_bound_counterexample :
  let e := shop (only (OpRm ["backups"; "backup_1.tar.gz"]) EACCES) 100 in
  let s' := (cleanupOldBackups e fullShelf).1.2 in
  maxBackups s' = 30%nat /\
  List.length (filter (completed (heap fullShelf)) (backupHistory fullShelf)) = 31%nat /\
  ~ (List.length (kept_on_disk s') <= maxBackups s')%nat.
Proof.
  split; [vm_compute; reflexivity|]. split; [vm_compute; reflexivity|].
  intros H. vm_compute in H. lia.
Qed.

Lemma cleanupOldBackups_retention_witness :
  Forall (is_date (heap fullShelf)) (backupHistory fullShelf) /\
  NoDup (map BackupMetadata.id (records fullShelf)) /\
  exists sorted,
    (cleanupOldBackups (shop quiet 100) fullShelf).1.1 = Ok tt /\
    sorted ≡ₚ filter (completed (heap fullShelf)) (backupHistory fullShelf).
Proof.
  assert (Forall (is_date (heap fullShelf)) (backupHistory fullShelf)) as H1.
  { apply (bool_decide_unpack _). vm_compute. reflexivity. }
  assert (NoDup (map BackupMetadata.id (records fullShelf))) as H2.
  { apply (bool_decide_unpack _). vm_compute. reflexivity. }
  split; [exact H1|]. split; [exact H2|].
  destruct (cleanupOldBackups_retention (shop quiet 100) fullShelf H1 H2)
    as (sorted & Hres & Hperm & _).
  exists sorted. split; [exact Hres | exact Hperm].
Defined.

Lemma cleanupOldBackups_heap e s : heap (post (cleanupOldBackups e) s) = heap s.
Proof.
  destruct (array_sort (oldest_first (heap s))
              (filter (completed (heap s)) (backupHistory s))) as [sorted|error] eqn:E.
  - rewrite (cleanupOldBackups_post e s sorted E).
    destruct (List.length sorted <=? maxBackups s)%nat; [done|]. cbv zeta.
    set (victims := take _ sorted).
    destruct (delete_loop e victims (add_log (LogInfo "Starting backup cleanup") s))
      as (_ & Hheap & _).
    destruct (saveBackupHistory_mem_eq e
                (post (for_each victims (deleteBackup e))
                      (add_log (LogInfo "Starting backup cleanup") s)))
      as [(_ & _ & Hh & _) _].
    simpl. unfold post at 1. by rewrite Hh, Hheap.
  - unfold post, cleanupOldBackups, try_catch, bind, log, modify, gets, lift.
    simpl. by rewrite E.
Qed.

(** Within a process no call edits a record that exists: whatever the
    call, an object of the heap is the same afterwards. *)
Lemma objects_never_edited e a s r m :
  a <> Start -> heap s !! r = Some m -> heap (run e a s).1 !! r = Some m.
Proof.
  intros Ha Hr. destruct a as [|options| |options|filename|]; simpl; [done| | | | |done].
  - destruct (isBackupRunning s) eqn:Hflag.
    + by rewrite busy_guard_rejects.
    + destruct (createFullBackup_append_only e options s Hflag) as [_ H].
      rewrite H; [done|]. by eapply lookup_lt_Some.
  - fold (post (cleanupOldBackups e) s). by rewrite cleanupOldBackups_heap.
  - destruct (exportData_fs_only e options s) as [((_&_&Hh&_)&_) _]. by rewrite Hh.
  - destruct (download_fs_only e filename s) as [((_&_&Hh&_)&_) _]. by rewrite Hh.
Qed.

(** The same history after a restart: the timestamps are strings, the
    sort of [cleanupOldBackups] throws inside its [try] block, and all 31
    records stay. *)
Lemma cleanup_after_restart :
  let s := (run (shop quiet 200) Start fullShelf).1 in
  let s' := (cleanupOldBackups (shop quiet 300) s).1.2 in
  List.length (filter (completed (heap s)) (backupHistory s)) = 31%nat /\
  backupHistory s' = backupHistory s /\
  last (logs s')
    = Some (LogError "Backup cleanup failed:"
                     (JsError "timestamp.getTime is not a function")).
Proof. repeat split; vm_compute; reflexivity. Qed.

(* ================================================================= *)
(** ** DownloadResolver: the search and the replies *)

(** The search of the handler, when the exports root can be listed or
    the file is in the backups root: it leaves the state as it is. *)
Lemma resolveDownload_result e filename s :
  rejected filename = false ->
  accessible e s ["backups"; filename] = true \/
  (io_fail e (OpReaddir exportsDir) = None /\ fs s !! exportsDir = Some Dir) ->
  run_ok (resolveDownload e filename) s
         (match first_match e s filename with
          | Some filePath => inr filePath
          | None => inl (JsonResponse 404 false "File not found")
          end) s.
Proof.
  intros Hrej Hlist.
  assert (exists t, resolveDownload e filename s
            = (Ok (match first_match e s filename with
                   | Some filePath => inr filePath
                   | None => inl (JsonResponse 404 false "File not found")
                   end), s, t)) as [t Ht].
  { unfold resolveDownload, rejected, first_match in *. rewrite Hrej.
    destruct (access_result e ["backups"; filename] s) as (Hs & Hok & Hno).
    unfold try_catch at 1, bind at 1.
    destruct (access e ["backups"; filename] s) as [[[[]|error] s1] t1];
      simpl in *; subst s1.
    - rewrite (proj1 Hok eq_refl). eauto.
    - destruct Hok as [_ Hok].
      destruct (accessible e s ["backups"; filename]) eqn:Hacc.
      { by specialize (Hok eq_refl). }
      destruct Hlist as [|[Hquiet Hdir]]; [done|].
      unfold bind at 1, readdir at 1, await at 1.
      fold exportsDir. rewrite Hquiet, Hdir. simpl.
      destruct (searchExports_result e filename (children exportsDir (fs s)) s)
        as [t2 H2].
      unfold bind. rewrite H2. destruct (head _); eauto. }
  unfold run_ok, res, post. by rewrite Ht.
Qed.

Lemma download_first_match e filename s p n :
  rejected filename = false ->
  accessible e s ["backups"; filename] = true \/
  (io_fail e (OpReaddir exportsDir) = None /\ fs s !! exportsDir = Some Dir) ->
  first_match e s filename = Some p ->
  fs s !! p = Some n ->
  io_fail e (OpStat p) = None ->
  res (download e filename) s
    = Ok (FileResponse (contentTypeOf (toLowerCase (extname filename))) (fileSize e n) p).
Proof.
  intros Hrej Hlist Hfirst Hp Hstat.
  destruct (resolveDownload_result e filename s Hrej Hlist) as [Hres Hpost].
  rewrite Hfirst in Hres.
  unfold download. apply res_try_catch.
  rewrite (res_bind _ _ _ _ Hres), Hpost.
  destruct (stat_quiet e p s n Hstat Hp) as [Hst _].
  by rewrite (res_bind _ _ _ _ Hst).
Qed.




(* ################################################################# *)
(** * Further properties of the service and of its routes *)

(* ================================================================= *)
(** ** Runs that fail, and overlapping calls *)

Lemma ensures_bind {A B} (m : M A) (f : A -> M B) s Q :
  ensures m s (fun r s1 => match r with
                           | Ok a => ensures (f a) s1 Q
                           | Throw error => Q (Throw error) s1
                           end) ->
  ensures (bind m f) s Q.
Proof.
  unfold ensures, res, post, bind.
  destruct (m s) as [[[a|error] s1] t1]; simpl; [|done].
  by destruct (f a s1) as [[r s2] t2].
Qed.

Lemma ensures_bind_step {A B} (R : State -> State -> Prop) (m : M A) (f : A -> M B) s
    (Q : Result B -> State -> Prop) :
  respects R m ->
  (forall error, R s (post m s) -> res m s = Throw error -> Q (Throw error) (post m s)) ->
  (forall a, R s (post m s) -> res m s = Ok a -> ensures (f a) (post m s) Q) ->
  ensures (bind m f) s Q.
Proof.
  intros HR Hthrow Hok. apply ensures_bind. unfold ensures.
  pose proof (post_respects _ _ s HR) as Hs.
  destruct (res m s) as [a|error] eqn:E; [by apply Hok|by apply Hthrow].
Qed.

Lemma not_a_file_grow (W : Path -> Prop) f f' p :
  fs_grow W f f' -> ~ W p -> not_a_file f p -> not_a_file f' p.
Proof.
  intros Hg HW Hp c Hc. destruct (Hg p) as [E|[[_ E]|?]]; [|congruence|done].
  apply (Hp c). by rewrite <- E.
Qed.

(** What a run that fails leaves in the service object. *)
Lemma createFullBackup_failed e options s error s1 t1 :
  isBackupRunning s = false ->
  produceArtifact e options (backupIdOf e) (acquired e s) = (Throw error, s1, t1) ->
  let run := createFullBackup e options s in
  run.1.1 = Throw error /\
  heap run.1.2 = heap s ++ [fail error (pendingRecord e)] /\
  backupHistory run.1.2 = backupHistory s ++ [List.length (heap s)] /\
  (forall p, p <> historyPath -> fs run.1.2 !! p = fs s1 !! p).
Proof.
  intros Hfree Hrun. cbv zeta. rewrite createFullBackup_run by done.
  pose proof (produceArtifact_mem_eq e options (backupIdOf e) (acquired e s))
    as [(_&_&Hheap&Hhist) _].
  rewrite Hrun in *. simpl in *.
  destruct (saveBackupHistory_mem_eq e (recorded (List.length (heap s)) (fail error) s1))
    as [(_&_&Hh&Hl) _].
  rewrite Hh, Hl. simpl. rewrite Hheap, Hhist. simpl.
  rewrite deref_fresh, insert_fresh. do 3 (split; [done|]).
  intros p Hp. rewrite saveBackupHistory_eq.
  destruct (io_fail e (OpWriteFile historyPath)); simpl; [done|].
  by rewrite lookup_insert_ne.
Qed.

Lemma staging_not_history e : stagingOf e <> historyPath.
Proof.
  unfold stagingOf, historyPath, backupDir, backupIdOf. simpl.
  intros H. injection H as H. discriminate.
Qed.

Lemma below_staging_not_history e p : below (stagingOf e) p -> p <> historyPath.
Proof.
  intros [k Hk] ->. unfold stagingOf, historyPath, backupDir, backupIdOf in Hk.
  simpl in Hk. injection Hk as Hk _. discriminate.
Qed.

Lemma quiet_only_snapshots_fail e : (forall op, io_fail e op = None) -> only_snapshots_fail e.
Proof. intros H op error Hop. rewrite H in Hop. discriminate. Qed.

(** Without compression [finalPath] is the staging directory, and reading
    a directory as a stream fails. *)
Lemma produceArtifact_uncompressed e options s :
  BackupOptions.compression options = Some false ->
  not_a_file (fs s) (stagingOf e) ->
  exists error,
    res (produceArtifact e options (backupIdOf e)) s = Throw error /\
    ((forall op, io_fail e op = None) -> error = EISDIR).
Proof.
  intros Hzip Hfile.
  set (Q := fun (r : Result (Path * Z * string)) (_ : State) =>
              exists error, r = Throw error /\
                            ((forall op, io_fail e op = None) -> error = EISDIR)).
  change (ensures (produceArtifact e options (backupIdOf e)) s Q).
  set (J := fun st : State =>
              not_a_file (fs st) (stagingOf e) /\
              ((forall op, io_fail e op = None) -> is_Some (fs st !! stagingOf e))).
  assert (forall (W : Path -> Prop) s0 s1,
            ~ W (stagingOf e) -> fs_step W s0 s1 -> J s0 -> J s1) as HJ.
  { intros W s0 s1 HW (_ & Hg & _) [H1 H2]. split.
    - by eapply not_a_file_grow.
    - intros Hq. destruct (H2 Hq) as [n Hn]. exists n. by eapply fs_grow_keep. }
  unfold produceArtifact. rewrite Hzip. simpl not_false. cbv iota.
  (* the log line *)
  eapply ensures_bind_step; [apply (log_fs_only (fun _ => False))| |].
  { intros error _ [=]. }
  intros [] (_ & HgA & _) _.
  set (sA := post (log (LogInfo ("Starting full backup: " +:+ backupIdOf e))) s) in *.
  assert (not_a_file (fs sA) (stagingOf e)) as HfA.
  { eapply not_a_file_grow; [exact HgA|tauto|done]. }
  (* the staging directory *)
  change (backupDir ++ [backupIdOf e]) with (stagingOf e).
  eapply ensures_bind_step; [apply (mkdir_fs_only (fun _ => False))| |].
  { intros error _ Hres. exists error. split; [done|]. intros Hq.
    destruct (mkdir_quiet e (stagingOf e) sA (Hq _)) as [Hr _]. congruence. }
  intros [] (_ & HgB & _) HresB.
  assert (J (post (mkdir e (stagingOf e)) sA)) as HJB.
  { split; [eapply not_a_file_grow; [exact HgB|tauto|done]|]. intros Hq.
    destruct (mkdir_quiet e (stagingOf e) sA (Hq _)) as [_ Hp]. rewrite Hp. simpl.
    apply (mkdir_p_creates (stagingOf e) [] (fs sA)). done. }
  clear HgB HresB. set (sB := post (mkdir e (stagingOf e)) sA) in *. clearbody sB.
  (* the snapshots *)
  eapply ensures_bind_step.
  { apply (respects_when _ _ _ (backupDatabase_fs_only e (stagingOf e))). }
  { intros error _ Hres. exists error. split; [done|]. intros Hq.
    rewrite when_ok in Hres; [done|]. intros s0.
    apply (backupDatabase_result e (quiet_only_snapshots_fail e Hq) s0). }
  intros [] HsC _.
  apply (HJ _ _ _ (not_below_longer _ _)) in HsC; [|exact HJB].
  set (sC := post (when _ (backupDatabase e (stagingOf e))) sB) in *. clearbody sC.
  eapply ensures_bind_step.
  { apply (respects_when _ _ _ (backupFiles_fs_only e (stagingOf e))). }
  { intros error _ Hres. exists error. split; [done|]. intros Hq.
    rewrite when_ok in Hres; [done|]. intros s0.
    apply (backupFiles_ok e (quiet_only_snapshots_fail e Hq) s0). }
  intros [] HsD _.
  apply (HJ _ _ _ (not_below_longer _ _)) in HsD; [|exact HsC].
  set (sD := post (when _ (backupFiles e (stagingOf e))) sC) in *. clearbody sD.
  eapply ensures_bind_step.
  { apply (respects_when _ _ _ (backupLogs_fs_only e (stagingOf e))). }
  { intros error _ Hres. exists error. split; [done|]. intros Hq.
    rewrite when_ok in Hres; [done|]. intros s0.
    apply (backupLogs_ok e (quiet_only_snapshots_fail e Hq) s0). }
  intros [] HsE _.
  apply (HJ _ _ _ (not_below_longer _ _)) in HsE; [|exact HsD].
  set (sE := post (when _ (backupLogs e (stagingOf e))) sD) in *. clearbody sE.
  (* size and checksum of the directory *)
  apply ensures_bind. unfold ensures at 1. simpl.
  change (post (ret (stagingOf e)) sE) with sE.
  eapply ensures_bind_step; [apply (stat_fs_only (fun _ => False))| |].
  { intros error _ Hres. exists error. split; [done|]. intros Hq.
    destruct HsE as [_ HsE]. destruct (HsE Hq) as [n Hn].
    destruct (stat_quiet e (stagingOf e) sE n (Hq _) Hn) as [Hr _]. congruence. }
  intros size HsF _.
  assert (J (post (stat e (stagingOf e)) sE)) as HJF.
  { eapply (HJ (fun _ => False)); [tauto|exact HsF|exact HsE]. }
  set (sF := post (stat e (stagingOf e)) sE) in *. clearbody sF.
  apply ensures_bind. unfold ensures at 1.
  destruct HJF as [HF1 HF2].
  unfold res, post, calculateChecksum, await.
  destruct (io_fail e (OpChecksum (stagingOf e))) as [error|] eqn:Hc; simpl.
  { exists error. split; [done|]. intros Hq. rewrite Hq in Hc. discriminate. }
  destruct (fs sF !! stagingOf e) as [[c|]|] eqn:Hn; simpl.
  - by destruct (HF1 c).
  - by exists EISDIR.
  - exists ENOENT. split; [done|]. intros Hq. destruct (HF2 Hq) as [n Hn']. congruence.
Qed.

(** X1.  A backup without compression never completes.  Its
    [finalPath] is the staging directory, and [calculateChecksum] reads
    [finalPath] as a stream, which fails on a directory: the run throws,
    its record is appended with status [Failed], and when no operation is
    rejected the error is the [EISDIR] of that read. *)
Theorem uncompressed_backup_fails e options s :
  isBackupRunning s = false ->
  BackupOptions.compression options = Some false ->
  not_a_file (fs s) (stagingOf e) ->
  let run := createFullBackup e options s in
  exists error,
    run.1.1 = Throw error /\
    backupHistory run.1.2 = backupHistory s ++ [List.length (heap s)] /\
    deref (heap run.1.2) (List.length (heap s)) = fail error (pendingRecord e) /\
    BackupMetadata.status (deref (heap run.1.2) (List.length (heap s))) = Failed /\
    ((forall op, io_fail e op = None) -> error = EISDIR).
Proof.
  intros Hfree Hzip Hfile run. subst run.
  destruct (produceArtifact_uncompressed e options (acquired e s) Hzip Hfile)
    as (error & Hres & Hquiet).
  unfold res in Hres.
  destruct (produceArtifact e options (backupIdOf e) (acquired e s))
    as [[r s1] t1] eqn:Hrun. simpl in Hres. subst r.
  destruct (createFullBackup_failed e options s error s1 t1 Hfree Hrun)
    as (H1 & H2 & H3 & _).
  exists error. rewrite H1, H2, H3, deref_fresh. done.
Qed.

Lemma uncompressed_backup_fails_witness :
  isBackupRunning (newService ∅) = false /\
  BackupOptions.compression uncompressed = Some false /\
  exists error,
    (createFullBackup (shop quiet 1000) uncompressed (newService ∅)).1.1 = Throw error /\
    error = EISDIR.
Proof.
  split; [reflexivity|]. split; [reflexivity|].
  destruct (uncompressed_backup_fails (shop quiet 1000) uncompressed (newService ∅)
              eq_refl eq_refl)
    as (error & H1 & _ & _ & _ & H5).
  - intros c Hc. vm_compute in Hc. discriminate Hc.
  - exists error. split; [exact H1|]. apply H5. reflexivity.
Defined.

(** When the archiver reports an error, the staging directory is there
    when the [try] block is left. *)
Lemma produceArtifact_archive_fails e options s error0 :
  not_false (BackupOptions.compression options) = true ->
  io_fail e (OpMkdir (stagingOf e)) = None ->
  io_fail e (OpArchive (stagingOf e)) = Some error0 ->
  (exists error, res (produceArtifact e options (backupIdOf e)) s = Throw error) /\
  is_Some (fs (post (produceArtifact e options (backupIdOf e)) s) !! stagingOf e).
Proof.
  intros Hzip Hmkdir Harchive.
  set (Q := fun (r : Result (Path * Z * string)) (s1 : State) =>
              (exists error, r = Throw error) /\ is_Some (fs s1 !! stagingOf e)).
  change (ensures (produceArtifact e options (backupIdOf e)) s Q).
  assert (forall (W : Path -> Prop) s0 s1,
            ~ W (stagingOf e) -> fs_step W s0 s1 ->
            is_Some (fs s0 !! stagingOf e) -> is_Some (fs s1 !! stagingOf e)) as HJ.
  { intros W s0 s1 HW (_ & Hg & _) [n Hn]. exists n. by eapply fs_grow_keep. }
  unfold produceArtifact. rewrite Hzip.
  eapply ensures_bind_step; [apply (log_fs_only (fun _ => False))| |].
  { intros error _ [=]. }
  intros [] _ _.
  set (sA := post (log (LogInfo ("Starting full backup: " +:+ backupIdOf e))) s).
  change (backupDir ++ [backupIdOf e]) with (stagingOf e).
  destruct (mkdir_quiet e (stagingOf e) sA Hmkdir) as [HB1 HB2].
  apply ensures_bind. unfold ensures at 1. rewrite HB1.
  assert (is_Some (fs (post (mkdir e (stagingOf e)) sA) !! stagingOf e)) as HsB.
  { rewrite HB2. simpl. apply (mkdir_p_creates (stagingOf e) [] (fs s)). done. }
  set (sB := post (mkdir e (stagingOf e)) sA) in *. clearbody sB.
  eapply ensures_bind_step.
  { apply (respects_when _ _ _ (backupDatabase_fs_only e (stagingOf e))). }
  { intros error HsC _. split; [eauto|].
    by apply (HJ _ _ _ (not_below_longer _ _) HsC). }
  intros [] HsC _.
  apply (HJ _ _ _ (not_below_longer _ _)) in HsC; [|exact HsB].
  set (sC := post (when _ (backupDatabase e (stagingOf e))) sB) in *. clearbody sC.
  eapply ensures_bind_step.
  { apply (respects_when _ _ _ (backupFiles_fs_only e (stagingOf e))). }
  { intros error HsD _. split; [eauto|].
    by apply (HJ _ _ _ (not_below_longer _ _) HsD). }
  intros [] HsD _.
  apply (HJ _ _ _ (not_below_longer _ _)) in HsD; [|exact HsC].
  set (sD := post (when _ (backupFiles e (stagingOf e))) sC) in *. clearbody sD.
  eapply ensures_bind_step.
  { apply (respects_when _ _ _ (backupLogs_fs_only e (stagingOf e))). }
  { intros error HsE _. split; [eauto|].
    by apply (HJ _ _ _ (not_below_longer _ _) HsE). }
  intros [] HsE _.
  apply (HJ _ _ _ (not_below_longer _ _)) in HsE; [|exact HsD].
  set (sE := post (when _ (backupLogs e (stagingOf e))) sD) in *. clearbody sE.
  unfold ensures, res, post, bind, createArchive, await. rewrite Harchive. simpl.
  split; [eauto|done].
Qed.

(** The snapshot of the database throws only when its directory cannot be
    created. *)
Lemma backupDatabase_ok e backupPath s :
  io_fail e (OpMkdir (backupPath ++ ["database"])) = None ->
  res (backupDatabase e backupPath) s = Ok tt.
Proof.
  intros Hmkdir. unfold backupDatabase. apply res_try_catch.
  destruct (mkdir_quiet e (backupPath ++ ["database"]) s Hmkdir) as [Hm1 _].
  rewrite (res_bind _ _ _ tt Hm1).
  destruct (export_loop e (backupPath ++ ["database"]) (collectionsOf e)
              (post (mkdir e (backupPath ++ ["database"])) s)
              (snapshot_names_NoDup e)) as (Hl1 & _).
  unfold exportCollectionsAsJSON. cbv zeta.
  by rewrite (res_bind _ _ _ tt Hl1).
Qed.

Lemma archive_not_below_part e x : ~ below (stagingOf e ++ [x]) (archiveOf e).
Proof.
  intros H. apply prefix_length in H. rewrite length_app in H.
  unfold stagingOf, archiveOf, backupDir in H. simpl in H. lia.
Qed.

(** When the output stream of the archive cannot be written, the [try]
    block goes on as if the archive were there: the staging directory is
    removed, and the block throws when it reads the archive. *)
Lemma produceArtifact_unwritable e options s error0 :
  not_false (BackupOptions.compression options) = true ->
  (forall op, op <> OpWriteStream (archiveOf e) -> io_fail e op = None) ->
  io_fail e (OpWriteStream (archiveOf e)) = Some error0 ->
  not_a_file (fs s) (archiveOf e) ->
  (exists error, res (produceArtifact e options (backupIdOf e)) s = Throw error) /\
  (forall p, below (stagingOf e) p ->
     fs (post (produceArtifact e options (backupIdOf e)) s) !! p = None) /\
  not_a_file (fs (post (produceArtifact e options (backupIdOf e)) s)) (archiveOf e).
Proof.
  intros Hzip Hq Hout Hfile.
  set (sA := add_log (LogInfo ("Starting full backup: " +:+ backupIdOf e)) s).
  destruct (mkdir_quiet e (stagingOf e) sA) as [HB1 HB2]; [by apply Hq|].
  set (sB := post (mkdir e (stagingOf e)) sA) in *.
  assert (is_Some (fs sB !! stagingOf e)) as [n0 Hstaging].
  { rewrite HB2. simpl. apply (mkdir_p_creates (stagingOf e) [] (fs s)). done. }
  assert (not_a_file (fs sB) (archiveOf e)) as HfB.
  { rewrite HB2.
    apply (not_a_file_grow (fun _ => False) (fs s)
             (mkdir_p [] (stagingOf e) (fs s)) _ (mkdir_p_grow _ _ _ _));
      [tauto|exact Hfile]. }
  (* database *)
  set (mC := when (not_false (BackupOptions.includeDatabase options))
                  (backupDatabase e (stagingOf e))).
  assert (res mC sB = Ok tt) as HC1.
  { apply when_ok. intros s0. apply backupDatabase_ok. by apply Hq. }
  pose proof (post_respects _ mC sB
                (respects_when _ _ _ (backupDatabase_fs_only e (stagingOf e))))
    as (_ & HCg & _).
  set (sC := post mC sB) in *.
  (* files *)
  set (mD := when (not_false (BackupOptions.includeUploads options))
                  (backupFiles e (stagingOf e))).
  assert (res mD sC = Ok tt) as HD1.
  { apply when_ok. intros s0. unfold backupFiles. apply res_try_catch.
    destruct (mkdir_quiet e (stagingOf e ++ ["files"]) s0) as [Hm1 _]; [by apply Hq|].
    rewrite (res_bind _ _ _ tt Hm1). apply res_swallow. }
  pose proof (post_respects _ mD sC
                (respects_when _ _ _ (backupFiles_fs_only e (stagingOf e))))
    as (_ & HDg & _).
  set (sD := post mD sC) in *.
  (* logs *)
  set (mE := when (truthy (BackupOptions.includeLogs options))
                  (backupLogs e (stagingOf e))).
  assert (res mE sD = Ok tt) as HE1.
  { apply when_ok. intros s0. unfold backupLogs. apply res_try_catch.
    destruct (mkdir_quiet e (stagingOf e ++ ["logs"]) s0) as [Hm1 _]; [by apply Hq|].
    rewrite (res_bind _ _ _ tt Hm1). apply res_swallow. }
  pose proof (post_respects _ mE sD
                (respects_when _ _ _ (backupLogs_fs_only e (stagingOf e))))
    as (_ & HEg & _).
  set (sE := post mE sD) in *.
  assert (fs sE !! stagingOf e = Some n0) as HstagingE.
  { eapply fs_grow_keep; [exact HEg|apply not_below_longer|].
    eapply fs_grow_keep; [exact HDg|apply not_below_longer|].
    eapply fs_grow_keep; [exact HCg|apply not_below_longer|]. done. }
  assert (not_a_file (fs sE) (archiveOf e)) as HfE.
  { eapply not_a_file_grow; [exact HEg|apply archive_not_below_part|].
    eapply not_a_file_grow; [exact HDg|apply archive_not_below_part|].
    eapply not_a_file_grow; [exact HCg|apply archive_not_below_part|]. done. }
  (* the archive: resolved, nothing written *)
  set (mF := createArchive e (stagingOf e) (backupIdOf e +:+ ".tar.gz")).
  assert (res mF sE = Ok (archiveOf e) /\ fs (post mF sE) = fs sE) as [HF1 HF2].
  { unfold mF, res, post, createArchive, await.
    rewrite (Hq (OpArchive (stagingOf e))) by done. cbn beta zeta.
    change (backupDir ++ [backupIdOf e +:+ ".tar.gz"]) with (archiveOf e).
    by rewrite Hout. }
  set (sF := post mF sE) in *.
  destruct (rm_quiet e (stagingOf e) false sF n0) as [HG1 HG2]; [by apply Hq| |].
  { by rewrite HF2. }
  set (sG := post (rm e (stagingOf e) false) sF) in *.
  assert (forall p, below (stagingOf e) p -> fs sG !! p = None) as Hgone.
  { intros p Hp. rewrite HG2. simpl. rewrite rm_rf_lookup. by rewrite decide_True. }
  assert (fs sG !! archiveOf e = fs sE !! archiveOf e) as Harch.
  { rewrite HG2. simpl. rewrite rm_rf_lookup.
    rewrite decide_False by apply archive_not_below_staging. by rewrite HF2. }
  assert (not_a_file (fs sG) (archiveOf e)) as HfG.
  { intros c. rewrite Harch. apply HfE. }
  assert (exists error,
            res (size <- stat e (archiveOf e) ;;
                 checksum <- calculateChecksum e (archiveOf e) ;;
                 ret (archiveOf e, size, checksum)) sG = Throw error /\
            post (size <- stat e (archiveOf e) ;;
                  checksum <- calculateChecksum e (archiveOf e) ;;
                  ret (archiveOf e, size, checksum)) sG = sG) as (error & Hres & Hpost).
  { unfold res, post, bind, stat, calculateChecksum, await.
    rewrite (Hq (OpStat (archiveOf e))) by done.
    rewrite (Hq (OpChecksum (archiveOf e))) by done.
    destruct (fs sG !! archiveOf e) as [[c|]|] eqn:E; simpl.
    - by destruct (HfG c).
    - rewrite E. simpl. by exists EISDIR.
    - by exists ENOENT. }
  assert (run_ok (archivePath <- mF ;; rm e (stagingOf e) false ;; ret archivePath)
                 sE (archiveOf e) sG) as Hfinal.
  { eapply run_ok_bind; [split; [exact HF1|reflexivity]|].
    eapply run_ok_bind; [split; [exact HG1|reflexivity]|]. apply run_ok_ret. }
  assert (res (produceArtifact e options (backupIdOf e)) s = Throw error /\
          post (produceArtifact e options (backupIdOf e)) s = sG) as [Hr Hp].
  { unfold produceArtifact. rewrite Hzip.
    change (backupDir ++ [backupIdOf e]) with (stagingOf e).
    assert (res (log (LogInfo ("Starting full backup: " +:+ backupIdOf e))) s = Ok tt)
      as HA1 by done.
    rewrite (res_bind _ _ _ tt HA1), (post_bind _ _ _ tt HA1).
    change (post (log (LogInfo ("Starting full backup: " +:+ backupIdOf e))) s) with sA.
    rewrite (res_bind _ _ _ tt HB1), (post_bind _ _ _ tt HB1). fold sB.
    fold mC. rewrite (res_bind _ _ _ tt HC1), (post_bind _ _ _ tt HC1). fold sC.
    fold mD. rewrite (res_bind _ _ _ tt HD1), (post_bind _ _ _ tt HD1). fold sD.
    fold mE. rewrite (res_bind _ _ _ tt HE1), (post_bind _ _ _ tt HE1). fold sE.
    fold mF. destruct Hfinal as [Hf1 Hf2].
    rewrite (res_bind _ _ _ _ Hf1), (post_bind _ _ _ _ Hf1), Hf2.
    split; [exact Hres | exact Hpost]. }
  rewrite Hr, Hp. split; [by exists error|]. split; [exact Hgone | exact HfG].
Qed.

(** X2.  Take a compressed run that acquires the guard.  When the
    archiver reports an error, the run throws and the staging directory
    stays on disk: the [catch] block records the failure and removes
    nothing.  When instead the output stream of the archive cannot be
    written, [createArchive] returns all the same, the staging directory
    is removed, and the run throws when it reads the archive: neither the
    snapshot nor an archive is left.  Either way the record is [Failed]
    and keeps the empty [path] it was created with, so no record points
    to what was left. *)
Theorem archive_failure_and_staging e options s error0 :
  isBackupRunning s = false ->
  not_false (BackupOptions.compression options) = true ->
  let run := createFullBackup e options s in
  let record := deref (heap run.1.2) (List.length (heap s)) in
  (io_fail e (OpMkdir (stagingOf e)) = None ->
   io_fail e (OpArchive (stagingOf e)) = Some error0 ->
   io_fail e (OpWriteStream (archiveOf e)) = None ->
   exists error,
     run.1.1 = Throw error /\
     is_Some (fs run.1.2 !! stagingOf e) /\
     BackupMetadata.status record = Failed /\
     BackupMetadata.path record = []) /\
  ((forall op, op <> OpWriteStream (archiveOf e) -> io_fail e op = None) ->
   io_fail e (OpWriteStream (archiveOf e)) = Some error0 ->
   not_a_file (fs s) (archiveOf e) ->
   exists error,
     run.1.1 = Throw error /\
     (forall p, below (stagingOf e) p -> fs run.1.2 !! p = None) /\
     not_a_file (fs run.1.2) (archiveOf e) /\
     BackupMetadata.status record = Failed /\
     BackupMetadata.path record = []).
Proof.
  intros Hfree Hzip run record. subst run record. split.
  - intros Hmkdir Harchive _.
    destruct (produceArtifact_archive_fails e options (acquired e s) error0
                Hzip Hmkdir Harchive) as [[error Hres] Hstaging].
    unfold res, post in Hres, Hstaging.
    destruct (produceArtifact e options (backupIdOf e) (acquired e s))
      as [[r s1] t1] eqn:Hrun. simpl in Hres, Hstaging. subst r.
    destruct (createFullBackup_failed e options s error s1 t1 Hfree Hrun)
      as (H1 & H2 & _ & H4).
    exists error. rewrite H1, H2, deref_fresh, H4 by apply staging_not_history. done.
  - intros Hq Hout Hfile.
    destruct (produceArtifact_unwritable e options (acquired e s) error0
                Hzip Hq Hout Hfile) as ([error Hres] & Hgone & Hnone).
    unfold res, post in Hres, Hgone, Hnone.
    destruct (produceArtifact e options (backupIdOf e) (acquired e s))
      as [[r s1] t1] eqn:Hrun. simpl in Hres, Hgone, Hnone. subst r.
    destruct (createFullBackup_failed e options s error s1 t1 Hfree Hrun)
      as (H1 & H2 & _ & H4).
    exists error. rewrite H1, H2, deref_fresh. split; [done|]. split.
    { intros p Hp. rewrite H4; [by apply Hgone|].
      by apply (below_staging_not_history e). }
    split; [|done]. intros c. rewrite H4 by apply archive_not_history. apply Hnone.
Qed.

Lemma archive_failure_and_staging_witness :
  let e := shop (only (OpArchive ["backups"; "backup_1000"]) EACCES) 1000 in
  let e' := shop (only (OpWriteStream ["backups"; "backup_1000.tar.gz"]) EACCES) 1000 in
  io_fail e (OpArchive (stagingOf e)) = Some EACCES /\
  io_fail e' (OpWriteStream (archiveOf e')) = Some EACCES /\
  (exists error,
     (createFullBackup e defaultOptions (newService ∅)).1.1 = Throw error /\
     is_Some (fs (createFullBackup e defaultOptions (newService ∅)).1.2 !! stagingOf e)) /\
  (exists error,
     (createFullBackup e' defaultOptions (newService ∅)).1.1 = Throw error /\
     fs (createFullBackup e' defaultOptions (newService ∅)).1.2 !! stagingOf e' = None).
Proof.
  split; [reflexivity|]. split; [reflexivity|]. split.
  - destruct (archive_failure_and_staging
                (shop (only (OpArchive ["backups"; "backup_1000"]) EACCES) 1000)
                defaultOptions (newService ∅) EACCES eq_refl eq_refl) as [H _].
    destruct (H eq_refl eq_refl eq_refl) as (error & H1 & H2 & _).
    exists error. split; [exact H1 | exact H2].
  - destruct (archive_failure_and_staging
                (shop (only (OpWriteStream ["backups"; "backup_1000.tar.gz"]) EACCES) 1000)
                defaultOptions (newService ∅) EACCES eq_refl eq_refl) as [_ H].
    destruct H as (error & H1 & H2 & _).
    + intros op Hop. unfold shop, only. simpl. by rewrite decide_False.
    + reflexivity.
    + intros c Hc. vm_compute in Hc. discriminate Hc.
    + exists error. split; [exact H1|]. apply H2. unfold below. done.
Defined.

(** X3.  At every point at which a run is suspended the guard is
    set, so a call that arrives while the run is waiting - for a snapshot,
    the archive, the checksum or the write of the history document - is
    rejected with "Backup is already in progress" and changes nothing. *)
Theorem overlapping_backup_rejected e options s e' options' x :
  isBackupRunning s = false ->
  x ∈ (createFullBackup e options s).2 ->
  isBackupRunning x = true /\
  createFullBackup e' options' x = (Throw backupInProgress, x, []).
Proof.
  intros Hfree Hx.
  pose proof (createFullBackup_guard_held e options s Hfree) as Hheld.
  rewrite Forall_forall in Hheld. specialize (Hheld x Hx).
  split; [exact Hheld|]. by apply busy_guard_rejects.
Qed.

Lemma overlapping_backup_rejected_witness :
  isBackupRunning (newService ∅) = false /\
  midBackup ∈ (createFullBackup (shop quiet 1000) defaultOptions (newService ∅)).2 /\
  createFullBackup (shop quiet 2000) uncompressed midBackup
    = (Throw backupInProgress, midBackup, []).
Proof.
  assert (midBackup ∈ (createFullBackup (shop quiet 1000) defaultOptions (newService ∅)).2)
    as Hin.
  { apply (list_elem_of_lookup_2 _ 0%nat). vm_compute. reflexivity. }
  split; [reflexivity|]. split; [exact Hin|].
  apply (overlapping_backup_rejected (shop quiet 1000) defaultOptions (newService ∅)
           (shop quiet 2000) uncompressed midBackup eq_refl Hin).
Defined.

(* ================================================================= *)
(** ** Status *)

(** X4.  When the completed records carry [Date] timestamps,
    [getBackupStatus] returns the guard and, as [lastBackup], a completed
    record of the history that no completed record is newer than - never
    a failed one - or no record at all when none is completed. *)
Theorem getBackupStatus_latest s :
  Forall (is_date (heap s)) (filter (completed (heap s)) (backupHistory s)) ->
  exists lastBackup,
    getBackupStatus s = Ok (isBackupRunning s, lastBackup) /\
    match lastBackup with
    | Some r =>
        r ∈ backupHistory s /\ completed (heap s) r /\
        forall r', r' ∈ backupHistory s -> completed (heap s) r' ->
                   (time_of (heap s) r' <= time_of (heap s) r)%Z
    | None => forall r, r ∈ backupHistory s -> ~ completed (heap s) r
    end.
Proof.
  intros Hdates. unfold getBackupStatus.
  destruct (array_sort_sorted (newest_first (heap s))
              (fun r => - time_of (heap s) r) (is_date (heap s))
              (newest_first_dates (heap s)) _ Hdates) as (l & Hl & Hs & Hp).
  rewrite Hl. simpl. exists (head l). split; [done|].
  destruct l as [|r l]; simpl.
  - intros r Hr Hc. apply Permutation_nil_l in Hp.
    assert (r ∈ filter (completed (heap s)) (backupHistory s)) as Hin.
    { by apply list_elem_of_filter. }
    rewrite <- Hp in Hin. by apply elem_of_nil in Hin.
  - assert (r ∈ filter (completed (heap s)) (backupHistory s)) as Hin.
    { rewrite <- Hp. by left. }
    apply list_elem_of_filter in Hin as [Hc Hin]. split; [done|]. split; [done|].
    intros r' Hr' Hc'.
    assert (r' ∈ r :: l) as Hin'.
    { rewrite Hp. by apply list_elem_of_filter. }
    apply StronglySorted_inv in Hs as [_ Hall].
    apply elem_of_cons in Hin' as [->|Hin']; [lia|].
    rewrite Forall_forall in Hall. specialize (Hall r' Hin').
    unfold key_le in Hall. lia.
Qed.

Lemma getBackupStatus_latest_witness :
  Forall (is_date (heap afterTwoBackups))
         (filter (completed (heap afterTwoBackups)) (backupHistory afterTwoBackups)) /\
  exists lastBackup,
    getBackupStatus afterTwoBackups = Ok (false, lastBackup).
Proof.
  assert (Forall (is_date (heap afterTwoBackups))
            (filter (completed (heap afterTwoBackups)) (backupHistory afterTwoBackups)))
    as Hd.
  { apply (bool_decide_unpack _). vm_compute. reflexivity. }
  split; [exact Hd|].
  destruct (getBackupStatus_latest afterTwoBackups Hd) as (lastBackup & H & _).
  exists lastBackup. exact H.
Defined.

(* ================================================================= *)
(** ** The history document across processes *)

Lemma deref_all (l : list BackupMetadata.t) :
  map (deref l) (seq 0 (List.length l)) = l.
Proof.
  apply list_eq. intros i. rewrite list_lookup_fmap.
  destruct (l !! i) as [m|] eqn:Hm.
  - rewrite lookup_seq_lt by (by eapply lookup_lt_Some). simpl.
    unfold deref. by rewrite Hm.
  - rewrite lookup_seq_ge; [done|]. by apply lookup_ge_None.
Qed.

(** The records of a new process that could read the document [l]. *)
Lemma loadBackupHistory_records e f l :
  io_fail e (OpReadFile historyPath) = None ->
  f !! historyPath = Some (File (CHistory l)) ->
  records (post (loadBackupHistory e) (newService f)) = l.
Proof.
  intros Hread Hdoc. unfold post. rewrite loadBackupHistory_eq, Hread. simpl.
  rewrite Hdoc. unfold records. simpl. apply deref_all.
Qed.

(** X5.  What [saveBackupHistory] writes, [loadBackupHistory]
    reads back in a new process as the same records in the same order -
    same id, status, path, size, checksum and error, same instant - except
    that every timestamp is now a string and no longer a [Date]. *)
Theorem history_round_trip e e' s :
  io_fail e (OpWriteFile historyPath) = None ->
  io_fail e' (OpReadFile historyPath) = None ->
  let disk := fs (post (saveBackupHistory e) s) in
  let s' := post (loadBackupHistory e') (newService disk) in
  res (loadBackupHistory e') (newService disk) = Ok tt /\
  records s' = map toJSON (records s) /\
  map BackupMetadata.id (records s') = map BackupMetadata.id (records s) /\
  map BackupMetadata.status (records s') = map BackupMetadata.status (records s) /\
  map BackupMetadata.path (records s') = map BackupMetadata.path (records s) /\
  map BackupMetadata.size (records s') = map BackupMetadata.size (records s) /\
  map BackupMetadata.checksum (records s') = map BackupMetadata.checksum (records s) /\
  map BackupMetadata.error (records s') = map BackupMetadata.error (records s) /\
  map (fun m => instant (BackupMetadata.timestamp m)) (records s')
    = map (fun m => instant (BackupMetadata.timestamp m)) (records s) /\
  Forall (fun m => is_string (BackupMetadata.timestamp m)) (records s').
Proof.
  intros Hwrite Hread disk s'.
  assert (disk !! historyPath = Some (File (CHistory (map toJSON (records s))))) as Hdoc.
  { subst disk. unfold post. rewrite saveBackupHistory_eq, Hwrite. simpl.
    apply lookup_insert_eq. }
  assert (records s' = map toJSON (records s)) as Hrec.
  { by apply loadBackupHistory_records. }
  split.
  { unfold res. rewrite loadBackupHistory_eq, Hread. simpl. by rewrite Hdoc. }
  split; [done|]. rewrite Hrec, <- !list_fmap_compose.
  do 6 (split; [done|]). split.
  - apply list_fmap_ext. intros i m _. simpl.
    by destruct (BackupMetadata.timestamp m).
  - apply Forall_forall. intros m Hm. apply list_elem_of_fmap in Hm as (m0 & -> & _).
    simpl. by destruct (BackupMetadata.timestamp m0).
Qed.

Lemma history_round_trip_witness :
  let disk := fs (post (saveBackupHistory (shop quiet 3000)) afterTwoBackups) in
  let s' := post (loadBackupHistory (shop quiet 4000)) (newService disk) in
  io_fail (shop quiet 3000) (OpWriteFile historyPath) = None /\
  records s' = map toJSON (records afterTwoBackups).
Proof.
  split; [reflexivity|].
  apply (history_round_trip (shop quiet 3000) (shop quiet 4000) afterTwoBackups
           eq_refl eq_refl).
Defined.

(** X6.  A history document that cannot be read when the
    service starts is taken for an empty history, without an error and
    without a log entry; the next run then writes a document that holds
    its own record only, whatever the document held before. *)
Theorem failed_load_forgets_history e0 e options f error :
  io_fail e0 (OpReadFile historyPath) = Some error ->
  io_fail e (OpWriteFile historyPath) = None ->
  let s0 := post (loadBackupHistory e0) (newService f) in
  let s1 := post (createFullBackup e options) s0 in
  res (loadBackupHistory e0) (newService f) = Ok tt /\
  backupHistory s0 = [] /\ logs s0 = [] /\ fs s0 = f /\
  exists m,
    fs s1 !! historyPath = Some (File (CHistory [m])) /\
    BackupMetadata.id m = backupIdOf e.
Proof.
  intros Hread Hwrite s0 s1.
  assert (s0 = newService f) as Hs0.
  { subst s0. unfold post. by rewrite loadBackupHistory_eq, Hread. }
  split. { unfold res. by rewrite loadBackupHistory_eq, Hread. }
  rewrite Hs0. do 3 (split; [done|]).
  subst s1. rewrite Hs0. unfold post.
  rewrite createFullBackup_run by done.
  pose proof (produceArtifact_mem_eq e options (backupIdOf e) (acquired e (newService f)))
    as [(_&_&Hheap&Hhist) _].
  destruct (produceArtifact e options (backupIdOf e) (acquired e (newService f)))
    as [[[a|err] s2] t2]; simpl in *;
    rewrite saveBackupHistory_eq, Hwrite; simpl; rewrite lookup_insert_eq;
    unfold records; simpl; rewrite Hheap, Hhist; simpl; eexists; (split; [reflexivity|]);
    done.
Qed.

Lemma failed_load_forgets_history_witness :
  let e0 := shop (only (OpReadFile historyPath) EACCES) 3000 in
  let s0 := post (loadBackupHistory e0) (newService (fs afterTwoBackups)) in
  let s1 := post (createFullBackup (shop quiet 4000) defaultOptions) s0 in
  io_fail e0 (OpReadFile historyPath) = Some EACCES /\
  List.length (records afterTwoBackups) = 2%nat /\
  exists m, fs s1 !! historyPath = Some (File (CHistory [m])).
Proof.
  split; [reflexivity|]. split; [reflexivity|].
  destruct (failed_load_forgets_history
              (shop (only (OpReadFile historyPath) EACCES) 3000) (shop quiet 4000)
              defaultOptions (fs afterTwoBackups) EACCES eq_refl eq_refl)
    as (_ & _ & _ & _ & m & Hm & _).
  exists m. exact Hm.
Defined.

(** X7.  A run whose write of the history document is rejected
    keeps its record in memory only: the document on disk is the old one,
    and a new process that reads it knows the old records and not the
    record of that run. *)
Theorem unsaved_record_lost_at_restart e e' options s error old :
  isBackupRunning s = false ->
  io_fail e (OpWriteFile historyPath) = Some error ->
  io_fail e' (OpReadFile historyPath) = None ->
  fs s !! historyPath = Some (File (CHistory old)) ->
  let s1 := post (createFullBackup e options) s in
  let s2 := post (loadBackupHistory e') (newService (fs s1)) in
  backupHistory s1 = backupHistory s ++ [List.length (heap s)] /\
  fs s1 !! historyPath = Some (File (CHistory old)) /\
  records s2 = old.
Proof.
  intros Hfree Hwrite Hread Hdoc s1 s2.
  destruct (createFullBackup_append_only e options s Hfree) as [Hhist _].
  assert (fs s1 !! historyPath = Some (File (CHistory old))) as Hdoc1.
  { subst s1. unfold post. rewrite createFullBackup_run by done.
    pose proof (produceArtifact_fs_only e options (backupIdOf e) (acquired e s))
      as [[_ [Hg _]] _].
    destruct (produceArtifact e options (backupIdOf e) (acquired e s))
      as [[[a|err] sA] tA]; simpl in *;
      rewrite saveBackupHistory_eq, Hwrite; simpl;
      (eapply fs_grow_keep; [exact Hg|apply run_region_history|exact Hdoc]). }
  split; [exact Hhist|]. split; [exact Hdoc1|].
  by apply loadBackupHistory_records.
Qed.

Lemma unsaved_record_lost_at_restart_witness :
  let e := shop (only (OpWriteFile historyPath) EACCES) 3000 in
  let s1 := post (createFullBackup e defaultOptions) afterTwoBackups in
  let s2 := post (loadBackupHistory (shop quiet 4000)) (newService (fs s1)) in
  io_fail e (OpWriteFile historyPath) = Some EACCES /\
  List.length (backupHistory s1) = 3%nat /\
  List.length (records s2) = 2%nat.
Proof.
  split; [reflexivity|].
  destruct (unsaved_record_lost_at_restart
              (shop (only (OpWriteFile historyPath) EACCES) 3000) (shop quiet 4000)
              defaultOptions afterTwoBackups EACCES
              (map toJSON (records afterTwoBackups)) eq_refl eq_refl eq_refl)
    as (H1 & _ & H3).
  - vm_compute. reflexivity.
  - split; [by rewrite H1|]. by rewrite H3.
Defined.

(* ================================================================= *)
(** ** Initialisation of the backup directory *)

Lemma add_dir_lookup (q : Path) (f : gmap Path Node) (p : Path) :
  add_dir q f !! p =
    match f !! p with
    | Some n => Some n
    | None => if decide (p = q) then Some Dir else None
    end.
Proof.
  unfold add_dir. destruct (f !! q) as [n|] eqn:Hq.
  - destruct (f !! p) as [n'|] eqn:Hp; [done|].
    destruct (decide (p = q)) as [->|]; [congruence|done].
  - destruct (decide (p = q)) as [->|Hne].
    + by rewrite lookup_insert_eq, Hq.
    + rewrite lookup_insert_ne by done. by destruct (f !! p).
Qed.

(** X8.  When the four [mkdir] calls are not rejected,
    [initializeBackupDirectory] returns normally, the four directories
    exist afterwards, every path that existed keeps its node, nothing but
    these directories is added, and a second call changes nothing on disk.
    When the first [mkdir] is rejected the error is logged and thrown, and
    the disk is as before. *)
Theorem initializeBackupDirectory_creates e s :
  ((forall d, d ∈ backupDirectories -> io_fail e (OpMkdir d) = None) ->
   let s' := post (initializeBackupDirectory e) s in
   res (initializeBackupDirectory e) s = Ok tt /\
   (forall d, d ∈ backupDirectories -> is_Some (fs s' !! d)) /\
   (forall p n, fs s !! p = Some n -> fs s' !! p = Some n) /\
   (forall p, fs s !! p = None ->
      fs s' !! p = None \/ (fs s' !! p = Some Dir /\ p ∈ backupDirectories)) /\
   fs (post (initializeBackupDirectory e) s') = fs s') /\
  (forall error, io_fail e (OpMkdir backupDir) = Some error ->
     initializeBackupDirectory e s =
       (Throw error,
        add_log (LogError "Failed to initialize backup directories:" error) s, [s])).
Proof.
  split.
  - intros Hq.
    assert (io_fail e (OpMkdir backupDir) = None) as H1 by (apply Hq; set_solver).
    assert (io_fail e (OpMkdir (backupDir ++ ["database"])) = None) as H2
      by (apply Hq; set_solver).
    assert (io_fail e (OpMkdir (backupDir ++ ["files"])) = None) as H3
      by (apply Hq; set_solver).
    assert (io_fail e (OpMkdir (backupDir ++ ["exports"])) = None) as H4
      by (apply Hq; set_solver).
    assert (forall s0,
              res (initializeBackupDirectory e) s0 = Ok tt /\
              fs (post (initializeBackupDirectory e) s0)
                = add_dir (backupDir ++ ["exports"])
                    (add_dir backupDir
                       (add_dir (backupDir ++ ["files"])
                          (add_dir backupDir
                             (add_dir (backupDir ++ ["database"])
                                (add_dir backupDir
                                   (add_dir backupDir (fs s0)))))))) as Hrun.
    { intros s0.
      unfold res, post, initializeBackupDirectory, try_catch, bind, mkdir, await,
        log, modify.
      rewrite H1. simpl. oracle_quiet H2. simpl. oracle_quiet H3. simpl.
      oracle_quiet H4. simpl. done. }
    cbv zeta. destruct (Hrun s) as [Hres Hfs].
    split; [exact Hres|].
    destruct (Hrun (post (initializeBackupDirectory e) s)) as [_ Hfs2].
    rewrite Hfs2. rewrite Hfs. clear Hfs2 Hfs Hres Hrun.
    split; [|split; [|split]].
    + intros d Hd. rewrite !add_dir_lookup.
      unfold backupDirectories in Hd.
      destruct (fs s !! d); [by eexists|].
      repeat (apply elem_of_cons in Hd as [->|Hd]);
        [| | | |by apply elem_of_nil in Hd];
        repeat (case_decide; try done); by eexists.
    + intros p n Hp. rewrite !add_dir_lookup. by rewrite Hp.
    + intros p Hp. rewrite !add_dir_lookup. rewrite Hp.
      unfold backupDirectories.
      repeat (case_decide; [subst p; right; split; [done|set_solver]|]). by left.
    + apply map_eq. intros p. rewrite !add_dir_lookup.
      destruct (fs s !! p); [done|]. by repeat case_decide.
  - intros error Hfail.
    unfold initializeBackupDirectory, try_catch, bind, mkdir, await, log, modify,
      throw.
    by rewrite Hfail.
Qed.

Lemma initializeBackupDirectory_creates_witness :
  (forall d, d ∈ backupDirectories -> io_fail (shop quiet 1000) (OpMkdir d) = None) /\
  res (initializeBackupDirectory (shop quiet 1000)) (newService ∅) = Ok tt /\
  is_Some (fs (post (initializeBackupDirectory (shop quiet 1000)) (newService ∅))
             !! (backupDir ++ ["exports"])).
Proof.
  assert (forall d, d ∈ backupDirectories -> io_fail (shop quiet 1000) (OpMkdir d) = None)
    as Hq by reflexivity.
  split; [exact Hq|].
  destruct (initializeBackupDirectory_creates (shop quiet 1000) (newService ∅))
    as [H _].
  destruct (H Hq) as (H1 & H2 & _).
  split; [exact H1|]. apply H2. unfold backupDirectories. set_solver.
Defined.

(* ================================================================= *)
(** ** Errors while copying uploads and logs *)

(** X9.  [backupFiles] and [backupLogs] throw only when their
    own directory cannot be created.  Whatever else fails - the source
    directory is missing, cannot be read, or one file cannot be copied -
    is caught: the call returns normally and its last log line is
    either the completion message or the warning that the directory was
    not found. *)
Theorem copy_errors_are_swallowed e backupPath s :
  let copyUploads := backupFiles e backupPath in
  let copyLogs := backupLogs e backupPath in
  (io_fail e (OpMkdir (backupPath ++ ["files"])) = None ->
   res copyUploads s = Ok tt /\
   (last (logs (post copyUploads s)) = Some (LogInfo "Files backup completed") \/
    last (logs (post copyUploads s))
      = Some (LogWarn "Uploads directory not found, skipping files backup")) /\
   (uploads e = None ->
    last (logs (post copyUploads s))
      = Some (LogWarn "Uploads directory not found, skipping files backup"))) /\
  (io_fail e (OpMkdir (backupPath ++ ["logs"])) = None ->
   res copyLogs s = Ok tt /\
   (last (logs (post copyLogs s)) = Some (LogInfo "Logs backup completed") \/
    last (logs (post copyLogs s))
      = Some (LogWarn "Logs directory not found, skipping logs backup")) /\
   (logFiles e = None ->
    last (logs (post copyLogs s))
      = Some (LogWarn "Logs directory not found, skipping logs backup"))) /\
  (forall error, io_fail e (OpMkdir (backupPath ++ ["files"])) = Some error ->
     res copyUploads s = Throw error /\
     last (logs (post copyUploads s)) = Some (LogError "Files backup failed:" error)) /\
  (forall error, io_fail e (OpMkdir (backupPath ++ ["logs"])) = Some error ->
     res copyLogs s = Throw error /\
     last (logs (post copyLogs s)) = Some (LogError "Logs backup failed:" error)).
Proof.
  cbv zeta. split; [|split; [|split]].
  - intros Hmkdir.
    unfold res, post, backupFiles, try_catch, bind, mkdir, await, log, modify.
    rewrite Hmkdir. simpl.
    destruct (access_tree e _ _ _) as [[[tree|err] s2] t2] eqn:Ha; simpl.
    + assert (uploads e <> None) as Hsome.
      { intros Hnone. unfold access_tree, await in Ha. rewrite Hnone in Ha.
        by destruct (io_fail e (OpAccess _)). }
      destruct (copyDirectory e tree _ _ s2) as [[[[]|err] s3] t3]; simpl;
        (split; [done|]); (split; [|done]).
      * left. apply last_snoc.
      * right. apply last_snoc.
    + split; [done|]. split; [right; apply last_snoc|]. intros _. apply last_snoc.
  - intros Hmkdir.
    unfold res, post, backupLogs, try_catch, bind, mkdir, await, log, modify.
    rewrite Hmkdir. simpl.
    destruct (access_tree e _ _ _) as [[[tree|err] s2] t2] eqn:Ha; simpl.
    + assert (logFiles e <> None) as Hsome.
      { intros Hnone. unfold access_tree, await in Ha. rewrite Hnone in Ha.
        by destruct (io_fail e (OpAccess _)). }
      destruct (copyDirectory e tree _ _ s2) as [[[[]|err] s3] t3]; simpl;
        (split; [done|]); (split; [|done]).
      * left. apply last_snoc.
      * right. apply last_snoc.
    + split; [done|]. split; [right; apply last_snoc|]. intros _. apply last_snoc.
  - intros error Hmkdir.
    unfold res, post, backupFiles, try_catch, bind, mkdir, await, log, modify, throw.
    rewrite Hmkdir. simpl. split; [done|]. apply last_snoc.
  - intros error Hmkdir.
    unfold res, post, backupLogs, try_catch, bind, mkdir, await, log, modify, throw.
    rewrite Hmkdir. simpl. split; [done|]. apply last_snoc.
Qed.

Lemma copy_errors_are_swallowed_witness :
  let src := ["public"; "uploads"; "logo.png"] in
  let dest := ["backups"; "backup_1000"; "files"; "uploads"; "logo.png"] in
  let e := shop (only (OpCopyFile src dest) EACCES) 1000 in
  io_fail e (OpMkdir (stagingOf e ++ ["files"])) = None /\
  io_fail e (OpCopyFile src dest) = Some EACCES /\
  res (backupFiles e (stagingOf e)) (newService ∅) = Ok tt /\
  last (logs (post (backupFiles e (stagingOf e)) (newService ∅)))
    = Some (LogWarn "Uploads directory not found, skipping files backup").
Proof.
  split; [reflexivity|]. split; [reflexivity|].
  destruct (copy_errors_are_swallowed
              (shop (only (OpCopyFile ["public"; "uploads"; "logo.png"]
                             ["backups"; "backup_1000"; "files"; "uploads"; "logo.png"])
                          EACCES) 1000)
              (stagingOf (shop quiet 1000)) (newService ∅)) as [H _].
  destruct (H eq_refl) as (H1 & _ & _).
  split; [exact H1|]. vm_compute. reflexivity.
Defined.

(* ================================================================= *)
(** ** Copying a directory *)

Lemma copyDirectory_loop e src dest entries :
  copyDirectory e (TDir entries) src dest =
    (mkdir e dest ;; readdir_tree e src (TDir entries) ;; copyEntries e src dest entries).
Proof.
  simpl. f_equal.
  assert ((fix loop (rest : list (string * DirTree)) : M unit :=
             match rest with
             | [] => ret tt
             | (name, entry) :: rest' =>
                 match entry with
                 | TFile c => copyFile e (src ++ [name]) (dest ++ [name]) c
                 | TDir _ => copyDirectory e entry (src ++ [name]) (dest ++ [name])
                 end ;; loop rest'
             end) entries = copyEntries e src dest entries) as ->; [|done].
  induction entries as [|[name entry] rest IH]; [done|].
  unfold copyEntries. simpl. rewrite IH. unfold copyEntry. simpl.
  by destruct entry.
Qed.

Lemma tree_files_dir entries p c :
  (p, c) ∈ tree_files (TDir entries) <->
  exists name sub rel, (name, sub) ∈ entries /\ (rel, c) ∈ tree_files sub /\ p = name :: rel.
Proof.
  simpl. induction entries as [|[name sub] rest IH].
  - split; [by intros ?%elem_of_nil|]. intros (?&?&?&?%elem_of_nil&_). done.
  - rewrite elem_of_app, IH, list_elem_of_fmap. split.
    + intros [([rel c'] & [= -> ->] & Hin)|(name' & sub' & rel & Hin & Hrel & ->)].
      * exists name, sub, rel. split; [by left|done].
      * exists name', sub', rel. split; [by right|done].
    + intros (name' & sub' & rel & Hin & Hrel & ->).
      apply elem_of_cons in Hin as [[= -> ->]|Hin].
      * left. by exists (rel, c).
      * right. by exists name', sub', rel.
Qed.

Lemma distinct_names_dir entries :
  distinct_names (TDir entries) <->
  NoDup (map fst entries) /\ Forall (fun x => distinct_names x.2) entries.
Proof.
  simpl. assert ((fix all_distinct (rest : list (string * DirTree)) : Prop :=
                    match rest with
                    | [] => True
                    | (_, sub) :: rest' => distinct_names sub /\ all_distinct rest'
                    end) entries <-> Forall (fun x => distinct_names x.2) entries) as ->;
    [|done].
  induction entries as [|[name sub] rest IH]; [by split|].
  rewrite Forall_cons, IH. done.
Qed.

Lemma copyEntry_fs_only e src dest entry :
  respects (fs_step (below (dest ++ [entry.1]))) (copyEntry e src dest entry).
Proof.
  unfold copyEntry. destruct entry as [name [c|sub]]; cbn [fst snd].
  - apply copyFile_fs_only. unfold below. done.
  - apply copyDirectory_fs_only.
Qed.

Lemma copyEntries_fs_only e src dest entries :
  respects (fs_step (fun p => exists name, name ∈ map fst entries /\
                                           below (dest ++ [name]) p))
           (copyEntries e src dest entries).
Proof.
  apply respects_for_each; [exact _|]. intros entry Hentry.
  eapply respects_fs_step_mono; [|apply copyEntry_fs_only].
  intros p Hp. exists entry.1. split; [|done]. by apply list_elem_of_fmap_2.
Qed.

Lemma copyEntries_copied e src dest entries :
  all_quiet e ->
  Forall (fun x => match x.2 with TDir _ => copied e x.2 | TFile _ => True end) entries ->
  NoDup (map fst entries) ->
  Forall (fun x => distinct_names x.2) entries ->
  forall s,
    res (copyEntries e src dest entries) s = Ok tt /\
    forall name sub rel c,
      (name, sub) ∈ entries -> (rel, c) ∈ tree_files sub ->
      fs (post (copyEntries e src dest entries) s) !! (dest ++ name :: rel)
        = Some (File c).
Proof.
  intros Hq Hall. induction Hall as [|[name0 sub0] rest Hsub _ IH];
    intros Hnd Hdist s.
  { split; [done|]. intros name sub rel c Hin. by apply elem_of_nil in Hin. }
  cbn [map fst] in Hnd. apply NoDup_cons in Hnd as [Hfresh Hnd].
  apply Forall_cons in Hdist as [Hdist0 Hdist]. cbn [snd] in Hsub, Hdist0.
  assert (res (copyEntry e src dest (name0, sub0)) s = Ok tt /\
          forall rel c, (rel, c) ∈ tree_files sub0 ->
            fs (post (copyEntry e src dest (name0, sub0)) s) !! (dest ++ name0 :: rel)
              = Some (File c)) as [Hres Hfiles].
  { unfold copyEntry. cbn [fst snd]. destruct sub0 as [c0|sub].
    - unfold res, post, copyFile, await. rewrite Hq. cbn [fst snd fs set_fs].
      split; [done|].
      intros rel c Hin. apply list_elem_of_singleton in Hin as [= -> ->].
      apply lookup_insert_eq.
    - destruct (Hsub (src ++ [name0]) (dest ++ [name0]) s Hdist0) as [H1 H2].
      split; [done|]. intros rel c Hin. specialize (H2 rel c Hin).
      by rewrite <- app_assoc in H2. }
  unfold copyEntries. cbn [for_each].
  rewrite (res_bind _ _ _ tt Hres), (post_bind _ _ _ tt Hres).
  set (s1 := post (copyEntry e src dest (name0, sub0)) s) in *.
  destruct (IH Hnd Hdist s1) as [IH1 IH2]. fold (copyEntries e src dest rest).
  split; [done|].
  intros name sub rel c Hin Hrel. apply elem_of_cons in Hin as [[= -> ->]|Hin].
  - pose proof (post_respects _ _ s1 (copyEntries_fs_only e src dest rest))
      as (_ & Hg & _).
    eapply fs_grow_keep; [exact Hg| |by apply Hfiles].
    intros (name' & Hname' & Hbelow). apply Hfresh.
    assert (name' = name0) as ->; [|done].
    destruct Hbelow as [k Hk]. rewrite <- !app_assoc in Hk.
    apply app_inv_head in Hk. simpl in Hk. congruence.
  - by apply (IH2 name sub).
Qed.

Lemma copyDirectory_copied e t :
  all_quiet e -> match t with TDir _ => copied e t | TFile _ => True end.
Proof.
  intros Hq. induction t as [c|entries IH] using DirTree_nested_ind; [done|].
  intros src dest s Hdist. apply distinct_names_dir in Hdist as [Hnd Hdist].
  rewrite copyDirectory_loop.
  destruct (mkdir_quiet e dest s (Hq _)) as [Hm1 Hm2].
  rewrite (res_bind _ _ _ tt Hm1), (post_bind _ _ _ tt Hm1).
  set (s1 := post (mkdir e dest) s) in *.
  assert (res (readdir_tree e src (TDir entries)) s1 = Ok tt /\
          post (readdir_tree e src (TDir entries)) s1 = s1) as [Hr1 Hr2].
  { unfold res, post, readdir_tree, await. by rewrite Hq. }
  rewrite (res_bind _ _ _ tt Hr1), (post_bind _ _ _ tt Hr1), Hr2.
  destruct (copyEntries_copied e src dest entries Hq IH Hnd Hdist s1) as [H1 H2].
  split; [done|]. intros rel c Hin.
  apply tree_files_dir in Hin as (name & sub & rel' & Hin & Hrel & ->).
  by apply (H2 name sub).
Qed.

(** X10.  When no operation is rejected, [copyDirectory] of a
    directory returns normally and every file of the source tree is at the
    same relative path below [dest], with the same content; outside [dest]
    nothing changes except that missing directories on the way to [dest]
    are created. *)
Theorem copyDirectory_copies_tree e entries src dest s :
  all_quiet e ->
  distinct_names (TDir entries) ->
  let s' := post (copyDirectory e (TDir entries) src dest) s in
  res (copyDirectory e (TDir entries) src dest) s = Ok tt /\
  (forall rel c, (rel, c) ∈ tree_files (TDir entries) ->
     fs s' !! (dest ++ rel) = Some (File c)) /\
  (forall p, ~ below dest p ->
     fs s' !! p = fs s !! p \/ (fs s !! p = None /\ fs s' !! p = Some Dir)) /\
  mem_eq s s'.
Proof.
  intros Hq Hdist s'.
  destruct (copyDirectory_copied e (TDir entries) Hq src dest s Hdist) as [H1 H2].
  split; [done|]. split; [done|].
  pose proof (post_respects _ _ s (copyDirectory_fs_only e (TDir entries) src dest))
    as (Hmem & Hg & _).
  split; [|done]. intros p Hp. destruct (Hg p) as [?|[?|?]]; tauto.
Qed.

Lemma copyDirectory_copies_tree_witness :
  let s' := post (copyDirectory (shop quiet 1000) (TDir uploadsTree)
                    ["public"; "uploads"] ["copy"]) (newService ∅) in
  all_quiet (shop quiet 1000) /\
  distinct_names (TDir uploadsTree) /\
  fs s' !! ["copy"; "receipts"; "r1.pdf"] = Some (File (CText "pdf")).
Proof.
  assert (all_quiet (shop quiet 1000)) as Hq by (intros op; reflexivity).
  assert (distinct_names (TDir uploadsTree)) as Hd.
  { apply distinct_names_dir. split.
    - apply (bool_decide_unpack _). vm_compute. reflexivity.
    - repeat constructor. apply (bool_decide_unpack _). vm_compute. reflexivity. }
  split; [exact Hq|]. split; [exact Hd|].
  destruct (copyDirectory_copies_tree (shop quiet 1000) uploadsTree
              ["public"; "uploads"] ["copy"] (newService ∅) Hq Hd) as (_ & H & _).
  apply (H ["receipts"; "r1.pdf"] (CText "pdf")).
  apply tree_files_dir. exists "receipts", (TDir [("r1.pdf", TFile (CText "pdf"))]), ["r1.pdf"].
  split; [set_solver|]. split; [|done]. simpl. set_solver.
Defined.

(* ================================================================= *)
(** ** Names of archives *)

Lemma all_chars_app ok a b :
  all_chars ok (a +:+ b) = all_chars ok a && all_chars ok b.
Proof.
  induction a as [|c a IH]; [done|].
  change (ok c && all_chars ok (a +:+ b) = ok c && all_chars ok a && all_chars ok b).
  rewrite IH. by destruct (ok c).
Qed.

Lemma all_chars_mono (ok ok' : ascii -> bool) s :
  (forall c, ok c = true -> ok' c = true) ->
  all_chars ok s = true -> all_chars ok' s = true.
Proof.
  intros H. induction s as [|c s IH]; [done|]. simpl.
  rewrite !andb_true_iff. intros [? ?]. auto.
Qed.

Lemma pretty_N_go_numeric x : forall s,
  all_chars numeric s = true -> all_chars numeric (pretty_N_go x s) = true.
Proof.
  induction (N.lt_wf_0 x) as [x _ IH]. intros s Hs.
  assert (x = 0 \/ 0 < x)%N as [->|Hpos] by lia.
  - by rewrite pretty_N_go_0.
  - rewrite pretty_N_go_step by done. apply IH; [by apply N.div_lt|].
    simpl. rewrite Hs, andb_true_r.
    unfold pretty_N_char. by repeat case_match.
Qed.

Lemma pretty_Z_numeric (z : Z) : all_chars numeric (pretty z) = true.
Proof.
  assert (forall p : positive, all_chars numeric (pretty p) = true) as Hpos.
  { intros p. unfold pretty, pretty_positive, pretty, pretty_N.
    case_decide; [done|]. by apply pretty_N_go_numeric. }
  destruct z as [|p|p]; [done|apply Hpos|].
  change (pretty (Z.neg p)) with ("-" +:+ pretty p).
  rewrite all_chars_app, Hpos. done.
Qed.

(** A needle whose first character does not occur in [a] is found in
    [a +:+ b] only inside [b]. *)
Lemma includes_skip c n a b :
  all_chars (fun x => negb (Ascii.eqb x c)) a = true ->
  includes (String c n) (a +:+ b) = includes (String c n) b.
Proof.
  induction a as [|x a IH]; [done|]. simpl all_chars.
  rewrite andb_true_iff. intros [Hx Ha].
  change (includes (String c n) (String x a +:+ b))
    with (String.prefix (String c n) (String x (a +:+ b))
          || includes (String c n) (a +:+ b)).
  rewrite (IH Ha). simpl.
  destruct (ascii_dec c x) as [->|Hne]; [|done].
  by rewrite Ascii.eqb_refl in Hx.
Qed.

Lemma archive_name_accepted e : rejected (archiveNameOf e) = false.
Proof.
  assert (all_chars numeric (pretty (dateNow e)) = true) as Hnum
    by apply pretty_Z_numeric.
  assert (forall c, numeric c = true ->
            negb (Ascii.eqb c ".") && negb (Ascii.eqb c "/")
            && negb (Ascii.eqb c "092") = true) as Hok.
  { intros c. unfold numeric. destruct c as [[] [] [] [] [] [] [] []]; by vm_compute. }
  assert (forall c0 : ascii,
            (c0 = "."%char \/ c0 = "/"%char \/ c0 = "092"%char) ->
            all_chars (fun x => negb (Ascii.eqb x c0)) (backupIdOf e) = true) as Hid.
  { intros c0 Hc0. unfold backupIdOf. rewrite all_chars_app.
    apply andb_true_iff. split.
    - destruct Hc0 as [->|[->| ->]]; by vm_compute.
    - eapply all_chars_mono; [|exact Hnum]. intros c Hc. apply Hok in Hc.
      rewrite !andb_true_iff in Hc. destruct Hc as [[H1 H2] H3].
      by destruct Hc0 as [->|[->| ->]]. }
  unfold rejected, archiveNameOf, backslash.
  rewrite !includes_skip by (apply Hid; auto). by vm_compute.
Qed.

Lemma last_dot_suffix_gz a : last_dot_suffix (a +:+ ".tar.gz") = Some ".gz".
Proof.
  induction a as [|c a IH]; [by vm_compute|].
  change (last_dot_suffix (String c (a +:+ ".tar.gz")) = Some ".gz").
  simpl. by rewrite IH.
Qed.

Lemma archive_content_type e :
  contentTypeOf (toLowerCase (extname (archiveNameOf e))) = "application/gzip".
Proof.
  unfold archiveNameOf, backupIdOf.
  change (("backup_" +:+ pretty (dateNow e)) +:+ ".tar.gz")
    with (String "b" (("ackup_" +:+ pretty (dateNow e)) +:+ ".tar.gz")).
  unfold extname. cbv beta iota. by rewrite last_dot_suffix_gz.
Qed.

(* ================================================================= *)
(** ** A run in which nothing fails *)

Section QuietRun.
Context (e : Env) (Hq : all_quiet e).

Lemma access_tree_quiet p tree s :
  run_ok (access_tree e p (Some tree)) s tree s.
Proof. unfold run_ok, res, post, access_tree, await. by rewrite Hq. Qed.

Lemma backupFiles_copies backupPath entries s :
  uploads e = Some (TDir entries) ->
  distinct_names (TDir entries) ->
  res (backupFiles e backupPath) s = Ok tt /\
  forall rel c, (rel, c) ∈ tree_files (TDir entries) ->
    fs (post (backupFiles e backupPath) s) !! (backupPath ++ "files" :: "uploads" :: rel)
      = Some (File c).
Proof.
  intros Hup Hdist.
  destruct (mkdir_quiet e (backupPath ++ ["files"]) s (Hq _)) as [Hm1 Hm2].
  set (s1 := post (mkdir e (backupPath ++ ["files"])) s) in *.
  destruct (copyDirectory_copied e (TDir entries) Hq ["public"; "uploads"]
              ((backupPath ++ ["files"]) ++ ["uploads"]) s1 Hdist) as [Hc1 Hc2].
  set (s2 := post (copyDirectory e (TDir entries) ["public"; "uploads"]
                     ((backupPath ++ ["files"]) ++ ["uploads"])) s1) in *.
  assert (run_ok (backupFiles e backupPath) s tt
            (add_log (LogInfo "Files backup completed") s2)) as [Hr Hp].
  { unfold backupFiles. rewrite Hup. apply run_ok_try_catch.
    eapply run_ok_bind; [split; [exact Hm1|reflexivity]|].
    apply run_ok_try_catch.
    eapply run_ok_bind; [apply access_tree_quiet|].
    eapply run_ok_bind; [split; [exact Hc1|reflexivity]|]. done. }
  split; [done|]. intros rel c Hin. rewrite Hp. simpl.
  specialize (Hc2 rel c Hin). by rewrite <- !app_assoc in Hc2.
Qed.

Lemma backupLogs_copies backupPath entries s :
  logFiles e = Some (TDir entries) ->
  distinct_names (TDir entries) ->
  res (backupLogs e backupPath) s = Ok tt /\
  forall rel c, (rel, c) ∈ tree_files (TDir entries) ->
    fs (post (backupLogs e backupPath) s) !! (backupPath ++ "logs" :: rel)
      = Some (File c).
Proof.
  intros Hlogs Hdist.
  destruct (mkdir_quiet e (backupPath ++ ["logs"]) s (Hq _)) as [Hm1 Hm2].
  set (s1 := post (mkdir e (backupPath ++ ["logs"])) s) in *.
  destruct (copyDirectory_copied e (TDir entries) Hq ["logs"]
              (backupPath ++ ["logs"]) s1 Hdist) as [Hc1 Hc2].
  set (s2 := post (copyDirectory e (TDir entries) ["logs"] (backupPath ++ ["logs"])) s1)
    in *.
  assert (run_ok (backupLogs e backupPath) s tt
            (add_log (LogInfo "Logs backup completed") s2)) as [Hr Hp].
  { unfold backupLogs. rewrite Hlogs. apply run_ok_try_catch.
    eapply run_ok_bind; [split; [exact Hm1|reflexivity]|].
    apply run_ok_try_catch.
    eapply run_ok_bind; [apply access_tree_quiet|].
    eapply run_ok_bind; [split; [exact Hc1|reflexivity]|]. done. }
  split; [done|]. intros rel c Hin. rewrite Hp. simpl.
  specialize (Hc2 rel c Hin). by rewrite <- !app_assoc in Hc2.
Qed.

(** The steps of the [try] block of a compressed run: they succeed, the
    archive holds what the snapshot steps wrote, and the staging
    directory is removed. *)
Lemma produceArtifact_quiet options s :
  not_false (BackupOptions.compression options) = true ->
  exists entries s1,
    run_ok (produceArtifact e options (backupIdOf e)) s
           (archiveOf e, fileSize e (File (CArchive entries)), sha256 e (CArchive entries))
           s1 /\
    fs s1 !! archiveOf e = Some (File (CArchive entries)) /\
    (forall p, below (stagingOf e) p -> fs s1 !! p = None) /\
    (not_false (BackupOptions.includeDatabase options) = true ->
     forall name data, (name, data) ∈ collectionsOf e ->
       (["database"; name +:+ ".json"], CRecords data) ∈ entries) /\
    (not_false (BackupOptions.includeUploads options) = true ->
     forall tree, uploads e = Some (TDir tree) -> distinct_names (TDir tree) ->
     forall rel c, (rel, c) ∈ tree_files (TDir tree) ->
       ("files" :: "uploads" :: rel, c) ∈ entries) /\
    (truthy (BackupOptions.includeLogs options) = true ->
     forall tree, logFiles e = Some (TDir tree) -> distinct_names (TDir tree) ->
     forall rel c, (rel, c) ∈ tree_files (TDir tree) ->
       ("logs" :: rel, c) ∈ entries).
Proof.
  intros Hzip.
  pose proof (quiet_only_snapshots_fail e Hq) as Hsnap.
  set (sA := add_log (LogInfo ("Starting full backup: " +:+ backupIdOf e)) s).
  destruct (mkdir_quiet e (stagingOf e) sA (Hq _)) as [HB1 HB2].
  set (sB := post (mkdir e (stagingOf e)) sA) in *.
  assert (is_Some (fs sB !! stagingOf e)) as [n0 Hstaging].
  { rewrite HB2. simpl. apply (mkdir_p_creates (stagingOf e) [] (fs s)). done. }
  (* database *)
  set (mC := when (not_false (BackupOptions.includeDatabase options))
                  (backupDatabase e (stagingOf e))).
  assert (res mC sB = Ok tt) as HC1.
  { apply when_ok. intros s0. apply (backupDatabase_result e Hsnap s0). }
  pose proof (post_respects _ mC sB
                (respects_when _ _ _ (backupDatabase_fs_only e (stagingOf e))))
    as (_ & HCg & _).
  set (sC := post mC sB) in *.
  (* files *)
  set (mD := when (not_false (BackupOptions.includeUploads options))
                  (backupFiles e (stagingOf e))).
  assert (res mD sC = Ok tt) as HD1 by (apply when_ok, (backupFiles_ok e Hsnap)).
  pose proof (post_respects _ mD sC
                (respects_when _ _ _ (backupFiles_fs_only e (stagingOf e))))
    as (_ & HDg & _).
  set (sD := post mD sC) in *.
  (* logs *)
  set (mE := when (truthy (BackupOptions.includeLogs options))
                  (backupLogs e (stagingOf e))).
  assert (res mE sD = Ok tt) as HE1 by (apply when_ok, (backupLogs_ok e Hsnap)).
  pose proof (post_respects _ mE sD
                (respects_when _ _ _ (backupLogs_fs_only e (stagingOf e))))
    as (_ & HEg & _).
  set (sE := post mE sD) in *.
  assert (fs sE !! stagingOf e = Some n0) as HstagingE.
  { eapply fs_grow_keep; [exact HEg|apply not_below_longer|].
    eapply fs_grow_keep; [exact HDg|apply not_below_longer|].
    eapply fs_grow_keep; [exact HCg|apply not_below_longer|]. done. }
  (* archive, removal of the staging directory, size, checksum *)
  destruct (createArchive_quiet e (stagingOf e) (backupIdOf e +:+ ".tar.gz") sE
              (Hq _) (Hq _)) as (HF1 & HF2 & _).
  set (sF := post (createArchive e (stagingOf e) (backupIdOf e +:+ ".tar.gz")) sE) in *.
  set (entries := archive_entries (stagingOf e) (fs sE)) in *.
  destruct (rm_quiet e (stagingOf e) false sF n0 (Hq _)) as [HG1 HG2].
  { rewrite HF2. rewrite lookup_insert_ne; [done|]. apply archive_not_staging. }
  set (sG := post (rm e (stagingOf e) false) sF) in *.
  assert (fs sG !! archiveOf e = Some (File (CArchive entries))) as Harchive.
  { rewrite HG2. simpl. rewrite rm_rf_lookup.
    rewrite decide_False by apply archive_not_below_staging.
    rewrite HF2. apply lookup_insert_eq. }
  destruct (stat_quiet e (archiveOf e) sG _ (Hq _) Harchive) as [HH1 HH2].
  destruct (calculateChecksum_quiet e (archiveOf e) sG _ (Hq _) Harchive) as [HI1 HI2].
  exists entries, sG. split; [|split; [exact Harchive|split; [|split; [|split]]]].
  - unfold produceArtifact. rewrite Hzip.
    eapply (run_ok_bind _ _ _ tt sA); [split; reflexivity|].
    eapply run_ok_bind; [split; [exact HB1|reflexivity]|].
    eapply run_ok_bind; [split; [exact HC1|reflexivity]|].
    eapply run_ok_bind; [split; [exact HD1|reflexivity]|].
    eapply run_ok_bind; [split; [exact HE1|reflexivity]|].
    eapply run_ok_bind.
    { eapply run_ok_bind; [split; [exact HF1|reflexivity]|].
      eapply run_ok_bind; [split; [exact HG1|reflexivity]|]. apply run_ok_ret. }
    eapply run_ok_bind; [split; [exact HH1|exact HH2]|].
    eapply run_ok_bind; [split; [exact HI1|exact HI2]|]. apply run_ok_ret.
  - intros p Hp. rewrite HG2. simpl. rewrite rm_rf_lookup. by rewrite decide_True.
  - intros Hdb name data Hin. apply archive_entries_elem.
    change (stagingOf e ++ ["database"; name +:+ ".json"])
      with (stagingOf e ++ ["database"] ++ [name +:+ ".json"]).
    rewrite app_assoc.
    eapply fs_grow_keep; [exact HEg|by apply not_below_sibling|].
    eapply fs_grow_keep; [exact HDg|by apply not_below_sibling|].
    subst sC mC. rewrite Hdb. simpl when.
    destruct (backupDatabase_result e Hsnap sB) as (_ & H & _).
    by apply (H name data).
  - intros Hfiles tree Hup Hdist rel c Hin. apply archive_entries_elem.
    change (stagingOf e ++ "files" :: "uploads" :: rel)
      with (stagingOf e ++ ["files"] ++ "uploads" :: rel).
    rewrite app_assoc.
    eapply fs_grow_keep; [exact HEg|by apply not_below_sibling|].
    subst sD mD. rewrite Hfiles. simpl when.
    destruct (backupFiles_copies (stagingOf e) tree sC Hup Hdist) as [_ H].
    rewrite <- app_assoc. by apply H.
  - intros Hlogs tree Hlf Hdist rel c Hin. apply archive_entries_elem.
    subst sE mE. rewrite Hlogs. simpl when.
    destruct (backupLogs_copies (stagingOf e) tree sD Hlf Hdist) as [_ H].
    by apply H.
Qed.
End QuietRun.

(** What a run that completes leaves in the service object and on disk. *)
Lemma createFullBackup_completed e options s a s1 t1 :
  isBackupRunning s = false ->
  produceArtifact e options (backupIdOf e) (acquired e s) = (Ok a, s1, t1) ->
  let run := createFullBackup e options s in
  run.1.1 = Ok (List.length (heap s)) /\
  heap run.1.2 = heap s ++ [complete a.1.1 a.1.2 a.2 (pendingRecord e)] /\
  backupHistory run.1.2 = backupHistory s ++ [List.length (heap s)] /\
  (forall p, p <> historyPath -> fs run.1.2 !! p = fs s1 !! p).
Proof.
  intros Hfree Hrun. cbv zeta. rewrite createFullBackup_run by done.
  pose proof (produceArtifact_mem_eq e options (backupIdOf e) (acquired e s))
    as [(_&_&Hheap&Hhist) _].
  rewrite Hrun in *. simpl in *.
  destruct (saveBackupHistory_mem_eq e
              (recorded (List.length (heap s)) (complete a.1.1 a.1.2 a.2) s1))
    as [(_&_&Hh&Hl) _].
  rewrite Hh, Hl. simpl. rewrite Hheap, Hhist. simpl.
  rewrite deref_fresh, insert_fresh. do 3 (split; [done|]).
  intros p Hp. rewrite saveBackupHistory_eq.
  destruct (io_fail e (OpWriteFile historyPath)); simpl; [done|].
  by rewrite lookup_insert_ne.
Qed.

(** X11.  A compressed run in which no operation is rejected
    returns its record; the record carries the path of the archive and the
    size and checksum of the archive that is on disk; the archive holds
    the snapshot of every collection, every file of the uploads tree under
    [files/uploads] and, when logs are requested, every log file under
    [logs], each step only when the option asks for it; and the staging
    directory is gone. *)
Theorem complete_backup_contents e options s :
  isBackupRunning s = false ->
  all_quiet e ->
  not_false (BackupOptions.compression options) = true ->
  let run := createFullBackup e options s in
  exists entries,
    run.1.1 = Ok (List.length (heap s)) /\
    deref (heap run.1.2) (List.length (heap s))
      = complete (archiveOf e) (fileSize e (File (CArchive entries)))
                 (sha256 e (CArchive entries)) (pendingRecord e) /\
    fs run.1.2 !! archiveOf e = Some (File (CArchive entries)) /\
    (forall p, below (stagingOf e) p -> fs run.1.2 !! p = None) /\
    (not_false (BackupOptions.includeDatabase options) = true ->
     forall name data, (name, data) ∈ collectionsOf e ->
       (["database"; name +:+ ".json"], CRecords data) ∈ entries) /\
    (not_false (BackupOptions.includeUploads options) = true ->
     forall tree, uploads e = Some (TDir tree) -> distinct_names (TDir tree) ->
     forall rel c, (rel, c) ∈ tree_files (TDir tree) ->
       ("files" :: "uploads" :: rel, c) ∈ entries) /\
    (truthy (BackupOptions.includeLogs options) = true ->
     forall tree, logFiles e = Some (TDir tree) -> distinct_names (TDir tree) ->
     forall rel c, (rel, c) ∈ tree_files (TDir tree) ->
       ("logs" :: rel, c) ∈ entries).
Proof.
  intros Hfree Hq Hzip run. subst run.
  destruct (produceArtifact_quiet e Hq options (acquired e s) Hzip)
    as (entries & s1 & [Hres Hpost] & Harchive & Hgone & Hdb & Hup & Hlogs).
  unfold res, post in Hres, Hpost.
  destruct (produceArtifact e options (backupIdOf e) (acquired e s))
    as [[r s1'] t1] eqn:Hrun. simpl in Hres, Hpost. subst r s1'.
  destruct (createFullBackup_completed e options s _ s1 t1 Hfree Hrun)
    as (H1 & H2 & _ & H4).
  exists entries. rewrite H1, H2, deref_fresh. split; [done|]. split; [done|].
  split. { rewrite H4 by apply archive_not_history. done. }
  split. { intros p Hp. rewrite H4 by (by eapply below_staging_not_history). auto. }
  done.
Qed.

Lemma complete_backup_contents_witness :
  let e := shop quiet 1000 in
  let run := createFullBackup e defaultOptions (newService ∅) in
  all_quiet e /\
  exists entries,
    fs run.1.2 !! archiveOf e = Some (File (CArchive entries)) /\
    (["files"; "uploads"; "logo.png"], CText "png") ∈ entries /\
    (["database"; "products.json"], CRecords coffeeAndTea) ∈ entries.
Proof.
  assert (all_quiet (shop quiet 1000)) as Hq by (intros op; reflexivity).
  split; [exact Hq|].
  destruct (complete_backup_contents (shop quiet 1000) defaultOptions (newService ∅)
              eq_refl Hq eq_refl) as (entries & _ & _ & H3 & _ & H5 & H6 & _).
  exists entries. split; [exact H3|]. split.
  - apply (H6 eq_refl [("logo.png", TFile (CText "png"))] eq_refl).
    + apply distinct_names_dir. split; [|by repeat constructor].
      apply (bool_decide_unpack _). vm_compute. reflexivity.
    + apply tree_files_dir. exists "logo.png", (TFile (CText "png")), [].
      split; [left|]. split; [left|done].
  - apply (H5 eq_refl "products" coffeeAndTea). left.
Defined.

(* ================================================================= *)
(** ** Downloading what was produced *)

(** A file of the backups root is served with the type of its extension. *)
Lemma download_from_root e filename s n :
  rejected filename = false ->
  io_fail e (OpAccess ["backups"; filename]) = None ->
  io_fail e (OpStat ["backups"; filename]) = None ->
  fs s !! ["backups"; filename] = Some n ->
  res (download e filename) s
    = Ok (FileResponse (contentTypeOf (toLowerCase (extname filename))) (fileSize e n)
            ["backups"; filename]).
Proof.
  intros Hname Haccess Hstat Hfile. unfold rejected in Hname.
  unfold res, download, resolveDownload. rewrite Hname.
  unfold try_catch, bind, access, stat, await, ret.
  rewrite Haccess, Hfile. cbn [fst snd]. by rewrite Hstat, Hfile.
Qed.

(** X12.  The archive of a completed run can be fetched under
    the name [<backupId>.tar.gz]: the name passes the security check, the
    file is found in the backups root, and the response is the archive,
    with content type [application/gzip] and, as length, the size of the
    file that the record of the run describes. *)
Theorem backup_then_download e e' options s :
  isBackupRunning s = false ->
  all_quiet e ->
  not_false (BackupOptions.compression options) = true ->
  io_fail e' (OpAccess (archiveOf e)) = None ->
  io_fail e' (OpStat (archiveOf e)) = None ->
  let s1 := post (createFullBackup e options) s in
  exists n,
    fs s1 !! archiveOf e = Some n /\
    BackupMetadata.path (deref (heap s1) (List.length (heap s))) = archiveOf e /\
    BackupMetadata.size (deref (heap s1) (List.length (heap s))) = fileSize e n /\
    rejected (archiveNameOf e) = false /\
    res (download e' (archiveNameOf e)) s1
      = Ok (FileResponse "application/gzip" (fileSize e' n) (archiveOf e)).
Proof.
  intros Hfree Hq Hzip Haccess Hstat s1.
  destruct (produceArtifact_quiet e Hq options (acquired e s) Hzip)
    as (entries & sP & [Hres Hpost] & Harchive & _).
  unfold res, post in Hres, Hpost.
  destruct (produceArtifact e options (backupIdOf e) (acquired e s))
    as [[r sP'] t1] eqn:Hrun. simpl in Hres, Hpost. subst r sP'.
  destruct (createFullBackup_completed e options s _ sP t1 Hfree Hrun)
    as (_ & H2 & _ & H4).
  fold (post (createFullBackup e options) s) in H2, H4. fold s1 in H2, H4.
  exists (File (CArchive entries)).
  assert (fs s1 !! archiveOf e = Some (File (CArchive entries))) as Hfile.
  { rewrite H4 by apply archive_not_history. done. }
  split; [done|]. rewrite H2, deref_fresh. do 2 (split; [done|]).
  split; [apply archive_name_accepted|].
  rewrite <- (archive_content_type e).
  apply (download_from_root e' (archiveNameOf e) s1 _ (archive_name_accepted e)
           Haccess Hstat Hfile).
Qed.

Lemma backup_then_download_witness :
  let e := shop quiet 1000 in
  let s1 := post (createFullBackup e defaultOptions) (newService ∅) in
  all_quiet e /\
  archiveNameOf e = "backup_1000.tar.gz" /\
  exists n,
    res (download (shop quiet 2000) "backup_1000.tar.gz") s1
      = Ok (FileResponse "application/gzip" (fileSize (shop quiet 2000) n)
              ["backups"; "backup_1000.tar.gz"]).
Proof.
  assert (all_quiet (shop quiet 1000)) as Hq by (intros op; reflexivity).
  split; [exact Hq|]. split; [reflexivity|].
  destruct (backup_then_download (shop quiet 1000) (shop quiet 2000) defaultOptions
              (newService ∅) eq_refl Hq eq_refl eq_refl eq_refl)
    as (n & _ & _ & _ & _ & H).
  exists n. exact H.
Defined.

(* ================================================================= *)
(** ** Exports *)

Lemma exportData_supported e options s :
  collection options ∈ offeredCollections ->
  format options ∈ offeredFormats ->
  io_fail e (OpMkdir (exportDirOf e options)) = None ->
  io_fail e (OpWriteFile (exportFileOf e options)) = None ->
  res (exportData e options) s = Ok (exportFileOf e options) /\
  fs (post (exportData e options) s)
    = <[exportFileOf e options := File (exportedContent e options)]>
        (mkdir_p [] (exportDirOf e options) (fs s)).
Proof.
  intros Hc Hf Hmkdir Hwrite.
  destruct options as [c f range flt flds].
  unfold offeredCollections, offeredFormats in *. cbn [collection format] in Hc, Hf.
  unfold exportFileOf, exportFileName, exportDirOf, exportedContent, selection in *.
  cbn [collection format] in *.
  repeat (apply elem_of_cons in Hc as [->|Hc]); [| | |by apply elem_of_nil in Hc];
    (repeat (apply elem_of_cons in Hf as [->|Hf]); [| |by apply elem_of_nil in Hf]);
    unfold res, post, exportData, exportToCSV, try_catch, bind, log, modify, mkdir,
      writeFile, await, ret;
    simpl; oracle_quiet Hmkdir; simpl; oracle_quiet Hwrite; simpl; done.
Qed.

(** X13.  An export of an offered collection in an offered format,
    whose directory and file can be written, returns the path
    [backups/exports/export_<collection>_<now>/<collection>.<format>];
    the file holds the selected records, as JSON or as CSV; and on disk
    nothing else changes except for the directories on the way. *)
Theorem exportData_writes_selection e options s :
  collection options ∈ offeredCollections ->
  format options ∈ offeredFormats ->
  io_fail e (OpMkdir (exportDirOf e options)) = None ->
  io_fail e (OpWriteFile (exportFileOf e options)) = None ->
  let s' := post (exportData e options) s in
  res (exportData e options) s = Ok (exportFileOf e options) /\
  fs s' !! exportFileOf e options = Some (File (exportedContent e options)) /\
  (forall p, p <> exportFileOf e options ->
     fs s' !! p = fs s !! p \/ (fs s !! p = None /\ fs s' !! p = Some Dir)) /\
  mem_eq s s'.
Proof.
  intros Hc Hf Hmkdir Hwrite s'.
  destruct (exportData_supported e options s Hc Hf Hmkdir Hwrite) as [Hres Hfs].
  split; [exact Hres|]. subst s'. rewrite Hfs. split; [apply lookup_insert_eq|].
  split.
  - intros p Hp. rewrite lookup_insert_ne by done.
    destruct (mkdir_p_grow (fun _ => False) (exportDirOf e options) [] (fs s) p)
      as [?|[?|[]]]; tauto.
  - apply (post_respects _ _ s (exportData_fs_only e options)).
Qed.

Lemma exportData_writes_selection_witness :
  let e := shop quiet 1000 in
  collection salesById ∈ offeredCollections /\
  format salesById ∈ offeredFormats /\
  res (exportData e salesById) (newService ∅)
    = Ok ["backups"; "exports"; "export_sales_1000"; "sales.json"].
Proof.
  assert (collection salesById ∈ offeredCollections) as Hc.
  { unfold offeredCollections. simpl. set_solver. }
  assert (format salesById ∈ offeredFormats) as Hf.
  { unfold offeredFormats. simpl. set_solver. }
  split; [exact Hc|]. split; [exact Hf|].
  apply (exportData_writes_selection (shop quiet 1000) salesById (newService ∅)
           Hc Hf eq_refl eq_refl).
Defined.

(** The two [default] branches of [exportData]. *)
Lemma exportData_rejects e options s :
  io_fail e (OpMkdir (exportDirOf e options)) = None ->
  let unsupported :=
    if bool_decide (collection options ∈ offeredCollections)
    then JsError ("Unsupported format: " +:+ format options)
    else JsError ("Unsupported collection: " +:+ collection options) in
  (collection options ∉ offeredCollections \/ format options ∉ offeredFormats) ->
  res (exportData e options) s = Throw unsupported /\
  post (exportData e options) s
    = add_log (LogError "Data export failed:" unsupported)
        (set_fs (mkdir_p [] (exportDirOf e options) (fs s))
           (add_log (LogInfo ("Starting data export: " +:+ collection options)) s)).
Proof.
  intros Hmkdir unsupported Hbad.
  subst unsupported. destruct options as [c f range flt flds].
  unfold offeredCollections, offeredFormats, exportDirOf in *.
  cbn [collection format] in *.
  unfold res, post, exportData, exportToCSV, try_catch, bind, log, modify, mkdir,
    writeFile, await, ret, throw.
  cbn [collection format]. rewrite Hmkdir. cbn [fst snd].
  destruct (String.eqb_spec c "products") as [->|Hp].
  { rewrite bool_decide_eq_true_2 by set_solver.
    destruct Hbad as [Hbad|Hbad]; [set_solver|]. cbn [fst snd].
    destruct (String.eqb_spec f "json") as [->|Hj]; [set_solver|].
    destruct (String.eqb_spec f "csv") as [->|Hcsv]; [set_solver|]. done. }
  destruct (String.eqb_spec c "sales") as [->|Hs].
  { rewrite bool_decide_eq_true_2 by set_solver.
    destruct Hbad as [Hbad|Hbad]; [set_solver|]. cbn [fst snd].
    destruct (String.eqb_spec f "json") as [->|Hj]; [set_solver|].
    destruct (String.eqb_spec f "csv") as [->|Hcsv]; [set_solver|]. done. }
  destruct (String.eqb_spec c "inventory") as [->|Hi].
  { rewrite bool_decide_eq_true_2 by set_solver.
    destruct Hbad as [Hbad|Hbad]; [set_solver|]. cbn [fst snd].
    destruct (String.eqb_spec f "json") as [->|Hj]; [set_solver|].
    destruct (String.eqb_spec f "csv") as [->|Hcsv]; [set_solver|]. done. }
  rewrite bool_decide_eq_false_2 by set_solver. done.
Qed.

(** X14.  An export of a collection that is not offered -
    among them [users], [suppliers] and [purchaseorders], which backups
    do snapshot - throws "Unsupported collection: <name>", and so does an
    unknown format with "Unsupported format: <name>".  The error is logged
    and thrown after the export directory was created: the directory
    stays, and no file is written. *)
Theorem exportData_unsupported e options s :
  io_fail e (OpMkdir (exportDirOf e options)) = None ->
  let s' := post (exportData e options) s in
  let unsupported :=
    if bool_decide (collection options ∈ offeredCollections)
    then JsError ("Unsupported format: " +:+ format options)
    else JsError ("Unsupported collection: " +:+ collection options) in
  (collection options ∉ offeredCollections \/ format options ∉ offeredFormats) ->
  res (exportData e options) s = Throw unsupported /\
  last (logs s') = Some (LogError "Data export failed:" unsupported) /\
  is_Some (fs s' !! exportDirOf e options) /\
  (forall p c, fs s' !! p = Some (File c) -> fs s !! p = Some (File c)).
Proof.
  intros Hmkdir s' unsupported Hbad.
  destruct (exportData_rejects e options s Hmkdir Hbad) as [Hres Hs'].
  fold s' in Hs'. fold unsupported in Hres, Hs'.
  split; [exact Hres|]. rewrite Hs'. split; [apply last_snoc|].
  cbn [fs add_log set_fs]. split.
  - apply (mkdir_p_creates (exportDirOf e options) [] (fs s)). done.
  - intros p c Hp.
    destruct (mkdir_p_grow (fun _ => False) (exportDirOf e options) [] (fs s) p)
      as [E|[[_ E]|[]]]; congruence.
Qed.

Lemma exportData_unsupported_witness :
  let e := shop quiet 1000 in
  (collection jsonSuppliers ∉ offeredCollections) /\
  "suppliers" ∈ map fst (collectionsOf e) /\
  res (exportData e jsonSuppliers) (newService ∅)
    = Throw (JsError "Unsupported collection: suppliers") /\
  is_Some (fs (post (exportData e jsonSuppliers) (newService ∅))
             !! ["backups"; "exports"; "export_suppliers_1000"]).
Proof.
  assert (collection jsonSuppliers ∉ offeredCollections) as Hc.
  { unfold offeredCollections. simpl. set_solver. }
  split; [exact Hc|]. split; [simpl; set_solver|].
  destruct (exportData_unsupported (shop quiet 1000) jsonSuppliers (newService ∅)
              eq_refl (or_introl Hc)) as (H1 & _ & H3 & _).
  split; [exact H1 | exact H3].
Defined.

Lemma children_elem (p : Path) (f : gmap Path Node) name :
  name ∈ children p f <-> is_Some (f !! (p ++ [name])).
Proof.
  unfold children. rewrite list_elem_of_omap. split.
  - intros ([k n] & Hin & Hsome). apply elem_of_map_to_list in Hin. simpl in Hsome.
    destruct (decide (p `prefix_of` k)) as [[rest ->]|]; [|done].
    rewrite drop_app_length in Hsome.
    destruct rest as [|x [|y rest]]; try done. injection Hsome as ->. by exists n.
  - intros [n Hn]. exists (p ++ [name], n). split; [by apply elem_of_map_to_list|].
    simpl. rewrite decide_True by (by apply prefix_app_r).
    by rewrite drop_app_length.
Qed.

(** What the search finds is a node of the disk with the requested name. *)
Lemma first_match_found e s filename p :
  first_match e s filename = Some p ->
  is_Some (fs s !! p) /\ last p = Some filename.
Proof.
  unfold first_match. destruct (accessible e s ["backups"; filename]) eqn:Hroot.
  - intros [= <-]. split; [|done]. unfold accessible in Hroot.
    destruct (io_fail e _); [done|]. by destruct (fs s !! _).
  - intros Hhead. apply head_Some_elem_of in Hhead.
    apply list_elem_of_filter in Hhead as [Hacc Hin].
    apply list_elem_of_fmap in Hin as (dir & -> & _). split; [|done].
    unfold accessible in Hacc. destruct (io_fail e _); [done|].
    by destruct (fs s !! _).
Qed.

(** X15.  An export can be fetched at once under the name that
    the export route puts into its download link, the last segment of the
    path that [exportData] returned.  The name passes the security check
    and the search finds a file of that name, served as
    [application/json] or [text/csv] according to the format.  The file is
    the first match of the search: when an older export holds a file of
    the same name, it can be that one. *)
Theorem export_then_download e e' options s :
  collection options ∈ offeredCollections ->
  format options ∈ offeredFormats ->
  io_fail e (OpMkdir (exportDirOf e options)) = None ->
  io_fail e (OpWriteFile (exportFileOf e options)) = None ->
  not_a_file (fs s) exportsDir ->
  (forall p, io_fail e' (OpAccess p) = None) ->
  io_fail e' (OpReaddir exportsDir) = None ->
  (forall p, io_fail e' (OpStat p) = None) ->
  let s1 := post (exportData e options) s in
  let name := basename (exportFileOf e options) in
  name = exportFileName options /\
  rejected name = false /\
  exists p n,
    res (download e' name) s1
      = Ok (FileResponse (contentTypeFor (format options)) (fileSize e' n) p) /\
    fs s1 !! p = Some n /\
    last p = Some name.
Proof.
  intros Hc Hf Hmkdir Hwrite Hroot Haccess Hreaddir Hstat s1 name.
  destruct (exportData_supported e options s Hc Hf Hmkdir Hwrite) as [_ Hfs].
  fold s1 in Hfs.
  assert (name = exportFileName options) as Hname.
  { subst name. unfold basename, exportFileOf. by rewrite last_snoc. }
  assert (rejected (exportFileName options) = false /\
          contentTypeOf (toLowerCase (extname (exportFileName options)))
            = contentTypeFor (format options)) as [Hrej Htype].
  { unfold exportFileName, offeredCollections, offeredFormats in *.
    destruct options as [c f range flt flds]. cbn [collection format] in *.
    repeat (apply elem_of_cons in Hc as [->|Hc]); [| | |by apply elem_of_nil in Hc];
      (repeat (apply elem_of_cons in Hf as [->|Hf]); [| |by apply elem_of_nil in Hf]);
      by vm_compute. }
  rewrite Hname. split; [done|]. split; [done|].
  (* the disk after the export *)
  assert (fs s1 !! exportFileOf e options = Some (File (exportedContent e options)))
    as Hfile by (rewrite Hfs; apply lookup_insert_eq).
  assert (exportFileOf e options
          = ["backups"; "exports";
             "export_" +:+ collection options +:+ "_" +:+ pretty (dateNow e);
             exportFileName options]) as Hpath by done.
  assert (fs s1 !! exportsDir = Some Dir) as Hdir.
  { rewrite Hfs, lookup_insert_ne by (by rewrite Hpath).
    change (mkdir_p [] (exportDirOf e options) (fs s))
      with (add_dir (exportDirOf e options)
              (add_dir exportsDir (add_dir ["backups"] (fs s)))).
    rewrite !add_dir_lookup.
    destruct (fs s !! exportsDir) as [[c|]|] eqn:E; [by destruct (Hroot c)|done|].
    rewrite decide_False by done. by rewrite decide_True. }
  assert (is_Some (fs s1 !! (exportsDir ++
            ["export_" +:+ collection options +:+ "_" +:+ pretty (dateNow e)])))
    as Hnew.
  { rewrite Hfs, lookup_insert_ne by (by rewrite Hpath).
    apply (mkdir_p_creates (exportDirOf e options) [] (fs s)). done. }
  (* the search *)
  assert (exists p, first_match e' s1 (exportFileName options) = Some p) as [p Hfirst].
  { unfold first_match. destruct (accessible e' s1 _); [by eexists|].
    destruct (head _) as [p|] eqn:Hhead; [by eexists|].
    apply head_None in Hhead.
    assert (exportFileOf e options
              ∈ filter (fun p => accessible e' s1 p = true)
                  (map (fun dir => ["backups"; "exports"; dir; exportFileName options])
                     (children exportsDir (fs s1)))) as Hin.
    { apply list_elem_of_filter. split.
      - unfold accessible. by rewrite Haccess, Hfile.
      - apply list_elem_of_fmap.
        exists ("export_" +:+ collection options +:+ "_" +:+ pretty (dateNow e)).
        split; [done|]. by apply children_elem. }
    rewrite Hhead in Hin. by apply elem_of_nil in Hin. }
  destruct (first_match_found e' s1 _ p Hfirst) as [[n Hn] Hlast].
  exists p, n. split; [|done]. rewrite <- Htype.
  apply download_first_match; try done. right. done.
Qed.

Lemma export_then_download_witness :
  let e := shop quiet 1000 in
  let s1 := post (exportData e csvProducts) (newService ∅) in
  collection csvProducts ∈ offeredCollections /\
  format csvProducts ∈ offeredFormats /\
  not_a_file (fs (newService ∅)) exportsDir /\
  exists p n,
    res (download (shop quiet 2000) "products.csv") s1
      = Ok (FileResponse "text/csv" (fileSize (shop quiet 2000) n) p) /\
    last p = Some "products.csv".
Proof.
  assert (collection csvProducts ∈ offeredCollections) as Hc.
  { unfold offeredCollections. simpl. set_solver. }
  assert (format csvProducts ∈ offeredFormats) as Hf.
  { unfold offeredFormats. simpl. set_solver. }
  assert (not_a_file (fs (newService ∅)) exportsDir) as Hroot.
  { intros c Hc'. vm_compute in Hc'. discriminate Hc'. }
  split; [exact Hc|]. split; [exact Hf|]. split; [exact Hroot|].
  destruct (export_then_download (shop quiet 1000) (shop quiet 2000) csvProducts
              (newService ∅) Hc Hf eq_refl eq_refl Hroot
              (fun _ => eq_refl) eq_refl (fun _ => eq_refl))
    as (_ & _ & p & n & H1 & _ & H3).
  exists p, n. split; [exact H1 | exact H3].
Defined.



(* ================================================================= *)
(** ** Retention: what a cleanup touches, and a second cleanup *)

(** A cleanup whose sort throws only logs. *)
Lemma cleanupOldBackups_sort_throws e s error :
  array_sort (oldest_first (heap s)) (filter (completed (heap s)) (backupHistory s))
    = Throw error ->
  post (cleanupOldBackups e) s
    = add_log (LogError "Backup cleanup failed:" error)
        (add_log (LogInfo "Starting backup cleanup") s).
Proof.
  intros E. unfold post, cleanupOldBackups, try_catch, bind, log, modify, gets, lift.
  simpl. by rewrite E.
Qed.

(** The victims of a cleanup are completed records of the history. *)
Lemma victims_completed s sorted k v :
  array_sort (oldest_first (heap s)) (filter (completed (heap s)) (backupHistory s))
    = Ok sorted ->
  v ∈ take k sorted -> v ∈ backupHistory s /\ completed (heap s) v.
Proof.
  intros Hsort Hv. apply array_sort_perm in Hsort.
  apply (subseteq_take k sorted) in Hv. rewrite Hsort in Hv.
  apply list_elem_of_filter in Hv. tauto.
Qed.

(** X17.  Whatever the state and whatever fails, a cleanup
    adds no record and changes no record; a record that it removes
    carries the id of a completed record whose artifact it deleted - so a
    failed record with an id of its own stays for ever -; and what it
    takes from the disk lies below the [path] of a completed record, the
    history document apart. *)
Theorem cleanup_touches_only_completed e s :
  let s' := post (cleanupOldBackups e) s in
  heap s' = heap s /\
  (forall r, r ∈ backupHistory s' -> r ∈ backupHistory s) /\
  (forall r, r ∈ backupHistory s -> r ∉ backupHistory s' ->
     exists v, v ∈ backupHistory s /\ completed (heap s) v /\ deleted e (heap s) v /\
               BackupMetadata.id (deref (heap s) v) = BackupMetadata.id (deref (heap s) r)) /\
  (forall p n, p <> historyPath -> fs s !! p = Some n -> fs s' !! p <> Some n ->
     exists v, v ∈ backupHistory s /\ completed (heap s) v /\
               BackupMetadata.path (deref (heap s) v) `prefix_of` p).
Proof.
  intros s'. split; [apply cleanupOldBackups_heap|]. subst s'.
  destruct (array_sort (oldest_first (heap s))
              (filter (completed (heap s)) (backupHistory s))) as [sorted|error] eqn:E.
  2:{ rewrite (cleanupOldBackups_sort_throws e s error E). simpl.
      split; [done|]. split; [done|]. intros p n _ Hp Hp'. congruence. }
  rewrite (cleanupOldBackups_post e s sorted E).
  destruct (List.length sorted <=? maxBackups s)%nat.
  { simpl. split; [done|]. split; [done|]. intros p n _ Hp Hp'. congruence. }
  cbv zeta. set (victims := take (List.length sorted - maxBackups s) sorted).
  set (s0 := add_log (LogInfo "Starting backup cleanup") s).
  destruct (delete_loop e victims s0) as (_ & _ & _ & _ & Hhist & Hfs).
  set (sL := post (for_each victims (deleteBackup e)) s0) in *.
  change (heap s0) with (heap s) in *. change (backupHistory s0) with (backupHistory s) in *.
  change (fs s0) with (fs s) in *.
  destruct (saveBackupHistory_mem_eq e sL) as [(_ & _ & _ & Hl) _].
  fold (post (saveBackupHistory e) sL) in Hl.
  assert (forall p, p <> historyPath ->
            fs (post (saveBackupHistory e) sL) !! p = fs sL !! p) as Hsave.
  { intros p Hp. unfold post. rewrite saveBackupHistory_eq.
    destruct (io_fail e (OpWriteFile historyPath)); simpl; [done|].
    by rewrite lookup_insert_ne. }
  simpl. rewrite Hl, Hhist. split; [|split].
  - intros r Hr. apply list_elem_of_filter in Hr. tauto.
  - intros r Hr Hgone.
    destruct (decide (removed e (heap s) victims r)) as [Hrem|Hrem].
    + unfold removed in Hrem. apply Exists_exists in Hrem as (v & Hv & Hd & Hid).
      destruct (victims_completed s sorted _ v E Hv) as [Hin Hc].
      by exists v.
    + destruct Hgone. by apply list_elem_of_filter.
  - intros p n Hp Hbefore Hafter. rewrite Hsave, Hfs in Hafter by done.
    destruct (decide (erased e (heap s) victims p)) as [Her|Her]; [|done].
    unfold erased in Her. apply Exists_exists in Her as (v & Hv & _ & Hpre).
    destruct (victims_completed s sorted _ v E Hv) as [Hin Hc].
    by exists v.
Qed.

(** X18.  After a cleanup in which no deletion was rejected -
    on a history with [Date] timestamps on its completed records and
    distinct ids - a second cleanup finds nothing to do: it changes
    neither the history nor the disk, and does not rewrite the history
    document. *)
Theorem cleanup_twice e e' s :
  Forall (is_date (heap s)) (filter (completed (heap s)) (backupHistory s)) ->
  NoDup (map BackupMetadata.id (records s)) ->
  (forall p, io_fail e (OpRm p) = None) ->
  let s1 := post (cleanupOldBackups e) s in
  let s2 := post (cleanupOldBackups e') s1 in
  (List.length (filter (completed (heap s1)) (backupHistory s1)) <= maxBackups s1)%nat /\
  backupHistory s2 = backupHistory s1 /\
  fs s2 = fs s1 /\
  last (logs s2) = Some (LogInfo "No backups to cleanup").
Proof.
  intros Hdates Hids Hrm s1 s2.
  destruct (array_sort_sorted (oldest_first (heap s)) (time_of (heap s))
              (is_date (heap s)) (oldest_first_dates (heap s))
              (filter (completed (heap s)) (backupHistory s)) Hdates)
    as (sorted & Hsort & _ & Hperm).
  assert (heap s1 = heap s) as Hheap1 by apply cleanupOldBackups_heap.
  (* the first cleanup leaves at most [maxBackups] completed records *)
  assert (maxBackups s1 = maxBackups s /\
          (forall r, r ∈ backupHistory s1 -> r ∈ backupHistory s) /\
          (List.length (filter (completed (heap s)) (backupHistory s1))
           <= maxBackups s)%nat) as (Hmax1 & Hsub & Hcount).
  { subst s1. rewrite (cleanupOldBackups_post e s sorted Hsort).
    destruct (List.length sorted <=? maxBackups s)%nat eqn:Hle.
    { apply Nat.leb_le in Hle. simpl. split; [done|]. split; [done|].
      by rewrite <- Hperm. }
    apply Nat.leb_gt in Hle. cbv zeta.
    set (victims := take (List.length sorted - maxBackups s) sorted).
    set (s0 := add_log (LogInfo "Starting backup cleanup") s).
    destruct (delete_loop e victims s0) as (_ & _ & Hmax & _ & Hhist & _).
    set (sL := post (for_each victims (deleteBackup e)) s0) in *.
    change (heap s0) with (heap s) in *.
    change (backupHistory s0) with (backupHistory s) in *.
    change (maxBackups s0) with (maxBackups s) in *.
    destruct (saveBackupHistory_mem_eq e sL) as [(Hm & _ & _ & Hl) _].
    fold (post (saveBackupHistory e) sL) in Hl, Hm.
    simpl. rewrite Hl, Hm, Hhist. split; [done|]. split.
    { intros r Hr. apply list_elem_of_filter in Hr. tauto. }
    assert (NoDup (backupHistory s)) as Hndh.
    { eapply NoDup_fmap_1. unfold records in Hids.
      rewrite <- list_fmap_compose in Hids. exact Hids. }
    assert (NoDup sorted) as Hnd by (rewrite Hperm; by apply NoDup_filter).
    rewrite list_filter_filter.
    rewrite (filter_ext_in _ (fun r => (r ∉ victims) /\ completed (heap s) r)).
    2:{ intros r Hr. split.
        - intros [Hc Hn]. split; [|done]. intros Hv. apply Hn.
          apply Exists_exists. exists r. split; [done|]. split; [apply Hrm|done].
        - intros [Hn Hc]. split; [done|]. intros Hrem.
          apply Exists_exists in Hrem as (v & Hv & _ & Hid).
          destruct (victims_completed s sorted _ v Hsort Hv) as [Hin _].
          assert (v = r) as ->; [|done].
          apply (NoDup_fmap_inj_on (fun x => BackupMetadata.id (deref (heap s) x))
                   (backupHistory s)); [|done|done|done].
          unfold records in Hids. by rewrite <- list_fmap_compose in Hids. }
    rewrite <- list_filter_filter, <- Hperm.
    rewrite <- (take_drop (List.length sorted - maxBackups s) sorted) at 1.
    fold victims. rewrite <- (take_drop (List.length sorted - maxBackups s) sorted) in Hnd.
    fold victims in Hnd. apply NoDup_app in Hnd as (_ & Hdisj & _).
    rewrite filter_app.
    rewrite (filter_none _ victims) by (intros r Hr Hn; by apply Hn).
    rewrite filter_all by (intros r Hr Hv; by apply (Hdisj r)).
    simpl. rewrite length_drop. lia. }
  rewrite Hheap1, Hmax1. split; [exact Hcount|].
  (* the second cleanup takes the branch that does nothing *)
  assert (Forall (is_date (heap s1)) (filter (completed (heap s1)) (backupHistory s1)))
    as Hdates1.
  { rewrite Hheap1. apply Forall_forall. intros r Hr.
    apply list_elem_of_filter in Hr as [Hc Hr].
    rewrite Forall_forall in Hdates. apply Hdates, list_elem_of_filter. auto. }
  destruct (array_sort_sorted (oldest_first (heap s1)) (time_of (heap s1))
              (is_date (heap s1)) (oldest_first_dates (heap s1))
              (filter (completed (heap s1)) (backupHistory s1)) Hdates1)
    as (sorted1 & Hsort1 & _ & Hperm1).
  subst s2. rewrite (cleanupOldBackups_post e' s1 sorted1 Hsort1).
  rewrite Hperm1, Hheap1, Hmax1.
  apply Nat.leb_le in Hcount. rewrite Hcount. simpl.
  split; [done|]. split; [done|]. apply last_snoc.
Qed.

Lemma cleanup_twice_witness :
  let s1 := post (cleanupOldBackups (shop quiet 100)) fullShelf in
  let s2 := post (cleanupOldBackups (shop quiet 200)) s1 in
  Forall (is_date (heap fullShelf))
         (filter (completed (heap fullShelf)) (backupHistory fullShelf)) /\
  NoDup (map BackupMetadata.id (records fullShelf)) /\
  backupHistory s2 = backupHistory s1 /\ fs s2 = fs s1.
Proof.
  assert (Forall (is_date (heap fullShelf))
            (filter (completed (heap fullShelf)) (backupHistory fullShelf))) as H1.
  { apply (bool_decide_unpack _). vm_compute. reflexivity. }
  assert (NoDup (map BackupMetadata.id (records fullShelf))) as H2.
  { apply (bool_decide_unpack _). vm_compute. reflexivity. }
  split; [exact H1|]. split; [exact H2|].
  destruct (cleanup_twice (shop quiet 100) (shop quiet 200) fullShelf H1 H2
              (fun _ => eq_refl)) as (_ & H3 & H4 & _).
  split; [exact H3 | exact H4].
Defined.

(* ================================================================= *)
(** ** The routes *)

Lemma res_bind_throw {A B} (m : M A) (f : A -> M B) s error :
  res m s = Throw error ->
  res (bind m f) s = Throw error /\ post (bind m f) s = post m s.
Proof.
  unfold res, post, bind. destruct (m s) as [[[a|error'] s1] t1]; simpl; [done|].
  by intros [= ->].
Qed.

Lemma try_catch_throw {A} (m : M A) h s error :
  res m s = Throw error ->
  res (try_catch m h) s = res (h error) (post m s) /\
  post (try_catch m h) s = post (h error) (post m s).
Proof.
  unfold res, post, try_catch. destruct (m s) as [[[a|error'] s1] t1]; simpl; [done|].
  intros [= ->]. by destruct (h error s1) as [[r s2] t2].
Qed.

(** X19.  The cleanup route always answers with success: its
    500 branch cannot be reached, because [cleanupOldBackups] catches
    every error itself.  The answer is success even when the cleanup did
    nothing because its sort threw; then the history and the disk are as
    before and the error is only in the log. *)
Theorem cleanupRoute_always_succeeds e s :
  res (cleanupRoute e) s
    = Ok (Success (Some "Backup cleanup completed successfully") None) /\
  post (cleanupRoute e) s = post (cleanupOldBackups e) s /\
  forall error,
    array_sort (oldest_first (heap s)) (filter (completed (heap s)) (backupHistory s))
      = Throw error ->
    backupHistory (post (cleanupRoute e) s) = backupHistory s /\
    fs (post (cleanupRoute e) s) = fs s /\
    last (logs (post (cleanupRoute e) s))
      = Some (LogError "Backup cleanup failed:" error).
Proof.
  pose proof (cleanupOldBackups_never_throws e s) as Hok.
  assert (run_ok (cleanupRoute e) s
            (Success (Some "Backup cleanup completed successfully") None)
            (post (cleanupOldBackups e) s)) as [Hres Hpost].
  { unfold cleanupRoute. apply run_ok_try_catch.
    eapply run_ok_bind; [split; [exact Hok|reflexivity]|]. done. }
  split; [exact Hres|]. split; [exact Hpost|]. intros error Hsort.
  rewrite Hpost, (cleanupOldBackups_sort_throws e s error Hsort). simpl.
  split; [done|]. split; [done|]. apply last_snoc.
Qed.

(** X20.  The create route answers every failure with status
    500 and the message of the error.  A request that arrives while a
    backup runs gets "Backup is already in progress" and changes nothing
    but the log; and a request with [compression: false] can only get a
    500, whatever else it asks for. *)
Theorem createRoute_failures e body s :
  (isBackupRunning s = true ->
   createRoute e body s
     = (Ok (Failure 500 "Backup is already in progress"),
        add_log (LogError "Failed to create backup:" backupInProgress) s, [])) /\
  (isBackupRunning s = false ->
   obj_get "compression" body = VBool false ->
   not_a_file (fs s) (stagingOf e) ->
   exists error,
     res (createRoute e body) s
       = Ok (Failure 500 (message_or "Failed to create backup" error)) /\
     (all_quiet e -> error = EISDIR)).
Proof.
  split.
  - intros Hbusy. unfold createRoute, try_catch, bind.
    rewrite (busy_guard_rejects e _ s Hbusy). done.
  - intros Hfree Hzip Hfile.
    assert (BackupOptions.compression (createOptions body) = Some false) as Hzip'.
    { unfold createOptions. simpl. by rewrite Hzip. }
    destruct (produceArtifact_uncompressed e (createOptions body) (acquired e s)
                Hzip' Hfile) as (error & Hres & Hquiet).
    unfold res in Hres.
    destruct (produceArtifact e (createOptions body) (backupIdOf e) (acquired e s))
      as [[r s1] t1] eqn:Hrun. simpl in Hres. subst r.
    destruct (createFullBackup_failed e (createOptions body) s error s1 t1 Hfree Hrun)
      as (H1 & _).
    exists error. split; [|exact Hquiet].
    unfold createRoute. cbv zeta.
    destruct (try_catch_throw
                (backup <- createFullBackup e (createOptions body) ;;
                 h <- gets heap ;;
                 ret (Success (Some "Backup created successfully")
                        (Some (BackupData (toJSON (deref h backup))))))
                (fun error =>
                   log (LogError "Failed to create backup:" error) ;;
                   ret (Failure 500 (message_or "Failed to create backup" error)))
                s error) as [Hr _].
    { by apply res_bind_throw. }
    rewrite Hr. done.
Qed.

Lemma createRoute_failures_witness :
  isBackupRunning midBackup = true /\
  obj_get "compression" uncompressedBody = VBool false /\
  createRoute (shop quiet 2000) uncompressedBody midBackup
    = (Ok (Failure 500 "Backup is already in progress"),
       add_log (LogError "Failed to create backup:" backupInProgress) midBackup, []) /\
  exists error,
    res (createRoute (shop quiet 1000) uncompressedBody) (newService ∅)
      = Ok (Failure 500 (message_or "Failed to create backup" error)) /\
    error = EISDIR.
Proof.
  split; [reflexivity|]. split; [reflexivity|].
  destruct (createRoute_failures (shop quiet 2000) uncompressedBody midBackup)
    as [H1 _].
  split; [exact (H1 eq_refl)|].
  destruct (createRoute_failures (shop quiet 1000) uncompressedBody (newService ∅))
    as [_ H2].
  destruct (H2 eq_refl eq_refl) as (error & Hres & Hq).
  - intros c Hc. vm_compute in Hc. discriminate Hc.
  - exists error. split; [exact Hres|]. apply Hq. intros op. reflexivity.
Defined.

(** X21.  The export route answers 400 "Collection and format
    are required", without touching anything, when either field is
    absent or empty.  A collection that is not offered is not a 400 but a
    500 with the message of [exportData].  And a successful export is
    answered with the path of the file and a download link made of its
    last segment only, [<collection>.<format>]. *)
Theorem exportRoute_replies e body s :
  (missing (req_collection body) || missing (req_format body) = true ->
   exportRoute e body s
     = (Ok (Failure 400 "Collection and format are required"), s, [])) /\
  (missing (req_collection body) || missing (req_format body) = false ->
   let options := exportOptionsOf e body in
   io_fail e (OpMkdir (exportDirOf e options)) = None ->
   (collection options ∉ offeredCollections ->
    res (exportRoute e body) s
      = Ok (Failure 500 ("Unsupported collection: " +:+ collection options))) /\
   (collection options ∈ offeredCollections ->
    format options ∈ offeredFormats ->
    io_fail e (OpWriteFile (exportFileOf e options)) = None ->
    res (exportRoute e body) s
      = Ok (Success (Some "Data exported successfully")
              (Some (ExportedData (exportFileOf e options)
                       ("/api/backup/download/" +:+ exportFileName options)))))).
Proof.
  split.
  - intros Hmissing. unfold exportRoute, try_catch. by rewrite Hmissing.
  - intros Hpresent options Hmkdir.
    assert (forall r,
              res (exportData e options) s = r ->
              res (exportRoute e body) s
                = match r with
                  | Ok filePath =>
                      Ok (Success (Some "Data exported successfully")
                            (Some (ExportedData filePath
                                     ("/api/backup/download/" +:+ basename filePath))))
                  | Throw error =>
                      Ok (Failure 500 (message_or "Failed to export data" error))
                  end) as Hroute.
    { intros r Hr. unfold res, exportRoute, try_catch in *. rewrite Hpresent.
      fold options. unfold bind.
      destruct (exportData e options s) as [[[filePath|error] s1] t1];
        simpl in Hr; subst r; done. }
    split.
    + intros Hbad.
      destruct (exportData_rejects e options s Hmkdir (or_introl Hbad)) as [Hres _].
      rewrite bool_decide_eq_false_2 in Hres by done.
      by rewrite (Hroute _ Hres).
    + intros Hc Hf Hwrite.
      destruct (exportData_supported e options s Hc Hf Hmkdir Hwrite) as [Hres _].
      rewrite (Hroute _ Hres). unfold basename, exportFileOf. by rewrite last_snoc.
Qed.

Lemma exportRoute_replies_witness :
  let e := shop quiet 1000 in
  missing (req_collection csvProductsRequest) || missing (req_format csvProductsRequest)
    = false /\
  res (exportRoute e csvProductsRequest) (newService ∅)
    = Ok (Success (Some "Data exported successfully")
            (Some (ExportedData
                     ["backups"; "exports"; "export_products_1000"; "products.csv"]
                     "/api/backup/download/products.csv"))).
Proof.
  split; [reflexivity|].
  destruct (exportRoute_replies (shop quiet 1000) csvProductsRequest (newService ∅))
    as [_ H].
  destruct (H eq_refl eq_refl) as [_ H2].
  apply H2; [| |reflexivity].
  - unfold offeredCollections. simpl. set_solver.
  - unfold offeredFormats. simpl. set_solver.
Defined.

(* ================================================================= *)
(** ** The export engine: selection and CSV *)

Lemma obj_get_obj_set key v r k :
  obj_get k (obj_set key v r) = if String.eqb key k then v else obj_get k r.
Proof.
  induction r as [|[k' w] r IH]; simpl.
  - by destruct (String.eqb key k).
  - destruct (String.eqb_spec k' key) as [->|Hne]; simpl.
    + by destruct (String.eqb_spec key k).
    + destruct (goes_before key k'); simpl.
      * by destruct (String.eqb_spec key k).
      * rewrite IH. destruct (String.eqb_spec k' k) as [->|Hne']; [|done].
        by destruct (String.eqb_spec key k) as [->|].
Qed.

(** A requested field has in the projected record the value that
    [item[field]] has. *)
Lemma obj_get_project flds item k :
  k ∈ flds -> k <> "__proto__" ->
  obj_get k (project flds item) = obj_get k item.
Proof.
  intros Hin Hk. unfold project.
  assert (forall acc,
            obj_get k (fold_left (fun filtered field =>
                                    assign field (obj_get field item) filtered) flds acc)
            = if bool_decide (k ∈ flds) then obj_get k item else obj_get k acc) as H.
  { clear Hin. induction flds as [|f flds IH]; intros acc; cbn [fold_left].
    - by rewrite bool_decide_eq_false_2 by set_solver.
    - rewrite IH. unfold assign.
      destruct (bool_decide (k ∈ flds)) eqn:Hin.
      + apply bool_decide_eq_true in Hin.
        by rewrite bool_decide_eq_true_2 by set_solver.
      + apply bool_decide_eq_false in Hin.
        destruct (String.eqb_spec f "__proto__") as [->|Hf].
        * rewrite bool_decide_eq_false_2; [done|]. set_solver.
        * rewrite obj_get_obj_set.
          destruct (String.eqb_spec f k) as [->|Hne].
          -- by rewrite bool_decide_eq_true_2 by set_solver.
          -- by rewrite bool_decide_eq_false_2 by set_solver. }
  by rewrite H, bool_decide_eq_true_2.
Qed.

(** An array index is the printed form of its number. *)
Lemma array_index_pretty key i : array_index key = Some i -> key = pretty i.
Proof.
  unfold array_index. destruct (decimal 0 key) as [n|]; [|done].
  destruct (n <? 4294967295)%N; [|done]. simpl.
  destruct (String.eqb_spec (pretty n) key) as [<-|]; [|done]. by intros [= ->].
Qed.

Lemma index_lt_trans a b c : index_lt a b -> index_lt b c -> index_lt a c.
Proof.
  unfold index_lt.
  destruct (array_index a), (array_index b), (array_index c); try done. lia.
Qed.

Lemma goes_before_plain key k : array_index key = None -> goes_before key k = false.
Proof. unfold goes_before. by intros ->. Qed.

(** A new key that is not an array index goes to the end. *)
Lemma obj_set_keys_plain key v r :
  array_index key = None ->
  obj_keys (obj_set key v r)
    = if bool_decide (key ∈ obj_keys r) then obj_keys r else obj_keys r ++ [key].
Proof.
  intros Hkey. unfold obj_keys. induction r as [|[k w] r IH].
  - cbn [obj_set map fst]. case_bool_decide; [set_solver|done].
  - cbn [obj_set]. destruct (String.eqb_spec k key) as [->|Hne].
    + clear IH. cbn [map fst]. case_bool_decide; [reflexivity|set_solver].
    + rewrite goes_before_plain by done. cbn [map fst]. rewrite IH.
      repeat case_bool_decide; try done; set_solver.
Qed.

(** A new key that is an array index takes its place among the array
    indices, which come first. *)
Lemma obj_set_keys_index key v i names : forall indices r,
  array_index key = Some i ->
  obj_keys r = indices ++ names ->
  StronglySorted index_lt indices ->
  Forall (fun k => is_Some (array_index k)) indices ->
  Forall (fun k => array_index k = None) names ->
  exists indices',
    obj_keys (obj_set key v r) = indices' ++ names /\
    StronglySorted index_lt indices' /\
    forall k, k ∈ indices' <-> k ∈ indices \/ k = key.
Proof.
  intros indices. induction indices as [|a indices IH];
    intros r Hkey Hkeys Hsorted Hidx Hnames.
  - exists [key]. split; [|split].
    + destruct r as [|[k w] r]; simpl in *; [by rewrite <- Hkeys|].
      assert (array_index k = None) as Hk.
      { rewrite <- Hkeys in Hnames. by apply Forall_cons in Hnames as [? _]. }
      destruct (String.eqb_spec k key) as [->|Hne]; [congruence|].
      unfold goes_before. rewrite Hkey, Hk. simpl. by rewrite <- Hkeys.
    + repeat constructor.
    + intros k. set_solver.
  - destruct r as [|[k w] r]; [done|]. simpl in Hkeys. injection Hkeys as -> Hkeys.
    apply StronglySorted_inv in Hsorted as [Hsorted Hall].
    apply Forall_cons in Hidx as [[j Ha] Hidx]. simpl.
    destruct (String.eqb_spec a key) as [->|Hne].
    { exists (key :: indices). simpl. rewrite Hkeys. split; [done|]. split.
      - by constructor.
      - intros k. set_solver. }
    unfold goes_before. rewrite Hkey, Ha.
    destruct (N.ltb_spec i j) as [Hlt|Hge].
    + exists (key :: a :: indices). simpl. rewrite Hkeys. split; [done|]. split.
      * constructor; [by constructor|]. constructor.
        -- unfold index_lt. by rewrite Hkey, Ha.
        -- eapply Forall_impl; [exact Hall|]. intros x Hx.
           eapply index_lt_trans; [|exact Hx]. unfold index_lt. by rewrite Hkey, Ha.
      * intros k. set_solver.
    + assert (j < i)%N as Hlt.
      { assert (j <> i); [|lia]. intros ->. apply Hne.
        by rewrite (array_index_pretty _ _ Ha), (array_index_pretty _ _ Hkey). }
      destruct (IH r Hkey Hkeys Hsorted Hidx Hnames) as (indices' & H1 & H2 & H3).
      exists (a :: indices'). simpl. rewrite H1. split; [done|]. split.
      * constructor; [done|]. apply Forall_forall. intros x Hx.
        apply H3 in Hx as [Hx| ->].
        -- rewrite Forall_forall in Hall. by apply Hall.
        -- unfold index_lt. by rewrite Ha, Hkey.
      * intros k. rewrite !elem_of_cons, H3. tauto.
Qed.

Lemma first_occurrences_elem l k : k ∈ first_occurrences l <-> k ∈ l.
Proof.
  induction l as [|x l IH]; simpl; [done|].
  rewrite !elem_of_cons, list_elem_of_filter, IH.
  destruct (decide (k = x)); tauto.
Qed.

Lemma first_occurrences_snoc l x :
  first_occurrences (l ++ [x])
    = if bool_decide (x ∈ l) then first_occurrences l else first_occurrences l ++ [x].
Proof.
  induction l as [|y l IH].
  - cbn [app first_occurrences]. case_bool_decide; [set_solver|]. by rewrite filter_nil.
  - cbn [app first_occurrences]. rewrite IH.
    destruct (decide (x ∈ l)) as [Hin|Hin].
    + by rewrite !bool_decide_eq_true_2 by set_solver.
    + rewrite (bool_decide_eq_false_2 (x ∈ l)) by done. rewrite filter_app.
      destruct (decide (x = y)) as [->|Hne].
      * rewrite bool_decide_eq_true_2 by set_solver.
        rewrite filter_cons_False by tauto. by rewrite filter_nil, app_nil_r.
      * rewrite bool_decide_eq_false_2 by set_solver.
        by rewrite filter_cons_True by done.
Qed.

(** The own keys of a projected record, in the order of [Object.keys]. *)
Lemma project_key_order flds item :
  exists indices,
    obj_keys (project flds item)
      = indices ++ first_occurrences (filter plain_field flds) /\
    StronglySorted index_lt indices /\
    forall k, k ∈ indices <-> k ∈ flds /\ is_Some (array_index k).
Proof.
  induction flds as [|f flds IH] using rev_ind.
  { exists []. split; [done|]. split; [constructor|]. intros k. set_solver. }
  destruct IH as (indices & Hkeys & Hsorted & Hmem).
  unfold project in *. rewrite fold_left_app. cbn [fold_left].
  set (r := fold_left _ flds []) in *. rewrite filter_app.
  unfold assign. destruct (String.eqb_spec f "__proto__") as [->|Hf].
  { exists indices. rewrite filter_cons_False by (intros [_ ?]; done).
    rewrite filter_nil, app_nil_r. split; [done|]. split; [done|].
    intros k. rewrite Hmem, elem_of_app, list_elem_of_singleton.
    split; [tauto|]. intros [[?| ->] Hk]; [done|]. by destruct Hk. }
  destruct (array_index f) as [i|] eqn:Hidx.
  - rewrite filter_cons_False by (intros [? _]; congruence).
    rewrite filter_nil, app_nil_r.
    destruct (obj_set_keys_index f (obj_get f item) i
                (first_occurrences (filter plain_field flds)) indices r
                Hidx Hkeys Hsorted) as (indices' & H1 & H2 & H3).
    { apply Forall_forall. intros k Hk. by apply Hmem in Hk as [_ ?]. }
    { apply Forall_forall. intros k Hk. apply (proj1 (first_occurrences_elem _ _)) in Hk.
      by apply list_elem_of_filter in Hk as [[? _] _]. }
    exists indices'. split; [done|]. split; [done|].
    intros k. rewrite H3, Hmem, elem_of_app, list_elem_of_singleton.
    split; [|tauto]. intros [?| ->]; [tauto|]. rewrite Hidx. split; [by right|by eexists].
  - rewrite filter_cons_True by done. rewrite filter_nil.
    rewrite obj_set_keys_plain by done. rewrite Hkeys.
    rewrite first_occurrences_snoc. exists indices.
    split; [|split; [done|]].
    + destruct (bool_decide (f ∈ filter plain_field flds)) eqn:Hin.
      * apply bool_decide_eq_true in Hin. rewrite bool_decide_eq_true_2; [done|].
        apply elem_of_app. right. by apply (proj2 (first_occurrences_elem _ _)).
      * apply bool_decide_eq_false in Hin. rewrite bool_decide_eq_false_2.
        { by rewrite app_assoc. }
        intros [Hi|Hn]%elem_of_app.
        -- apply Hmem in Hi as [_ [? ?]]. congruence.
        -- by apply (proj1 (first_occurrences_elem _ _)) in Hn.
    + intros k. rewrite Hmem, elem_of_app, list_elem_of_singleton.
      split; [tauto|]. intros [[?| ->] Hk]; [done|]. rewrite Hidx in Hk. by destruct Hk.
Qed.

(** X22.  With [fields] given, [getProductsData] returns one
    record for each product that passes the filters, in storage order.
    The keys of each record are the requested fields, each once, without
    [__proto__], which never becomes a key: first those that are array
    indices, in ascending order, then the others in the order in which
    they were first requested.  Each key has the value of that property
    of the product, inherited members included. *)
Theorem getProductsData_projects products options flds :
  fields options = Some flds ->
  let kept := match filters options with
              | Some flt => List.filter (matches_filters flt) products
              | None => products
              end in
  getProductsData products options = map (project flds) kept /\
  forall item,
    (exists indices,
       obj_keys (project flds item)
         = indices ++ first_occurrences (filter plain_field flds) /\
       StronglySorted index_lt indices /\
       forall k, k ∈ indices <-> k ∈ flds /\ is_Some (array_index k)) /\
    (forall k, k ∈ flds -> k <> "__proto__" ->
               obj_get k (project flds item) = obj_get k item).
Proof.
  intros Hf kept. split.
  - rewrite getProductsData_pipeline, Hf. done.
  - intros item. split; [apply project_key_order|]. intros k. apply obj_get_project.
Qed.

Lemma getProductsData_projects_witness :
  fields mixedFields
    = Some ["price"; "10"; "__proto__"; "2"; "name"; "price"; "toString"] /\
  getProductsData coffeeAndTea mixedFields
    = map (project ["price"; "10"; "__proto__"; "2"; "name"; "price"; "toString"])
          [ [("id", VNum 2); ("name", VStr "Tea")] ] /\
  getProductsData coffeeAndTea mixedFields
    = [ [("2", VUndefined); ("10", VUndefined); ("price", VUndefined);
         ("name", VStr "Tea"); ("toString", VFun "toString")] ].
Proof.
  split; [reflexivity|].
  destruct (getProductsData_projects coffeeAndTea mixedFields
              ["price"; "10"; "__proto__"; "2"; "name"; "price"; "toString"] eq_refl)
    as [H _].
  split; [exact H | reflexivity].
Defined.

Lemma matches_filters_by_reference flt item key v :
  (key, v) ∈ flt -> by_reference v -> matches_filters flt item = false.
Proof.
  intros Hin Href. destruct (matches_filters flt item) eqn:E; [|done].
  rewrite matches_filters_spec in E. specialize (E key v Hin).
  destruct v; try done; by destruct (obj_get key item).
Qed.

Lemma List_filter_none {A} (f : A -> bool) (l : list A) :
  (forall x, f x = false) -> List.filter f l = [].
Proof. intros H. induction l as [|x l IH]; simpl; [done|]. by rewrite H. Qed.

(** X23.  A filter whose value is an array or an object
    selects nothing: [===] compares such values by reference, and the
    value that came with the request is never the stored one.  The export
    of products or of sales is then empty, and its CSV file is the empty
    text, without a header. *)
Theorem filter_by_reference_selects_nothing e options flt key v :
  filters options = Some flt ->
  (key, v) ∈ flt ->
  by_reference v ->
  getProductsData (products e) options = [] /\
  getSalesData (dateOf e) (sales e) options = [] /\
  csvContent (getProductsData (products e) options) = "".
Proof.
  intros Hflt Hin Href.
  assert (forall item, matches_filters flt item = false) as Hnone.
  { intros item. by eapply matches_filters_by_reference. }
  assert (getProductsData (products e) options = []) as Hp.
  { unfold getProductsData. rewrite Hflt, (List_filter_none _ _ Hnone).
    by destruct (fields options). }
  split; [exact Hp|]. split; [|by rewrite Hp].
  unfold getSalesData. rewrite Hflt. by apply List_filter_none.
Qed.

Lemma filter_by_reference_selects_nothing_witness :
  filters taggedCoffee = Some [("tags", VArr [VStr "hot"])] /\
  getProductsData
    [ [("id", VNum 1); ("tags", VArr [VStr "hot"])] ] taggedCoffee = [] /\
  getProductsData (products (shop quiet 1000)) taggedCoffee = [].
Proof.
  split; [reflexivity|]. split; [reflexivity|].
  apply (filter_by_reference_selects_nothing (shop quiet 1000) taggedCoffee
           [("tags", VArr [VStr "hot"])] "tags" (VArr [VStr "hot"]) eq_refl).
  - left.
  - exact I.
Defined.

Lemma List_filter_filter {A} (f g : A -> bool) (l : list A) :
  List.filter g (List.filter f l) = List.filter (fun x => f x && g x) l.
Proof.
  induction l as [|x l IH]; [done|]. simpl.
  destruct (f x); simpl; [|exact IH]. destruct (g x); by rewrite IH.
Qed.

Lemma in_range_spec dateOf range sale :
  in_range (dateOf (obj_get "createdAt" sale)) range = true <->
  sold_within dateOf range sale.
Proof.
  unfold in_range, sold_within.
  destruct (dateOf (obj_get "createdAt" sale)) as [d|], range as [[lo|] [hi|]].
  1:{ rewrite andb_true_iff, !Z.leb_le. split.
      - intros [? ?]. by exists d, lo, hi.
      - by intros (d' & lo' & hi' & [= ->] & [= -> ->] & ?). }
  all: split; [done|]; intros (d' & lo' & hi' & H1 & H2 & _); congruence.
Qed.

(** X24.  With a date range, [getSalesData] returns the sales
    whose creation date is a valid date between the two bounds, bounds
    included, and that pass the filters: these records and no others,
    whole, each as often as it is stored and in storage order, whatever
    [fields] says.  When a bound is not a valid date no sale is kept. *)
Theorem getSalesData_range dateOf sales options range :
  dateRange options = Some range ->
  (exists keep : list (string * JsValue) -> bool,
     (forall sale, keep sale = true <->
                   sold_within dateOf range sale /\ passes (filters options) sale) /\
     getSalesData dateOf sales options = List.filter keep sales) /\
  (range.1 = None \/ range.2 = None -> getSalesData dateOf sales options = []).
Proof.
  intros Hrange. split.
  - exists (fun sale =>
              in_range (dateOf (obj_get "createdAt" sale)) range &&
              match filters options with
              | Some flt => matches_filters flt sale
              | None => true
              end).
    split.
    + intros sale. rewrite andb_true_iff, in_range_spec. unfold passes.
      destruct (filters options) as [flt|]; [by rewrite matches_filters_spec|tauto].
    + unfold getSalesData. rewrite Hrange.
      destruct (filters options) as [flt|]; [apply List_filter_filter|].
      apply filter_ext. intros sale. by rewrite andb_true_r.
  - intros Hbad. unfold getSalesData. rewrite Hrange.
    rewrite (List_filter_none _ sales).
    + by destruct (filters options).
    + intros sale. unfold in_range.
      destruct (dateOf _), range as [[lo|] [hi|]]; simpl in *; try done;
        by destruct Hbad.
Qed.

Lemma getSalesData_range_witness :
  let e := shop quiet 1000 in
  dateRange daysTwoToFive = Some (Some 2%Z, Some 5%Z) /\
  dateRange brokenRange = Some (None, Some 5%Z) /\
  (exists keep : list (string * JsValue) -> bool,
     keep [("createdAt", VNum 9)] = false /\
     getSalesData dayOf salesByDay daysTwoToFive = List.filter keep salesByDay) /\
  getSalesData dayOf salesByDay daysTwoToFive
    = [ [("createdAt", VNum 3)]; [("createdAt", VNum 4)]; [("createdAt", VNum 3)] ] /\
  getSalesData (dateOf e) (sales e) brokenRange = [].
Proof.
  split; [reflexivity|]. split; [reflexivity|]. split; [|split; [reflexivity|]].
  - destruct (getSalesData_range dayOf salesByDay daysTwoToFive (Some 2%Z, Some 5%Z)
                eq_refl) as [(keep & Hkeep & Heq) _].
    exists keep. split; [|exact Heq].
    destruct (keep [("createdAt", VNum 9)]) eqn:E; [|done].
    apply Hkeep in E as [(d & lo & hi & Hd & [= <- <-] & Hr) _].
    injection Hd as <-. lia.
  - destruct (getSalesData_range (dateOf (shop quiet 1000)) (sales (shop quiet 1000))
                brokenRange (None, Some 5%Z) eq_refl) as [_ H].
    apply H. by left.
Defined.

(** X25.  The columns of a CSV export are the keys of the first
    record: what the other records hold under other keys is never
    written.  Two lists of records that agree on the keys of the first
    record give the same file. *)
Theorem csv_columns_from_first_record first rest rest' :
  Forall2 (fun row row' =>
             forall header, header ∈ obj_keys first ->
                            obj_get header row = obj_get header row')
          rest rest' ->
  csvContent (first :: rest) = csvContent (first :: rest').
Proof.
  intros Hagree. unfold csvContent. f_equal. f_equal. simpl. f_equal.
  induction Hagree as [|row row' rest rest' Hrow _ IH]; [done|]. simpl.
  f_equal; [|exact IH]. f_equal.
  apply map_ext_in. intros header Hin. f_equal. apply Hrow.
  by apply list_elem_of_In.
Qed.

Lemma csv_columns_from_first_record_witness :
  csvContent withNote = csvContent withoutNote /\
  csvContent withNote = "id" +:+ newline +:+ "1" +:+ newline +:+ "2".
Proof.
  split; [|reflexivity].
  apply (csv_columns_from_first_record [("id", VNum 1)]
           [ [("id", VNum 2); ("note", VStr "fragile")] ] [ [("id", VNum 2)] ]).
  constructor; [|constructor].
  intros header Hin. apply list_elem_of_singleton in Hin as ->. reflexivity.
Defined.

(* ================================================================= *)
(** ** Sorting after a restart *)

Lemma array_sort_throws {A} (cmp : A -> A -> Result Z) error l :
  (forall a b, a ∈ l -> b ∈ l -> cmp a b = Throw error) ->
  (2 <= List.length l)%nat ->
  array_sort cmp l = Throw error.
Proof.
  induction l as [|x l IH]; intros Hcmp Hlen; [simpl in Hlen; lia|].
  simpl. destruct l as [|y l].
  { simpl in Hlen. lia. }
  destruct l as [|z l].
  - simpl. rewrite Hcmp; [done|set_solver|set_solver].
  - rewrite IH; [done| |simpl; lia]. intros a b Ha Hb. apply Hcmp; by right.
Qed.

Lemma length_filter_fmap {A B} (f : A -> B) (P : B -> Prop) `{!forall x, Decision (P x)}
    (l : list A) :
  List.length (filter P (f <$> l)) = List.length (filter (fun x => P (f x)) l).
Proof.
  induction l as [|x l IH]; [done|]. rewrite fmap_cons, !filter_cons.
  destruct (decide (P (f x))); simpl; by rewrite IH.
Qed.

(** X26.  In a process that has read two or more completed
    records from the history document, every sort by timestamp throws:
    the timestamps are strings.  [getBackupHistory] and [getBackupStatus]
    throw, their routes answer 500, and [cleanupOldBackups] catches the
    error and removes nothing, whatever the number of backups. *)
Theorem sorting_fails_after_restart e e' e'' s :
  io_fail e (OpWriteFile historyPath) = None ->
  io_fail e' (OpReadFile historyPath) = None ->
  (2 <= List.length (filter (fun m => BackupMetadata.status m = Completed) (records s)))%nat ->
  let s' := reloaded e e' s in
  records s' = map toJSON (records s) /\
  getBackupHistory s' = Throw noGetTime /\
  getBackupStatus s' = Throw noGetTime /\
  res historyRoute s' = Ok (Failure 500 "Failed to get backup history") /\
  res statusRoute s' = Ok (Failure 500 "Failed to get backup status") /\
  backupHistory (post (cleanupOldBackups e'') s') = backupHistory s' /\
  fs (post (cleanupOldBackups e'') s') = fs s' /\
  last (logs (post (cleanupOldBackups e'') s'))
    = Some (LogError "Backup cleanup failed:" noGetTime).
Proof.
  intros Hwrite Hread Hcount s'.
  set (L := map toJSON (records s)).
  assert (heap s' = L /\ backupHistory s' = seq 0 (List.length L)) as [Hheap Hhist].
  { assert (s' = set_history (seq 0 (List.length L))
                   (set_heap L
                      (newService (<[historyPath := File (CHistory L)]> (fs s)))))
      as ->; [|done].
    subst s'. unfold reloaded, post. rewrite saveBackupHistory_eq, Hwrite. simpl.
    rewrite loadBackupHistory_eq, Hread. simpl. by rewrite lookup_insert_eq. }
  assert (records s' = L) as Hrec.
  { unfold records. rewrite Hheap, Hhist. apply deref_all. }
  assert (forall r, r ∈ backupHistory s' ->
            is_string (BackupMetadata.timestamp (deref (heap s') r))) as Hstr.
  { intros r Hr. rewrite Hhist in Hr. apply elem_of_seq in Hr as [_ Hr].
    rewrite Hheap. unfold deref.
    destruct (L !! r) as [m|] eqn:Hm; [|apply lookup_ge_None in Hm; simpl in *; lia].
    simpl. subst L. apply list_lookup_fmap_Some in Hm as (m0 & -> & _).
    simpl. by destruct (BackupMetadata.timestamp m0). }
  assert (forall a b, a ∈ backupHistory s' -> b ∈ backupHistory s' ->
            newest_first (heap s') a b = Throw noGetTime /\
            oldest_first (heap s') a b = Throw noGetTime) as Hcmp.
  { intros a b Ha Hb. pose proof (Hstr a Ha) as H1. pose proof (Hstr b Hb) as H2.
    unfold newest_first, oldest_first.
    destruct (BackupMetadata.timestamp (deref (heap s') a)); [done|].
    by destruct (BackupMetadata.timestamp (deref (heap s') b)). }
  assert (2 <= List.length (filter (completed (heap s')) (backupHistory s')))%nat
    as Hcompleted.
  { assert (List.length (filter (completed (heap s')) (backupHistory s'))
            = List.length (filter (fun m => BackupMetadata.status m = Completed)
                                  (records s'))) as ->.
    { unfold records. by rewrite length_filter_fmap. }
    rewrite Hrec. subst L. rewrite length_filter_fmap.
    erewrite (filter_ext_in _ (fun m => BackupMetadata.status m = Completed));
      [exact Hcount|]. intros m _. by destruct m. }
  assert (2 <= List.length (backupHistory s'))%nat as Hall.
  { etransitivity; [exact Hcompleted|]. apply length_filter. }
  assert (getBackupHistory s' = Throw noGetTime) as Hlist.
  { unfold getBackupHistory. apply array_sort_throws; [|exact Hall].
    intros a b Ha Hb. by apply Hcmp. }
  assert (getBackupStatus s' = Throw noGetTime) as Hstatus.
  { unfold getBackupStatus. rewrite array_sort_throws with (error := noGetTime);
      [done| |exact Hcompleted].
    intros a b Ha%list_elem_of_filter Hb%list_elem_of_filter. apply Hcmp; tauto. }
  assert (array_sort (oldest_first (heap s'))
            (filter (completed (heap s')) (backupHistory s')) = Throw noGetTime) as Hsort.
  { apply array_sort_throws; [|exact Hcompleted].
    intros a b Ha%list_elem_of_filter Hb%list_elem_of_filter. apply Hcmp; tauto. }
  split; [exact Hrec|]. split; [exact Hlist|]. split; [exact Hstatus|].
  split. { unfold res, historyRoute, try_catch, bind, call. by rewrite Hlist. }
  split. { unfold res, statusRoute, try_catch, bind, call. by rewrite Hstatus. }
  rewrite (cleanupOldBackups_sort_throws e'' s' noGetTime Hsort). simpl.
  split; [done|]. split; [done|]. apply last_snoc.
Qed.

Lemma sorting_fails_after_restart_witness :
  let s' := reloaded (shop quiet 3000) (shop quiet 4000) afterTwoBackups in
  (2 <= List.length (filter (fun m => BackupMetadata.status m = Completed)
                            (records afterTwoBackups)))%nat /\
  res historyRoute s' = Ok (Failure 500 "Failed to get backup history") /\
  res statusRoute s' = Ok (Failure 500 "Failed to get backup status").
Proof.
  assert (2 <= List.length (filter (fun m => BackupMetadata.status m = Completed)
                                   (records afterTwoBackups)))%nat as Hcount.
  { vm_compute. lia. }
  split; [exact Hcount|].
  destruct (sorting_fails_after_restart (shop quiet 3000) (shop quiet 4000)
              (shop quiet 5000) afterTwoBackups eq_refl eq_refl Hcount)
    as (_ & _ & _ & H4 & H5 & _).
  split; [exact H4 | exact H5].
Defined.

(* ================================================================= *)
(** ** CSV cells *)

(** X27.  Only strings are quoted.  A cell made from a string
    that contains a comma is wrapped in double quotes; a cell made from an
    array of two or more elements contains the commas of its join and is
    written as it is, so that the row has more cells than the header. *)
Theorem csv_array_cell_is_not_quoted a b rest s :
  let cell := csvCell (VArr (a :: b :: rest)) in
  cell = toStr (VArr (a :: b :: rest)) /\
  includes "," cell = true /\
  (includes "," s = true ->
   csvCell (VStr s) = String dquote (double_quotes s +:+ String dquote "")).
Proof.
  cbv zeta. split; [done|]. split.
  - apply includes_spec. unfold csvCell. cbn [toStr].
    set (f := fun x => match x with VUndefined | VNull => "" | _ => toStr x end).
    exists (f a), (String.concat "," (map f (b :: rest))). done.
  - intros Hcomma. unfold csvCell. by rewrite Hcomma.
Qed.

(* ================================================================= *)
(** ** The history document after a run *)

(** X28.  A run that acquires the guard and can write the history
    document leaves that document in step with the history in memory,
    whether the run completed or failed; a new process that reads it has
    the same records, the one of this run included, with string
    timestamps. *)
Theorem history_document_in_sync e e' options s :
  isBackupRunning s = false ->
  io_fail e (OpWriteFile historyPath) = None ->
  io_fail e' (OpReadFile historyPath) = None ->
  let s1 := post (createFullBackup e options) s in
  let s2 := post (loadBackupHistory e') (newService (fs s1)) in
  fs s1 !! historyPath = Some (File (CHistory (map toJSON (records s1)))) /\
  records s2 = map toJSON (records s1) /\
  List.length (records s2) = S (List.length (backupHistory s)).
Proof.
  intros Hfree Hwrite Hread s1 s2.
  assert (fs s1 !! historyPath = Some (File (CHistory (map toJSON (records s1)))))
    as Hdoc.
  { subst s1. unfold post. rewrite createFullBackup_run by done.
    destruct (produceArtifact e options (backupIdOf e) (acquired e s))
      as [[[a|err] sA] tA]; simpl;
      rewrite saveBackupHistory_eq, Hwrite; simpl; by rewrite lookup_insert_eq. }
  split; [exact Hdoc|].
  assert (records s2 = map toJSON (records s1)) as Hrec.
  { by apply loadBackupHistory_records. }
  split; [exact Hrec|]. rewrite Hrec, length_map. unfold records. rewrite length_map.
  destruct (createFullBackup_append_only e options s Hfree) as [Hhist _].
  fold (post (createFullBackup e options) s) in Hhist. fold s1 in Hhist.
  rewrite Hhist, length_app. simpl. lia.
Qed.

Lemma history_document_in_sync_witness :
  let s1 := post (createFullBackup (shop quiet 3000) defaultOptions) afterTwoBackups in
  let s2 := post (loadBackupHistory (shop quiet 4000)) (newService (fs s1)) in
  isBackupRunning afterTwoBackups = false /\
  List.length (records s2) = 3%nat.
Proof.
  split; [reflexivity|].
  destruct (history_document_in_sync (shop quiet 3000) (shop quiet 4000) defaultOptions
              afterTwoBackups eq_refl eq_refl eq_refl) as (_ & _ & H).
  exact H.
Defined.
